(** * The physics core of the three-body rocket simulation (rocket.py)

    A shallow embedding of [Body] and [System]: the acceleration model, the
    velocity-Verlet integrator, the capped trajectory history, the state
    (de)serialisation helper and the keyboard control adapter.

    Scalars are modelled as real numbers.  Python objects live on an explicit
    heap: every [np.ndarray] and every [Body] has an address, in-place updates
    ([+=] on an array) write through the address, and [.copy()] or
    [np.array(..)] allocate a fresh one.  Rendering ([draw], [draw_sparks],
    the loop of [pygame_run]) is modelled after the physics: the calls on
    pygame are recorded with their arguments, and what [random] and the
    event queue return is an input. *)

From Stdlib Require Import Reals Lra Lia ZArith List.
From stdpp Require Import base list sets.

Open Scope R_scope.

(** ** Two-component arrays *)

(** A value of an [np.ndarray] of shape (2,). *)
Abbreviation vec := (R * R)%type.

Definition vzero : vec := (0, 0).                     (* np.zeros(2) *)
Definition vadd (u v : vec) : vec := (u.1 + v.1, u.2 + v.2).
Definition vsub (u v : vec) : vec := (u.1 - v.1, u.2 - v.2).
Definition vscale (c : R) (v : vec) : vec := (c * v.1, c * v.2).      (* c * v *)
Definition vscale_r (v : vec) (c : R) : vec := (v.1 * c, v.2 * c).    (* v * c *)
Definition vdiv (v : vec) (c : R) : vec := (v.1 / c, v.2 / c).        (* v / c *)

(** [np.linalg.norm] on a 1-D array and [np.radians]. *)
Definition norm (v : vec) : R := sqrt (v.1 * v.1 + v.2 * v.2).
Definition radians (deg : R) : R := deg * (PI / 180).

(** The value of an arithmetic expression: a Python number or an array.
    numpy broadcasts a number against an array componentwise. *)
Inductive ndvalue :=
  | Num (x : R)
  | Arr (v : vec).

Definition broadcast (n : ndvalue) : vec :=
  match n with
  | Num x => (x, x)
  | Arr v => v
  end.

(** [n * c] for a Python number [c]. *)
Definition nd_mul (n : ndvalue) (c : R) : ndvalue :=
  match n with
  | Num x => Num (x * c)
  | Arr v => Arr (vscale_r v c)
  end.

(** [n + v] for an array [v]: always an array. *)
Definition nd_add (n : ndvalue) (v : vec) : vec :=
  match n with
  | Num x => (x + v.1, x + v.2)
  | Arr u => vadd u v
  end.

(** ** The heap *)

Abbreviation loc := nat.   (* address of an ndarray *)
Abbreviation ref := nat.   (* address of a Body object *)

(** What an attribute that holds a number or an array refers to. *)
Inductive pyval :=
  | PyScalar (x : R)
  | PyArr (l : loc).

Record Body := mkBody {
  mass : R;
  position : loc;
  velocity : pyval;
  is_rocket : bool;
  thrust : R;
  angle : option R;               (* None for a body that is not the rocket *)
  position_history : list loc
}.

Definition set_velocity (b : Body) (v : pyval) : Body :=
  mkBody (mass b) (position b) v (is_rocket b) (thrust b) (angle b)
         (position_history b).
Definition set_thrust (b : Body) (t : R) : Body :=
  mkBody (mass b) (position b) (velocity b) (is_rocket b) t (angle b)
         (position_history b).
Definition set_angle (b : Body) (a : option R) : Body :=
  mkBody (mass b) (position b) (velocity b) (is_rocket b) (thrust b) a
         (position_history b).
Definition set_position_history (b : Body) (hs : list loc) : Body :=
  mkBody (mass b) (position b) (velocity b) (is_rocket b) (thrust b) (angle b)
         hs.

Record heap := mkHeap {
  arrays : list vec;
  objects : list Body
}.

Definition empty_heap : heap := mkHeap [] [].

(** ** A state and exception monad for Python code *)

(** [Dangling] is raised by the model when an address is not on the heap.
    Python references are always live, so it never happens on a well-formed
    heap; the other two are Python's own exceptions. *)
Inductive exn := TypeError | IndexError | Dangling.

Inductive result (A : Type) :=
  | Ok (a : A)
  | Raise (e : exn).
Arguments Ok {A} a.
Arguments Raise {A} e.

Definition M (A : Type) : Type := heap -> result (A * heap).

(** The heap a computation ends with. *)
Definition heap_of {A} (r : result (A * heap)) : heap :=
  match r with
  | Ok (_, h) => h
  | Raise _ => empty_heap
  end.

Definition ret {A} (a : A) : M A := fun h => Ok (a, h).
Definition raise {A} (e : exn) : M A := fun _ => Raise e.
Definition bind {A B} (m : M A) (k : A -> M B) : M B :=
  fun h => match m h with
           | Ok (a, h') => k a h'
           | Raise e => Raise e
           end.

Notation "'let!' x ':=' m 'in' k" := (bind m (fun x => k))
  (at level 10, x name, m at level 100, k at level 200, only parsing).

Definition read_arr (l : loc) : M vec :=
  fun h => match arrays h !! l with
           | Some v => Ok (v, h)
           | None => Raise Dangling
           end.

Definition write_arr (l : loc) (v : vec) : M unit :=
  fun h => match arrays h !! l with
           | Some _ => Ok (tt, mkHeap (<[l := v]> (arrays h)) (objects h))
           | None => Raise Dangling
           end.

Definition new_arr (v : vec) : M loc :=
  fun h => Ok (length (arrays h), mkHeap (arrays h ++ [v]) (objects h)).

Definition get_body (b : ref) : M Body :=
  fun h => match objects h !! b with
           | Some o => Ok (o, h)
           | None => Raise Dangling
           end.

(** Assigning to attributes of the object at [b]. *)
Definition modify (b : ref) (f : Body -> Body) : M unit :=
  fun h => match objects h !! b with
           | Some o => Ok (tt, mkHeap (arrays h) (<[b := f o]> (objects h)))
           | None => Raise Dangling
           end.

Definition new_body (o : Body) : M ref :=
  fun h => Ok (length (objects h), mkHeap (arrays h) (objects h ++ [o])).

(** [l[i]] on a Python list. *)
Definition index {A} (l : list A) (i : nat) : M A :=
  fun h => match l !! i with
           | Some x => Ok (x, h)
           | None => Raise IndexError
           end.

(** [for x in xs: f(x)] *)
Fixpoint for_each {A} (xs : list A) (f : A -> M unit) : M unit :=
  match xs with
  | [] => ret tt
  | x :: xs' => let! _ := f x in for_each xs' f
  end.

(** [out = []; for x in xs: out.append(f(x))] *)
Fixpoint collect {A B} (xs : list A) (f : A -> M B) : M (list B) :=
  match xs with
  | [] => ret []
  | x :: xs' => let! y := f x in let! ys := collect xs' f in ret (y :: ys)
  end.

(** [enumerate(l, start)] *)
Fixpoint enumerate_from {A} (start : nat) (l : list A) : list (nat * A) :=
  match l with
  | [] => []
  | x :: l' => (start, x) :: enumerate_from (S start) l'
  end.

Definition enumerate {A} (l : list A) : list (nat * A) := enumerate_from 0 l.

(** The value an attribute refers to. *)
Definition load (v : pyval) : M ndvalue :=
  match v with
  | PyScalar x => ret (Num x)
  | PyArr l => let! a := read_arr l in ret (Arr a)
  end.

(** ** class Body *)

Module Body.

(** [Body(mass, position, velocity, is_rocket)]: [np.array] copies its
    argument into a fresh array. *)
Definition __init__ (mass : R) (position velocity : vec) (is_rocket : bool)
  : M ref :=
  let! p := new_arr position in
  let! v := new_arr velocity in
  new_body (mkBody mass p (PyArr v) is_rocket
                   (if is_rocket then 0.0001 else 0)
                   (if is_rocket then Some 0 else None)
                   []).

Definition default_softening : R := 0.18.

(** One gravity term: [G * other.mass * r / np.maximum(distance**3, softening**3)]. *)
Definition softened_cube (distance softening : R) : R :=
  Rmax (distance ^ 3) (softening ^ 3).

Definition gravity_term (G m : R) (r : vec) (softening : R) : vec :=
  let distance := norm r in
  vdiv (vscale (G * m) r) (softened_cube distance softening).

(** The loop [for other in other_bodies: if other is not self: ...]. *)
Fixpoint gravity (self : ref) (G softening : R) (other_bodies : list ref)
  (acceleration : vec) : M vec :=
  match other_bodies with
  | [] => ret acceleration
  | other :: rest =>
    if bool_decide (other ≠ self) then
      let! o := get_body other in
      let! op := read_arr (position o) in
      let! me := get_body self in
      let! sp := read_arr (position me) in
      let r := vsub op sp in
      gravity self G softening rest
              (vadd acceleration (gravity_term G (mass o) r softening))
    else gravity self G softening rest acceleration
  end.

Definition thrust_acceleration (thrust angle : R) : vec :=
  ((- thrust) * sin (radians angle), thrust * cos (radians angle)).

Definition compute_acceleration (self : ref) (other_bodies : list ref)
  (G softening : R) : M vec :=
  let acceleration := vzero in
  let! me := get_body self in
  let! acceleration :=
    (if negb (is_rocket me)
     then gravity self G softening other_bodies acceleration
     else ret acceleration) in
  let! me := get_body self in
  if is_rocket me then
    match angle me with
    | Some a => ret (vadd acceleration (thrust_acceleration (thrust me) a))
    | None => raise TypeError
    end
  else ret acceleration.

Definition get_state (self : ref) : M (list R) :=
  let! me := get_body self in
  let! p := read_arr (position me) in
  match velocity me with
  | PyArr l => let! v := read_arr l in ret [p.1; p.2; v.1; v.2]
  | PyScalar _ => raise TypeError       (* a number is not subscriptable *)
  end.

(** The four keys [update_rocket_controls] looks at. *)
Record Keys := mkKeys {
  K_LEFT : bool;
  K_RIGHT : bool;
  K_UP : bool;
  K_DOWN : bool
}.

(** [self.angle += 5] and [self.angle -= 5]; None has no arithmetic. *)
Definition change_angle (self : ref) (f : R -> R) : M unit :=
  let! me := get_body self in
  match angle me with
  | Some a => modify self (fun me => set_angle me (Some (f a)))
  | None => raise TypeError
  end.

Definition update_rocket_controls (self : ref) (keys : Keys) : M unit :=
  let! me := get_body self in
  if is_rocket me then
    let! _ := (if K_LEFT keys then change_angle self (fun a => a + 5)
               else ret tt) in
    let! _ := (if K_RIGHT keys then change_angle self (fun a => a - 5)
               else ret tt) in
    let! _ := (if K_UP keys then modify self (fun me => set_thrust me 6)
               else modify self (fun me => set_thrust me 0)) in
    if K_DOWN keys then modify self (fun me => set_velocity me (PyScalar 0))
    else ret tt
  else ret tt.

End Body.

(** ** class System *)

Record System := mkSystem {
  G : R;
  bodies : option (list ref)      (* None is Python's None *)
}.

Module System.

(** Iterating over [self.bodies]: None is not iterable. *)
Definition the_bodies (self : System) : M (list ref) :=
  match bodies self with
  | Some bs => ret bs
  | None => raise TypeError
  end.

(** [System(G, state, bodies)].  [range(int(len(state)/4))] is the floor of
    the quotient; every body built from a state vector has mass 1.0 and is
    not the rocket. *)
Definition __init__ (G : R) (state : option (list R))
  (bodies : option (list ref)) : M System :=
  match state with
  | Some st =>
    let! bs := collect (seq 0 (length st / 4)) (fun body =>
      let n := (body * 4)%nat in
      let! x := index st (0 + n) in
      let! y := index st (1 + n) in
      let! vx := index st (2 + n) in
      let! vy := index st (3 + n) in
      Body.__init__ 1 (x, y) (vx, vy) false) in
    ret (mkSystem G (Some bs))
  | None => ret (mkSystem G bodies)
  end.

Definition compute_accelerations (self : System) : M (list vec) :=
  let! bs := the_bodies self in
  collect bs (fun body =>
    let other_bodies := filter (fun b => b ≠ body) bs in
    Body.compute_acceleration body other_bodies (G self)
                              Body.default_softening).

Fixpoint extend (xs : list ref) (state : list R) : M (list R) :=
  match xs with
  | [] => ret state
  | body :: xs' =>
    let! body_state := Body.get_state body in
    extend xs' (state ++ body_state)
  end.

Definition get_state (self : System) : M (list R) :=
  let! bs := the_bodies self in
  extend bs [].

(** The trail limit of [integrate]. *)
Definition trail_limit : Z := 200000.

Definition update_position (accelerations : list vec) (dt : R)
  (ib : nat * ref) : M unit :=
  let i := ib.1 in
  let body := ib.2 in
  let! me := get_body body in
  let! p := read_arr (position me) in
  let! v := load (velocity me) in
  let! a := index accelerations i in
  write_arr (position me)
            (vadd p (nd_add (nd_mul v dt) (vscale_r (vscale 0.5 a) (dt ^ 2)))).

(** [body.velocity += d]: in place on an array; a number has no in-place
    addition, so the sum, a new array, is bound to the attribute. *)
Definition add_to_velocity (body : ref) (d : vec) : M unit :=
  let! me := get_body body in
  let! v := load (velocity me) in
  match velocity me with
  | PyArr l => write_arr l (nd_add v d)
  | PyScalar _ =>
    let! l := new_arr (nd_add v d) in
    modify body (fun me => set_velocity me (PyArr l))
  end.

(** [body.position_history.append(body.position.copy())] *)
Definition append_position (body : ref) : M unit :=
  let! me := get_body body in
  let! p := read_arr (position me) in
  let! c := new_arr p in
  modify body (fun me =>
    set_position_history me (position_history me ++ [c])).

(** [if len(body.position_history) > 200000: body.position_history.pop(0)] *)
Definition limit_trail (body : ref) : M unit :=
  let! me := get_body body in
  if (trail_limit <? Z.of_nat (length (position_history me)))%Z
  then modify body (fun me =>
         set_position_history me (tail (position_history me)))
  else ret tt.

Definition update_velocity (accelerations new_accelerations : list vec)
  (dt : R) (ib : nat * ref) : M unit :=
  let i := ib.1 in
  let body := ib.2 in
  let! a := index accelerations i in
  let! na := index new_accelerations i in
  let! _ := add_to_velocity body (vscale_r (vscale 0.5 (vadd a na)) dt) in
  let! _ := append_position body in
  limit_trail body.

Definition integrate (self : System) (dt : R) : M unit :=
  let! accelerations := compute_accelerations self in
  let! bs := the_bodies self in
  let! _ := for_each (enumerate bs) (update_position accelerations dt) in
  let! new_accelerations := compute_accelerations self in
  let! bs := the_bodies self in
  for_each (enumerate bs)
           (update_velocity accelerations new_accelerations dt).

End System.

(** ** The main loop, without its presentation side *)

(** [generate()]: three unit masses and the rocket, [G] left at its default. *)
Definition generate : M System :=
  let! body1 := Body.__init__ 1 (0, 0) (0.687546, 1.06785) false in
  let! body2 := Body.__init__ 1 (-1, 0) (-0.343773, -0.533925) false in
  let! body3 := Body.__init__ 1 (1, 0) (-0.343773, -0.533925) false in
  let! body4 := Body.__init__ 0.0001 (0, 1.2) (0, 0) true in
  System.__init__ 1 None (Some [body1; body2; body3; body4]).

(** One iteration of the loop of [pygame_run]: the control adapter acts on
    [system.bodies[3]], then the system is integrated with [dt = 0.001]. *)
Definition pygame_frame (system : System) (keys : Body.Keys) : M unit :=
  let! bs := System.the_bodies system in
  let! rocket := index bs 3 in
  let! _ := Body.update_rocket_controls rocket keys in
  System.integrate system 0.001.

(** The [while running] loop, one key snapshot per iteration. *)
Definition pygame_loop (system : System) (inputs : list Body.Keys) : M unit :=
  for_each inputs (pygame_frame system).

(** A tick in general: any number of control-adapter calls, then one
    [integrate]. *)
Record Frame := mkFrame {
  controls : list (ref * Body.Keys);
  dt : R
}.

Definition frame (system : System) (f : Frame) : M unit :=
  let! _ := for_each (controls f)
              (fun bk => Body.update_rocket_controls bk.1 bk.2) in
  System.integrate system (dt f).

Definition run (system : System) (fs : list Frame) : M unit :=
  for_each fs (frame system).

(** ** The value-level view of a body: the spec's data model *)

(** A passive body gravitates; the controllable one carries a thrust
    magnitude and a heading in degrees. *)
Inductive Kind :=
  | Passive
  | Controllable (thrustMagnitude headingAngleDegrees : R).

Record Snapshot := mkSnapshot {
  s_mass : R;
  s_position : vec;
  s_velocity : vec;
  s_kind : Kind;
  s_history : list vec
}.

Definition kind_of (o : Body) : option Kind :=
  if is_rocket o
  then match angle o with
       | Some a => Some (Controllable (thrust o) a)
       | None => None
       end
  else Some Passive.

(** What a body looks like on a heap: the arrays its attributes refer to are
    read, and a number in [velocity] is read as numpy broadcasts it. *)
Definition velocity_value (h : heap) (o : Body) : option vec :=
  match velocity o with
  | PyScalar x => Some (x, x)
  | PyArr l => arrays h !! l
  end.

Definition snapshot (h : heap) (b : ref) : option Snapshot :=
  match objects h !! b with
  | Some o =>
    match arrays h !! position o, velocity_value h o, kind_of o,
          mapM (fun l => arrays h !! l) (position_history o) with
    | Some p, Some v, Some k, Some hs => Some (mkSnapshot (mass o) p v k hs)
    | _, _, _, _ => None
    end
  | None => None
  end.

Definition snapshots (h : heap) (bs : list ref) : option (list Snapshot) :=
  mapM (snapshot h) bs.

(** ** The integrator as the spec words it *)

Definition vsum (vs : list vec) : vec := foldr vadd vzero vs.

(** 4.1: the sum over every other body, or the thrust vector. *)
Definition acceleration_of (G softening : R) (s : Snapshot)
  (others : list Snapshot) : vec :=
  match s_kind s with
  | Passive =>
    vsum (map (fun o => Body.gravity_term G (s_mass o)
                          (vsub (s_position o) (s_position s)) softening)
              others)
  | Controllable t a => Body.thrust_acceleration t a
  end.

(** One full pairwise pass: body [i] against all the others. *)
Definition accelerations_of (G : R) (ss : list Snapshot) : list vec :=
  imap (fun i s => acceleration_of G Body.default_softening s (delete i ss)) ss.

Definition with_position (s : Snapshot) (p : vec) : Snapshot :=
  mkSnapshot (s_mass s) p (s_velocity s) (s_kind s) (s_history s).
Definition with_velocity (s : Snapshot) (v : vec) : Snapshot :=
  mkSnapshot (s_mass s) (s_position s) v (s_kind s) (s_history s).
Definition with_kind (s : Snapshot) (k : Kind) : Snapshot :=
  mkSnapshot (s_mass s) (s_position s) (s_velocity s) k (s_history s).
Definition with_history (s : Snapshot) (hs : list vec) : Snapshot :=
  mkSnapshot (s_mass s) (s_position s) (s_velocity s) (s_kind s) hs.

(** 4.2 step 2: [position += velocity*dt + 0.5*a0*dt^2]. *)
Definition move (dt : R) (s : Snapshot) (a0 : vec) : Snapshot :=
  with_position s
    (vadd (s_position s)
          (vadd (vscale_r (s_velocity s) dt)
                (vscale_r (vscale 0.5 a0) (dt ^ 2)))).

(** 4.2 step 5: append, then evict the oldest entry when the cap is
    exceeded. *)
Definition push_capped {A} (hs : list A) (x : A) : list A :=
  let hs' := hs ++ [x] in
  if (System.trail_limit <? Z.of_nat (length hs'))%Z then tail hs' else hs'.

(** 4.2 steps 4 and 5: [velocity += 0.5*(a0 + a1)*dt], then the new position
    is recorded. *)
Definition kick (dt : R) (s : Snapshot) (a01 : vec * vec) : Snapshot :=
  with_history
    (with_velocity s
       (vadd (s_velocity s) (vscale_r (vscale 0.5 (vadd a01.1 a01.2)) dt)))
    (push_capped (s_history s) (s_position s)).

Definition verlet_step (G dt : R) (ss : list Snapshot) : list Snapshot :=
  let a0 := accelerations_of G ss in
  let moved := zip_with (move dt) ss a0 in
  let a1 := accelerations_of G moved in
  zip_with (kick dt) moved (zip a0 a1).

(** 4.3: what one control-adapter call may do to a body. *)
Definition control_of (keys : Body.Keys) (s : Snapshot) : Snapshot :=
  match s_kind s with
  | Passive => s
  | Controllable t a =>
    let a := if Body.K_LEFT keys then a + 5 else a in
    let a := if Body.K_RIGHT keys then a - 5 else a in
    let t := if Body.K_UP keys then 6 else 0 in
    with_velocity (with_kind s (Controllable t a))
                  (if Body.K_DOWN keys then vzero else s_velocity s)
  end.

(** ** Well-formed heaps *)

(** The arrays a body may write to, and all the arrays it refers to. *)
Definition velocity_locs (o : Body) : list loc :=
  match velocity o with
  | PyArr l => [l]
  | PyScalar _ => []
  end.
Definition live_locs (o : Body) : list loc := position o :: velocity_locs o.
Definition footprint (o : Body) : list loc := live_locs o ++ position_history o.

(** A body of the system: it is on the heap with all its arrays, the rocket
    has a heading, and no array is referred to twice. *)
Definition body_ok (h : heap) (b : ref) : Prop :=
  match objects h !! b with
  | Some o =>
    Forall (fun l => (l < length (arrays h))%nat) (footprint o) /\
    is_Some (kind_of o) /\
    NoDup (live_locs o) /\
    Forall (fun l => l ∉ live_locs o) (position_history o)
  | None => False
  end.

(** Two bodies of the system share no array that either may write to. *)
Definition separate (h : heap) (b b' : ref) : Prop :=
  match objects h !! b, objects h !! b' with
  | Some o, Some o' => Forall (fun l => l ∉ footprint o') (live_locs o)
  | _, _ => False
  end.

(** The spec's ownership rule (3: no entity is shared or referenced by more
    than one owner) for the bodies [bs] of a system. *)
Definition wf (h : heap) (bs : list ref) : Prop :=
  NoDup bs /\
  Forall (body_ok h) bs /\
  Forall (fun b => Forall (fun b' => b ≠ b' -> separate h b b') bs) bs.

(** No body of the system may write to the array at [l]. *)
Definition not_live (h : heap) (bs : list ref) (l : loc) : Prop :=
  forall b o, b ∈ bs -> objects h !! b = Some o -> l ∉ live_locs o.

(** From [h] to [h'] the heap only grew, and every array that no body of the
    system could write to is unchanged and still out of their reach. *)
Definition evolves (bs : list ref) (h h' : heap) : Prop :=
  (length (arrays h) <= length (arrays h'))%nat /\
  forall l, (l < length (arrays h))%nat -> not_live h bs l ->
            arrays h' !! l = arrays h !! l /\ not_live h' bs l.

(** From [h] to [h'] only body [b] changed, as far as the system can see:
    the heap is still well-formed, [b] now looks like [s'], the other bodies
    look as before. *)
Definition only_changes (bs : list ref) (b : ref) (h h' : heap)
  (s' : option Snapshot) : Prop :=
  wf h' bs /\
  snapshot h' b = s' /\
  (forall b', b' ∈ bs -> b' ≠ b -> snapshot h' b' = snapshot h b') /\
  evolves bs h h'.

(** A statement that acts on body [b] alone: on a well-formed heap it runs
    without raising and changes the view of [b] by [T]. *)
Definition acts_on (bs : list ref) (b : ref) (m : M unit)
  (T : Snapshot -> Snapshot) : Prop :=
  forall h, wf h bs ->
  exists h', m h = Ok (tt, h') /\ only_changes bs b h h' (T <$> snapshot h b).

(** The control adapter and whole ticks on the value-level view. *)
Definition apply_control (bs : list ref) (bk : ref * Body.Keys)
  (ss : list Snapshot) : list Snapshot :=
  zip_with (fun b s => if decide (b = bk.1) then control_of bk.2 s else s)
           bs ss.

Definition frame_step (G : R) (bs : list ref) (ss : list Snapshot)
  (f : Frame) : list Snapshot :=
  verlet_step G (dt f) (foldl (fun ss bk => apply_control bs bk ss) ss
                              (controls f)).

Definition run_steps (G : R) (bs : list ref) (fs : list Frame)
  (ss : list Snapshot) : list Snapshot :=
  foldl (frame_step G bs) ss fs.

(** Body [b] right after the first [k] ticks of a run, and its position
    then: the sample recorded at tick [k]. *)
Definition snapshot_after (system : System) (fs : list Frame) (h : heap)
  (b : ref) (k : nat) : option Snapshot :=
  snapshot (heap_of (run system (take k fs) h)) b.

Definition position_after (system : System) (fs : list Frame) (h : heap)
  (b : ref) (k : nat) : option vec :=
  s_position <$> snapshot_after system fs h b k.

#[global] Instance body_ok_dec h b : Decision (body_ok h b).
Proof. unfold body_ok. destruct (objects h !! b); apply _. Defined.

#[global] Instance separate_dec h b b' : Decision (separate h b b').
Proof.
  unfold separate.
  destruct (objects h !! b); [destruct (objects h !! b')|]; apply _.
Defined.

#[global] Instance wf_dec h bs : Decision (wf h bs).
Proof. unfold wf. apply _. Defined.

(** ** Auxiliary notions for the statements *)

(** The gravity term that body [other] contributes at the point [sp]. *)
Definition term_from (h : heap) (G softening : R) (sp : vec) (other : ref)
  : option vec :=
  match objects h !! other with
  | Some o =>
    match arrays h !! position o with
    | Some op => Some (Body.gravity_term G (mass o) (vsub op sp) softening)
    | None => None
    end
  | None => None
  end.

(** Allocation only ever extends a heap. *)
Definition extends (h h' : heap) : Prop :=
  arrays h `prefix_of` arrays h' /\ objects h `prefix_of` objects h'.

(** The concrete scenario of the spec's testable properties: a rocket of
    mass [m] at [0, 1.2] and a unit-mass passive body at the origin, both at
    rest, the control adapter called once with no key pressed. *)
Definition no_keys : Body.Keys := Body.mkKeys false false false false.
Definition kill_key : Body.Keys := Body.mkKeys false false false true.

Definition scenario (m : R) : M System :=
  let! rocket := Body.__init__ m (0, 1.2) (0, 0) true in
  let! planet := Body.__init__ 1 (0, 0) (0, 0) false in
  let! _ := Body.update_rocket_controls rocket no_keys in
  System.__init__ 1 None (Some [rocket; planet]).

Definition scenario_heap (m : R) : heap := heap_of (scenario m empty_heap).
Definition scenario_system : System := mkSystem 1 (Some [0; 1]%nat).
Definition scenario_snapshots (m : R) : list Snapshot :=
  [mkSnapshot m (0, 1.2) (0, 0) (Controllable 0 0) [];
   mkSnapshot 1 (0, 0) (0, 0) Passive []].

(** ** Quantities of a whole system *)

(** The four numbers [Body.get_state] reads off a body. *)
Definition state_of (s : Snapshot) : list R :=
  [(s_position s).1; (s_position s).2; (s_velocity s).1; (s_velocity s).2].

(** Two views of a body that differ in the history at most. *)
Definition same_motion (s s' : Snapshot) : Prop :=
  s_mass s' = s_mass s /\ s_position s' = s_position s /\
  s_velocity s' = s_velocity s /\ s_kind s' = s_kind s.

(** Total momentum and the mass-weighted sum of the positions. *)
Definition momentum (ss : list Snapshot) : vec :=
  vsum (map (fun s => vscale (s_mass s) (s_velocity s)) ss).

Definition mass_moment (ss : list Snapshot) : vec :=
  vsum (map (fun s => vscale (s_mass s) (s_position s)) ss).

(** The forces [mass * acceleration] on the bodies, summed. *)
Definition total_force (ss : list Snapshot) (accelerations : list vec) : vec :=
  vsum (zip_with (fun s a => vscale (s_mass s) a) ss accelerations).

(** The angular momentum about the origin, [mass * (x * vy - y * vx)]
    summed, and the torques [mass * (x * ay - y * ax)], summed. *)
Definition cross (u v : vec) : R := u.1 * v.2 - u.2 * v.1.

Definition angular_momentum (ss : list Snapshot) : R :=
  foldr Rplus 0
    (map (fun s => s_mass s * cross (s_position s) (s_velocity s)) ss).

Definition total_torque (ss : list Snapshot) (accelerations : list vec) : R :=
  foldr Rplus 0
    (zip_with (fun s a => s_mass s * cross (s_position s) a) ss accelerations).

(** What the accelerations depend on: velocities and histories do not
    enter. *)
Definition same_place (s s' : Snapshot) : Prop :=
  s_mass s' = s_mass s /\ s_position s' = s_position s /\ s_kind s' = s_kind s.

(** Whether the [velocity] attribute of body [b] refers to an array or holds
    a number. *)
Definition has_array_velocity (h : heap) (b : ref) : Prop :=
  exists o l, objects h !! b = Some o /\ velocity o = PyArr l.

Definition has_number_velocity (h : heap) (b : ref) : Prop :=
  exists o x, objects h !! b = Some o /\ velocity o = PyScalar x.

(** What a statement on body [b] does to the objects: the other objects
    stay, the one of [b] changes by [R]. *)
Definition rebinds (b : ref) (R : Body -> Body -> Prop) (h h' : heap) : Prop :=
  (forall b', b' ≠ b -> objects h' !! b' = objects h !! b') /\
  exists o o', objects h !! b = Some o /\ objects h' !! b = Some o' /\ R o o'.

(** The view of a body from a frame of reference moved by [c]. *)
Definition shifted (c : vec) (s s' : Snapshot) : Prop :=
  s_mass s' = s_mass s /\ s_position s' = vadd (s_position s) c /\
  s_velocity s' = s_velocity s /\ s_kind s' = s_kind s.

(** In how many of the key snapshots [ks] the key [key] is down. *)
Definition presses (key : Body.Keys -> bool) (ks : list Body.Keys) : nat :=
  length (List.filter key ks).

(** A system of two passive bodies, built from a state vector, and the
    scenario after the kill input. *)
Definition two_body_state : list R := [0; 0; 1; 0; 2; 0; 0; 1].
Definition two_body_heap : heap :=
  heap_of (System.__init__ 1 (Some two_body_state) None empty_heap).
Definition two_body_system : System := mkSystem 1 (Some [0; 1]%nat).
Definition two_body_snapshots : list Snapshot :=
  [mkSnapshot 1 (0, 0) (1, 0) Passive [];
   mkSnapshot 1 (2, 0) (0, 1) Passive []].

Definition killed_heap : heap :=
  heap_of (Body.update_rocket_controls 0%nat kill_key (scenario_heap 0.0001)).

(** What stays of a body whatever happens to it: its mass, and whether it is
    the rocket. *)
Definition same_body (s s' : Snapshot) : Prop :=
  s_mass s' = s_mass s /\ (s_kind s' = Passive <-> s_kind s = Passive).

(** The two-body system seen from a frame moved by [(5, 7)], and the heap
    [generate()] builds. *)
Definition moved_two_body_heap : heap :=
  heap_of (System.__init__ 1 (Some [5; 7; 1; 0; 7; 7; 0; 1]) None empty_heap).
Definition moved_two_body_snapshots : list Snapshot :=
  [mkSnapshot 1 (5, 7) (1, 0) Passive [];
   mkSnapshot 1 (7, 7) (0, 1) Passive []].

Definition generate_heap : heap := heap_of (generate empty_heap).
Definition generate_system : System := mkSystem 1 (Some [0; 1; 2; 3]%nat).

(** ** Rendering *)

(** What pygame is asked to draw is recorded call by call, with the
    arguments the code passes; what pygame makes of a call is not
    modelled.  A colour is the tuple of its components. *)
Abbreviation colour := (list Z).
Abbreviation point := (R * R)%type.

Definition preset_colours : list colour :=
  [[219; 255; 254]; [255; 235; 205]; [255; 80; 0]]%Z.

(** [pygame.draw.circle], [.polygon] and [.lines] on some surface. *)
Inductive Shape :=
  | circle (color : colour) (center : point) (radius : R)
  | polygon (color : colour) (points : list point)
  | lines (color : colour) (closed : bool) (points : list point) (width : Z).

(** [pygame.Surface(size)] with what was drawn on it. *)
Record Surface := mkSurface {
  size : Z * Z;
  drawn : list Shape
}.

Definition get_width (s : Surface) : Z := (size s).1.
Definition get_height (s : Surface) : Z := (size s).2.

(** The calls on the window, in the order they are made. *)
Inductive Paint :=
  | fill (color : colour)                           (* win.fill(color) *)
  | draw (s : Shape)                                (* pygame.draw.*(win, ..) *)
  | blit (source : Surface) (dest : point)          (* win.blit(source, dest) *)
  | blit_rotozoom (source : Surface) (angle scale : R) (center : point)
      (* image = rotozoom(source, angle, scale);
         win.blit(image, image.get_rect(center=center)) *)
  | blit_text (x y : R) (dest : Z * Z).
      (* win.blit(font.render(f'X: {x:.5f}, Y: {y:.5f}', ..), dest) *)

(** [range(start, stop, step)] for a step that is not 0. *)
Definition py_range (start stop step : Z) : list Z :=
  let n := if (0 <? step)%Z then ((stop - start + step - 1) / step)%Z
           else ((start - stop - step - 1) / (- step))%Z in
  map (fun i => (start + Z.of_nat i * step)%Z) (seq 0 (Z.to_nat n)).

(** [int(x)] on a float: towards zero. *)
Definition py_int (x : R) : Z :=
  if Rle_dec 0 x then Int_part x else (- Int_part (- x))%Z.

(** A spark [[(x, y), speed, angle, life]] of [self.sparks]. *)
Record Spark := mkSpark {
  spark_pos : point;
  spark_speed : R;
  spark_angle : R;
  spark_life : Z
}.

(** What the three calls of [random] return for one new spark:
    [random.uniform(1, 3)], [random.uniform(-30, 30)] and
    [random.randint(10, 20)]. *)
Record Draws := mkDraws {
  uniform_1_3 : R;
  uniform_m30_30 : R;
  randint_10_20 : Z
}.

(** The attributes of a [Body] that only rendering uses.  [colour] and
    [glow_surface] are assigned in [__init__] from [is_rocket] and never
    again, so they are read off the object; [sparks], which [draw_sparks]
    reassigns, is kept per object in a store of its own, [[]] for every
    object when it is constructed. *)
Module BodyView.

Definition colour_of (me : Body) : colour :=
  if negb (is_rocket me) then default [] (preset_colours !! 0%nat)
  else [255; 0; 0]%Z.

Definition glow_size : Z := 200.

(** The loop over [zip(range(67, 0, -5), range(1, 30, 5))]: the alpha joins
    the colour, the centre is [(glow_size / 2, glow_size / 2)]. *)
Definition glow_surface (me : Body) : Surface :=
  let glow_x := IZR glow_size / 2 in
  let glow_y := glow_x in
  mkSurface (glow_size, glow_size)
    (zip_with (fun radius alpha =>
                 circle (colour_of me ++ [alpha]) (glow_x, glow_y) (IZR radius))
              (py_range 67 0 (-5)) (py_range 1 30 5)).

(** The first loop of [draw_sparks]: five new sparks. *)
Definition new_sparks (angle x y scale : R) (random : nat -> Draws)
  : list Spark :=
  map (fun i =>
         let spark_speed := uniform_1_3 (random i) * scale in
         let spark_angle := angle + uniform_m30_30 (random i) in
         let spark_life := randint_10_20 (random i) in
         mkSpark (x, y) spark_speed spark_angle spark_life)
      (seq 0 5).

(** The second loop: every spark moves and loses one unit of life; the ones
    still alive are kept and drawn. *)
Fixpoint update_sparks (sparks : list Spark) (scale : R)
  : list Spark * list Paint :=
  match sparks with
  | [] => ([], [])
  | spark :: rest =>
    let new_x := (spark_pos spark).1
                 + spark_speed spark * sin (radians (spark_angle spark)) in
    let new_y := (spark_pos spark).2
                 + spark_speed spark * cos (radians (spark_angle spark)) in
    let life := (spark_life spark - 1)%Z in
    let (new_sparks, painted) := update_sparks rest scale in
    if (0 <? life)%Z then
      let color := if (10 <? life)%Z then [255; 255; 0]%Z
                   else [255; 165; 0]%Z in
      (mkSpark (new_x, new_y) (spark_speed spark) (spark_angle spark) life
         :: new_sparks,
       draw (circle color (IZR (py_int new_x), IZR (py_int new_y))
                    (Rmax (2 * scale) 1))
         :: painted)
    else (new_sparks, painted)
  end.

(** [self.draw_sparks(win, x, y, scale)], given [self.sparks]: the new value
    of [self.sparks] and what was drawn. *)
Definition draw_sparks (self : ref) (sparks : list Spark) (x y scale : R)
  (random : nat -> Draws) : M (list Spark * list Paint) :=
  let! me := get_body self in
  match angle me with
  | Some a => ret (update_sparks (sparks ++ new_sparks a x y scale random) scale)
  | None => raise TypeError
  end.

(** [self.draw(win, rocket_pos, scale)] for a window of size [win]. *)
Definition draw (self : ref) (sparks : list Spark) (win : Z * Z)
  (rocket_pos : loc) (scale : R) (random : nat -> Draws)
  : M (list Spark * list Paint) :=
  let! me := get_body self in
  let! p := read_arr (position me) in
  let! rp := read_arr rocket_pos in
  let relative_position := vsub p rp in
  let x := relative_position.1 * scale + IZR (win.1 / 2) in
  let y := IZR (win.2 / 2) - relative_position.2 * scale in
  let! body :=
    (if is_rocket me then
       let! sparked :=
         (if Rlt_dec 0 (thrust me) then
            match angle me with
            | Some a =>
              draw_sparks self sparks
                (x + 20 * sin (radians a) * scale / 10000)
                (y + 20 * cos (radians a) * scale / 10000)
                (scale / 10000) random
            | None => raise TypeError
            end
          else ret (sparks, [])) in
       match angle me with
       | Some a =>
         let rocket_image :=
           mkSurface (20, 40)%Z
             [polygon (colour_of me) [(10, 0); (0, 40); (20, 40)]] in
         ret (sparked.1,
              sparked.2 ++ [blit_rotozoom rocket_image a (scale / 10000) (x, y)])
       | None => raise TypeError
       end
     else
       let glow := glow_surface me in
       ret (sparks,
            [blit glow (x - IZR (get_width glow / 2),
                        y - IZR (get_height glow / 2));
             draw (circle (colour_of me) (x, y) (scale / 15))])) in
  if bool_decide (2 < length (position_history me))%nat
     && negb (is_rocket me)
  then
    let! history := collect (position_history me) read_arr in
    let points :=
      map (fun pos : vec =>
             let rel_pos := vsub pos rp in
             let trail_x := rel_pos.1 * scale + IZR (win.1 / 2) in
             let trail_y := IZR (win.2 / 2) - rel_pos.2 * scale in
             (trail_x, trail_y))
          history in
    ret (body.1, body.2 ++ [draw (lines (colour_of me) false points 2)])
  else ret body.

End BodyView.

(** ** The loop of [pygame_run] *)

(** What one iteration gets from pygame: whether a QUIT event is in the
    queue, the keys that are down, and what [random] returns for the [j]-th
    new spark of the [i]-th body that is drawn. *)
Record Input := mkInput {
  QUIT : bool;
  keys : Body.Keys;
  K_PLUS : bool;
  K_EQUALS : bool;
  K_MINUS : bool;
  random : nat -> nat -> Draws
}.

(** The local variables of [pygame_run] and the rendering side of the
    bodies: [running], [scale], the [sparks] of every [Body], and what was
    drawn on the window since it was last filled. *)
Record View := mkView {
  running : bool;
  scale : R;
  sparks : ref -> list Spark;
  screen : list Paint
}.

Definition set_sparks (store : ref -> list Spark) (b : ref)
  (s : list Spark) : ref -> list Spark :=
  fun b' => if decide (b' = b) then s else store b'.

(** [WIN = pygame.display.set_mode((1000, 1000))] *)
Definition WIN : Z * Z := (1000, 1000)%Z.

(** [for body in system.bodies: body.draw(WIN, rocket_pos, scale)] *)
Fixpoint draw_bodies (bodies : list (nat * ref)) (rocket_pos : loc)
  (scale : R) (random : nat -> nat -> Draws) (store : ref -> list Spark)
  : M ((ref -> list Spark) * list Paint) :=
  match bodies with
  | [] => ret (store, [])
  | (i, body) :: rest =>
    let! out := BodyView.draw body (store body) WIN rocket_pos scale
                              (random i) in
    let! outs := draw_bodies rest rocket_pos scale random
                             (set_sparks store body out.1) in
    ret (outs.1, out.2 ++ outs.2)
  end.

(** One pass through the body of the [while] loop. *)
Definition pygame_iteration (system : System) (input : Input) (v : View)
  : M View :=
  let running := if QUIT input then false else running v in
  let! _ := pygame_frame system (keys input) in
  let! bs := System.the_bodies system in
  let! rocket := index bs 3 in
  let! me := get_body rocket in
  let rocket_pos := position me in
  let scale := if K_PLUS input || K_EQUALS input then scale v * 1.1
               else scale v in
  let scale := if K_MINUS input then scale / 1.1 else scale in
  let! out := draw_bodies (enumerate bs) rocket_pos scale (random input)
                          (sparks v) in
  let! rp := read_arr rocket_pos in
  ret (mkView running scale out.1
              (fill [10; 10; 10]%Z :: out.2 ++ [blit_text rp.1 rp.2 (10, 10)%Z])).

(** [while running: ...] over the inputs of the iterations to come; the
    loop is left when [running] is false, or here when the inputs end. *)
Fixpoint pygame_while (system : System) (inputs : list Input) (v : View)
  : M View :=
  match inputs with
  | [] => ret v
  | input :: rest =>
    if running v then
      let! v' := pygame_iteration system input v in
      pygame_while system rest v'
    else ret v
  end.

(** [pygame_run(system)] up to the end of the loop. *)
Definition pygame_run (system : System) (inputs : list Input) : M View :=
  pygame_while system inputs (mkView true 10000 (fun _ => []) []).

(** ** Notions for the statements about rendering *)

(** What [random] promises: [uniform(a, b)] is between [a] and [b],
    [randint(a, b)] is an integer between [a] and [b], ends included. *)
Definition in_range (d : Draws) : Prop :=
  1 <= uniform_1_3 d <= 3 /\ -30 <= uniform_m30_30 d <= 30 /\
  (10 <= randint_10_20 d <= 20)%Z.

(** How many sparks have at least [L] units of life left. *)
Definition living (L : Z) (sparks : list Spark) : nat :=
  length (filter (fun s => (L <= spark_life s)%Z) sparks).

(** Every spark is alive, and for every [L] at most five sparks per call
    that can still have [L] units left do. *)
Definition sparks_ok (sparks : list Spark) : Prop :=
  Forall (fun s => (1 <= spark_life s)%Z) sparks /\
  forall L, (1 <= L <= 20)%Z -> (Z.of_nat (living L sparks) <= 5 * (20 - L))%Z.

(** The iterations that are run: all up to the first QUIT event, the one
    that sees it included. *)
Fixpoint played (inputs : list Input) : list Input :=
  match inputs with
  | [] => []
  | input :: rest => if QUIT input then [input] else input :: played rest
  end.

Definition zooms_in (inputs : list Input) : nat :=
  length (List.filter (fun i => K_PLUS i || K_EQUALS i) inputs).
Definition zooms_out (inputs : list Input) : nat :=
  length (List.filter K_MINUS inputs).

(** The zoom keys of one iteration, and what LEFT and RIGHT do to the
    heading. *)
Definition zoomed (input : Input) (scale : R) : R :=
  let scale := if K_PLUS input || K_EQUALS input then scale * 1.1 else scale in
  if K_MINUS input then scale / 1.1 else scale.

Definition turned (keys : Body.Keys) (a : R) : R :=
  let a := if Body.K_LEFT keys then a + 5 else a in
  if Body.K_RIGHT keys then a - 5 else a.

(** The picture of the rocket that [draw] blits. *)
Definition rocket_image : Surface :=
  mkSurface (20, 40)%Z [polygon [255; 0; 0]%Z [(10, 0); (0, 40); (20, 40)]].

(** Inputs for the examples: [random] always returns the same draws. *)
Definition steady : nat -> nat -> Draws := fun _ _ => mkDraws 2 0 15.

Definition example_inputs : list Input :=
  [mkInput false (Body.mkKeys true false true false) true false false steady;
   mkInput false (Body.mkKeys false false true true) false true false steady;
   mkInput true no_keys false false true steady;
   mkInput false kill_key true false false steady].

(** * Proofs *)
(** ** Arithmetic on two-component arrays *)

Lemma vec_eq (u v : vec) : u.1 = v.1 -> u.2 = v.2 -> u = v.
Proof. destruct u, v; simpl; congruence. Qed.

Lemma vadd_zero_l v : vadd vzero v = v.
Proof. apply vec_eq; simpl; lra. Qed.

Lemma vadd_zero_r v : vadd v vzero = v.
Proof. apply vec_eq; simpl; lra. Qed.

Lemma vadd_assoc u v w : vadd (vadd u v) w = vadd u (vadd v w).
Proof. apply vec_eq; simpl; lra. Qed.

Lemma foldl_vadd acc ts : foldl vadd acc ts = vadd acc (vsum ts).
Proof.
  revert acc. induction ts as [|t ts IH]; intros acc; simpl.
  - by rewrite vadd_zero_r.
  - rewrite IH. apply vadd_assoc.
Qed.

Lemma norm_nonneg v : 0 <= norm v.
Proof. apply sqrt_pos. Qed.

Lemma norm_vscale c v : norm (vscale c v) = Rabs c * norm v.
Proof.
  unfold norm, vscale; simpl.
  replace (c * v.1 * (c * v.1) + c * v.2 * (c * v.2))
    with (Rsqr c * (v.1 * v.1 + v.2 * v.2)) by (unfold Rsqr; ring).
  rewrite sqrt_mult_alt by apply Rle_0_sqr.
  by rewrite sqrt_Rsqr_abs.
Qed.

Lemma norm_heading a : norm (- sin a, cos a) = 1.
Proof.
  unfold norm; simpl.
  replace (- sin a * - sin a + cos a * cos a) with ((sin a)² + (cos a)²)
    by (unfold Rsqr; ring).
  rewrite sin2_cos2. apply sqrt_1.
Qed.

(** ** The softened denominator *)

Lemma softened_cube_pos d s : 0 < s -> 0 < Body.softened_cube d s.
Proof.
  intros Hs. unfold Body.softened_cube.
  apply Rlt_le_trans with (s ^ 3); [apply pow_lt; lra | apply Rmax_r].
Qed.

Lemma softened_cube_floor d s :
  0 <= d -> 0 < s -> d * s ^ 2 <= Body.softened_cube d s.
Proof.
  intros Hd Hs. unfold Body.softened_cube.
  destruct (Rle_lt_dec d s) as [Hle|Hlt].
  - apply Rle_trans with (s ^ 3); [|apply Rmax_r].
    replace (s ^ 3) with (s * s ^ 2) by ring.
    apply Rmult_le_compat_r; [apply pow2_ge_0 | done].
  - apply Rle_trans with (d ^ 3); [|apply Rmax_l].
    replace (d ^ 3) with (d * d ^ 2) by ring.
    apply Rmult_le_compat_l; [done|].
    apply pow_incr; lra.
Qed.

Lemma gravity_term_scale G m r s :
  Body.gravity_term G m r s
  = vscale (G * m / Body.softened_cube (norm r) s) r.
Proof. apply vec_eq; simpl; unfold Rdiv; ring. Qed.

Lemma gravity_term_bound G m r s :
  0 <= G -> 0 <= m -> 0 < s ->
  norm (Body.gravity_term G m r s) <= G * m / s ^ 2.
Proof.
  intros HG Hm Hs.
  rewrite gravity_term_scale, norm_vscale.
  pose proof (softened_cube_pos (norm r) s Hs) as HD.
  pose proof (softened_cube_floor (norm r) s (norm_nonneg r) Hs) as Hfl.
  set (D := Body.softened_cube (norm r) s) in *.
  set (d := norm r) in *.
  assert (Hgm : 0 <= G * m) by nra.
  assert (Hs2 : 0 < s ^ 2) by (apply pow_lt; lra).
  rewrite Rabs_right.
  2:{ apply Rle_ge. apply Rmult_le_pos; [done|]. left. by apply Rinv_0_lt_compat. }
  unfold Rdiv. rewrite Rmult_assoc. apply Rmult_le_compat_l; [done|].
  apply Rmult_le_reg_r with D; [done|].
  apply Rmult_le_reg_r with (s ^ 2); [done|].
  replace (/ D * d * D * s ^ 2) with (d * s ^ 2) by (field; lra).
  replace (/ s ^ 2 * D * s ^ 2) with D by (field; lra).
  done.
Qed.

(** ** Running monadic code *)

Lemma bind_ok {A B} (m : M A) (k : A -> M B) h a h' :
  m h = Ok (a, h') -> bind m k h = k a h'.
Proof. unfold bind. by intros ->. Qed.

Lemma bind_raise {A B} (m : M A) (k : A -> M B) h e :
  m h = Raise e -> bind m k h = Raise e.
Proof. unfold bind. by intros ->. Qed.

Lemma bind_assoc {A B C} (m : M A) (k : A -> M B) (k' : B -> M C) h :
  bind (bind m k) k' h = bind m (fun x => bind (k x) k') h.
Proof. unfold bind. by destruct (m h) as [[??]|]. Qed.

Lemma read_arr_ok h l v : arrays h !! l = Some v -> read_arr l h = Ok (v, h).
Proof. unfold read_arr. by intros ->. Qed.

Lemma get_body_ok h b o : objects h !! b = Some o -> get_body b h = Ok (o, h).
Proof. unfold get_body. by intros ->. Qed.

Lemma index_ok {A} (l : list A) i x h : l !! i = Some x -> index l i h = Ok (x, h).
Proof. unfold index. by intros ->. Qed.

Lemma the_bodies_ok self bs h :
  bodies self = Some bs -> System.the_bodies self h = Ok (bs, h).
Proof. unfold System.the_bodies. by intros ->. Qed.

(** Rewrites the head of a monadic computation with a known outcome. *)
Ltac step_with E :=
  rewrite ?bind_assoc; rewrite (bind_ok _ _ _ _ _ E); cbv beta.
Ltac step_read H := step_with (read_arr_ok _ _ _ H).
Ltac step_body H := step_with (get_body_ok _ _ _ H).

(** ** The acceleration model (4.1) *)

Lemma gravity_spec h self me sp G s others acc ts :
  objects h !! self = Some me ->
  arrays h !! position me = Some sp ->
  mapM (term_from h G s sp) (filter (fun b => b ≠ self) others) = Some ts ->
  Body.gravity self G s others acc h = Ok (foldl vadd acc ts, h).
Proof.
  intros Hme Hsp. revert acc ts.
  induction others as [|other rest IH]; intros acc ts Hts.
  - by injection Hts as <-.
  - simpl. rewrite filter_cons in Hts. case_bool_decide as Hne.
    + rewrite decide_True in Hts by done.
      apply mapM_Some in Hts.
      inversion Hts as [|? t ? ts' Ht Hts' E1 E2]; subst. clear Hts.
      apply mapM_Some in Hts'. unfold term_from in Ht.
      destruct (objects h !! other) as [o|] eqn:Ho; [|done].
      destruct (arrays h !! position o) as [op|] eqn:Hop; [|done].
      injection Ht as <-.
      step_body Ho. step_read Hop. step_body Hme. step_read Hsp.
      exact (IH _ _ Hts').
    + rewrite decide_False in Hts by tauto. by apply IH.
Qed.

Lemma compute_acceleration_passive h self me sp others G softening ts :
  objects h !! self = Some me ->
  is_rocket me = false ->
  arrays h !! position me = Some sp ->
  mapM (term_from h G softening sp) (filter (fun b => b ≠ self) others)
    = Some ts ->
  Body.compute_acceleration self others G softening h = Ok (vsum ts, h).
Proof.
  intros Hme Hrk Hsp Hts. unfold Body.compute_acceleration.
  step_body Hme. rewrite Hrk; simpl.
  step_with (gravity_spec _ _ _ _ _ _ _ vzero _ Hme Hsp Hts).
  step_body Hme. rewrite Hrk.
  by rewrite foldl_vadd, vadd_zero_l.
Qed.

Lemma compute_acceleration_thrust h self me a others G softening :
  objects h !! self = Some me ->
  is_rocket me = true ->
  angle me = Some a ->
  Body.compute_acceleration self others G softening h
  = Ok (Body.thrust_acceleration (thrust me) a, h).
Proof.
  intros Hme Hrk Ha. unfold Body.compute_acceleration.
  step_body Hme. rewrite Hrk; simpl.
  unfold bind at 1, ret at 1. step_body Hme. rewrite Hrk, Ha.
  by rewrite vadd_zero_l.
Qed.

(** C2: for a body that is not the rocket, [compute_acceleration] returns
    the sum, over the bodies of [other_bodies] that are not the body itself
    (compared as objects, whatever their positions), of
    [G * o.mass * (o.position - self.position)
     / max(|o.position - self.position|^3, softening^3)],
    written out below component by component, with
    [|r| = sqrt(r_x^2 + r_y^2)]; with no other bodies the sum is the zero
    vector, not an error; listing the body itself among the others changes
    nothing, while another body at the very same position is summed like any
    other; the default softening is 0.18. *)
Theorem C2_passive_acceleration_is_gravity_sum h self me sp :
  objects h !! self = Some me ->
  is_rocket me = false ->
  arrays h !! position me = Some sp ->
  let term := fun (G softening : R) (mo : R * vec) =>
    let m := mo.1 in
    let rx := (mo.2).1 - sp.1 in
    let ry := (mo.2).2 - sp.2 in
    let distance := sqrt (rx * rx + ry * ry) in
    (G * m * rx / Rmax (distance ^ 3) (softening ^ 3),
     G * m * ry / Rmax (distance ^ 3) (softening ^ 3)) in
  (forall others G softening (os : list (R * vec)),
     Forall2 (fun other mo =>
                exists o, objects h !! other = Some o /\
                          mass o = mo.1 /\
                          arrays h !! position o = Some mo.2)
             (filter (fun b => b ≠ self) others) os ->
     Body.compute_acceleration self others G softening h
     = Ok (foldr vadd (0, 0) (map (term G softening) os), h)) /\
  (forall G softening,
     Body.compute_acceleration self [] G softening h = Ok ((0, 0), h)) /\
  (forall others G softening,
     Body.compute_acceleration self (self :: others) G softening h
     = Body.compute_acceleration self others G softening h) /\
  (forall other o G softening,
     other ≠ self -> objects h !! other = Some o ->
     arrays h !! position o = Some sp ->
     Body.compute_acceleration self [other] G softening h
     = Ok (vadd (term G softening (mass o, sp)) (0, 0), h)) /\
  (forall u v : vec, vadd u v = (u.1 + v.1, u.2 + v.2)) /\
  Body.default_softening = 0.18.
Proof.
  intros Hme Hrk Hsp term. split_and!.
  - intros others G softening os Hos.
    apply (compute_acceleration_passive _ _ _ _ _ _ _ _ Hme Hrk Hsp).
    apply mapM_Some, Forall2_fmap_r.
    eapply Forall2_impl; [exact Hos|].
    intros other [m op] (o & Ho & Hm & Hop). simpl in Hm, Hop.
    unfold term_from. rewrite Ho, Hop, Hm. reflexivity.
  - intros. by apply (compute_acceleration_passive _ _ _ _ _ _ _ [] Hme Hrk Hsp).
  - intros. unfold Body.compute_acceleration.
    step_body Hme. rewrite Hrk; simpl.
    rewrite bool_decide_false by (intros Hx; by apply Hx).
    step_body Hme. by rewrite Hrk.
  - intros other o G softening Hne Ho Hop.
    rewrite (compute_acceleration_passive _ _ _ _ _ _ _
               [term G softening (mass o, sp)] Hme Hrk Hsp); [done|].
    rewrite filter_cons, decide_True by done.
    simpl. unfold term_from. rewrite Ho, Hop. reflexivity.
  - done.
  - done.
Qed.

Lemma C2_witness :
  Body.compute_acceleration 1%nat [0%nat; 1%nat] 1 Body.default_softening
    (scenario_heap 0.0001)
  = Ok (foldr vadd (0, 0)
          [(1 * 0.0001 * (0 - 0)
            / Rmax (sqrt ((0 - 0) * (0 - 0) + (1.2 - 0) * (1.2 - 0)) ^ 3)
                   (Body.default_softening ^ 3),
            1 * 0.0001 * (1.2 - 0)
            / Rmax (sqrt ((0 - 0) * (0 - 0) + (1.2 - 0) * (1.2 - 0)) ^ 3)
                   (Body.default_softening ^ 3))],
        scenario_heap 0.0001).
Proof.
  refine (proj1 (C2_passive_acceleration_is_gravity_sum
                   (scenario_heap 0.0001) 1%nat
                   (mkBody 1 2%nat (PyArr 3%nat) false 0 None []) (0, 0)
                   eq_refl eq_refl eq_refl)
                [0%nat; 1%nat] 1 Body.default_softening
                [(0.0001, (0, 1.2))] _).
  constructor; [|constructor].
  exists (mkBody 0.0001 0%nat (PyArr 1%nat) true 0 (Some 0) []).
  repeat split.
Defined.

(** C3: for the rocket, [compute_acceleration] ignores the other bodies, [G]
    and the softening altogether and returns the thrust vector
    [thrust * (-sin(heading), cos(heading))], heading in degrees; its
    magnitude is the thrust, and heading zero points up. *)
Theorem C3_rocket_acceleration_is_thrust h self me a others G softening :
  objects h !! self = Some me ->
  is_rocket me = true ->
  angle me = Some a ->
  0 <= thrust me ->
  Body.compute_acceleration self others G softening h
  = Ok (vscale (thrust me) (- sin (radians a), cos (radians a)), h) /\
  norm (vscale (thrust me) (- sin (radians a), cos (radians a))) = thrust me /\
  radians a = a * (PI / 180) /\
  (- sin (radians 0), cos (radians 0)) = (0, 1).
Proof.
  intros Hme Hrk Ha Ht. split_and!.
  - rewrite (compute_acceleration_thrust _ _ _ _ _ _ _ Hme Hrk Ha).
    do 2 f_equal. apply vec_eq; simpl; ring.
  - rewrite norm_vscale, norm_heading, Rabs_right; lra.
  - done.
  - unfold radians. rewrite Rmult_0_l, sin_0, cos_0. f_equal. lra.
Qed.

Lemma C3_witness :
  Body.compute_acceleration 3%nat [0; 1; 2]%nat 1 Body.default_softening
    (heap_of (generate empty_heap))
  = Ok (vscale 0.0001 (- sin (radians 0), cos (radians 0)),
        heap_of (generate empty_heap)).
Proof.
  apply (C3_rocket_acceleration_is_thrust (heap_of (generate empty_heap))
           3%nat (mkBody 0.0001 6%nat (PyArr 7%nat) true 0.0001 (Some 0) []) 0);
    [reflexivity | reflexivity | reflexivity | simpl; lra].
Defined.

(** C6: whatever the separation of two bodies, coincident positions
    included, the denominator [max(distance^3, softening^3)] is positive and
    the acceleration one body induces on the other has magnitude at most
    [G * mass / softening^2]. *)
Theorem C6_softened_gravity_is_bounded
  h self me sp other o op G softening :
  objects h !! self = Some me ->
  is_rocket me = false ->
  arrays h !! position me = Some sp ->
  other ≠ self ->
  objects h !! other = Some o ->
  arrays h !! position o = Some op ->
  0 <= G -> 0 <= mass o -> 0 < softening ->
  0 < Body.softened_cube (norm (vsub op sp)) softening /\
  exists a,
    Body.compute_acceleration self [other] G softening h = Ok (a, h) /\
    a = vdiv (vscale (G * mass o) (vsub op sp))
             (Body.softened_cube (norm (vsub op sp)) softening) /\
    norm a <= G * mass o / softening ^ 2.
Proof.
  intros Hme Hrk Hsp Hne Ho Hop HG Hm Hs. split.
  - by apply softened_cube_pos.
  - eexists. split_and!.
    + eapply compute_acceleration_passive; [done..|].
      rewrite filter_cons, decide_True by done.
      simpl. unfold term_from. rewrite Ho, Hop. reflexivity.
    + simpl. rewrite vadd_zero_r. reflexivity.
    + simpl. rewrite vadd_zero_r. by apply gravity_term_bound.
Qed.

Lemma C6_witness :
  0 < Body.softened_cube (norm (vsub (0, 1.2) (0, 0))) Body.default_softening.
Proof.
  eapply (C6_softened_gravity_is_bounded (scenario_heap 0.0001) 1%nat _ _
            0%nat _ _ 1 Body.default_softening);
    [reflexivity | reflexivity | reflexivity | lia | reflexivity | reflexivity
    | lra | simpl; lra | unfold Body.default_softening; lra].
Defined.

(** ** Well-formed heaps and the value-level view *)

Lemma wf_NoDup h bs : wf h bs -> NoDup bs.
Proof. by intros [? _]. Qed.

Lemma wf_body h bs b :
  wf h bs -> b ∈ bs ->
  exists o, objects h !! b = Some o /\
    Forall (fun l => (l < length (arrays h))%nat) (footprint o) /\
    is_Some (kind_of o) /\
    NoDup (live_locs o) /\
    Forall (fun l => l ∉ live_locs o) (position_history o).
Proof.
  intros (_ & Hok & _) Hb. rewrite Forall_forall in Hok.
  specialize (Hok b Hb). unfold body_ok in Hok.
  destruct (objects h !! b) as [o|]; [|done]. by exists o.
Qed.

Lemma wf_separate h bs b b' o o' :
  wf h bs -> b ∈ bs -> b' ∈ bs -> b ≠ b' ->
  objects h !! b = Some o -> objects h !! b' = Some o' ->
  Forall (fun l => l ∉ footprint o') (live_locs o).
Proof.
  intros (_ & _ & Hsep) Hb Hb' Hne Ho Ho'. rewrite Forall_forall in Hsep.
  specialize (Hsep b Hb). rewrite Forall_forall in Hsep.
  specialize (Hsep b' Hb' Hne). unfold separate in Hsep.
  by rewrite Ho, Ho' in Hsep.
Qed.

Lemma wf_intro h bs :
  NoDup bs ->
  (forall b, b ∈ bs -> body_ok h b) ->
  (forall b b', b ∈ bs -> b' ∈ bs -> b ≠ b' -> separate h b b') ->
  wf h bs.
Proof.
  intros Hnd Hok Hsep. split_and!; [done|..].
  - by apply Forall_forall.
  - apply Forall_forall. intros b Hb. apply Forall_forall. intros b' Hb'.
    by apply Hsep.
Qed.

(** Replacing the object of one body and growing the arrays keeps the heap
    well-formed, provided the new object refers to nothing it did not already
    refer to, except freshly allocated arrays. *)
Lemma wf_update h h' bs b o o' :
  wf h bs -> b ∈ bs -> objects h !! b = Some o ->
  objects h' = <[b := o']> (objects h) ->
  (length (arrays h) <= length (arrays h'))%nat ->
  Forall (fun l => (l < length (arrays h'))%nat) (footprint o') ->
  (forall l, l ∈ live_locs o' ->
             l ∈ live_locs o \/ (length (arrays h) <= l)%nat) ->
  (forall l, l ∈ footprint o' ->
             l ∈ footprint o \/ (length (arrays h) <= l)%nat) ->
  is_Some (kind_of o') ->
  NoDup (live_locs o') ->
  Forall (fun l => l ∉ live_locs o') (position_history o') ->
  wf h' bs.
Proof.
  intros Hwf Hb Ho Hobj Hlen Hvalid Hlive Hfoot Hkind Hnd Hhist.
  assert (Hlt : (b < length (objects h))%nat)
    by (apply lookup_lt_is_Some; eauto).
  apply wf_intro; [by eapply wf_NoDup|..].
  - intros b1 Hb1. unfold body_ok. rewrite Hobj.
    destruct (decide (b1 = b)) as [->|Hne].
    + rewrite list_lookup_insert_eq by done. done.
    + rewrite list_lookup_insert_ne by done.
      destruct (wf_body _ _ _ Hwf Hb1) as (o1 & -> & Hv1 & ? & ? & ?).
      split_and!; [|done..].
      eapply Forall_impl; [exact Hv1|]. simpl. intros; lia.
  - intros b1 b2 Hb1 Hb2 Hne. unfold separate. rewrite Hobj.
    destruct (wf_body _ _ _ Hwf Hb1) as (o1 & Ho1 & Hv1 & _).
    destruct (wf_body _ _ _ Hwf Hb2) as (o2 & Ho2 & Hv2 & _).
    rewrite Forall_forall in Hv1, Hv2.
    destruct (decide (b1 = b)) as [->|Hne1];
      [rewrite list_lookup_insert_eq by done
      |rewrite list_lookup_insert_ne by done; rewrite Ho1];
      (destruct (decide (b2 = b)) as [->|Hne2];
       [rewrite list_lookup_insert_eq by done
       |rewrite list_lookup_insert_ne by done; rewrite Ho2]).
    + done.
    + apply Forall_forall. intros l Hl Hl2.
      destruct (Hlive l Hl) as [Hold|Hfresh].
      * pose proof (wf_separate _ _ _ _ _ _ Hwf Hb Hb2 Hne Ho Ho2) as Hs.
        rewrite Forall_forall in Hs. by apply (Hs l).
      * specialize (Hv2 l Hl2). lia.
    + apply Forall_forall. intros l Hl Hl2.
      assert (Hl1 : l ∈ footprint o1)
        by (unfold footprint; apply elem_of_app; by left).
      destruct (Hfoot l Hl2) as [Hold|Hfresh].
      * pose proof (wf_separate _ _ _ _ _ _ Hwf Hb1 Hb Hne Ho1 Ho) as Hs.
        rewrite Forall_forall in Hs. by apply (Hs l).
      * specialize (Hv1 l Hl1). lia.
    + by apply (wf_separate _ _ _ _ _ _ Hwf Hb1 Hb2).
Qed.

Lemma snapshot_Some h b o p v k hs :
  objects h !! b = Some o ->
  arrays h !! position o = Some p ->
  velocity_value h o = Some v ->
  kind_of o = Some k ->
  mapM (fun l => arrays h !! l) (position_history o) = Some hs ->
  snapshot h b = Some (mkSnapshot (mass o) p v k hs).
Proof. unfold snapshot. by intros -> -> -> -> ->. Qed.

Lemma snapshot_inv h b s :
  snapshot h b = Some s ->
  exists o, objects h !! b = Some o /\
    mass o = s_mass s /\
    arrays h !! position o = Some (s_position s) /\
    velocity_value h o = Some (s_velocity s) /\
    kind_of o = Some (s_kind s) /\
    mapM (fun l => arrays h !! l) (position_history o) = Some (s_history s).
Proof.
  unfold snapshot. intros Hs.
  destruct (objects h !! b) as [o|]; [|done].
  destruct (arrays h !! position o) eqn:?; [|done].
  destruct (velocity_value h o) eqn:?; [|done].
  destruct (kind_of o) eqn:?; [|done].
  destruct (mapM _ _) eqn:?; [|done].
  injection Hs as <-. by exists o.
Qed.

(** The view of a body depends on its object and its own arrays only. *)
Lemma snapshot_agree h h' b o :
  objects h !! b = Some o -> objects h' !! b = Some o ->
  (forall l, l ∈ footprint o -> arrays h' !! l = arrays h !! l) ->
  snapshot h' b = snapshot h b.
Proof.
  intros Ho Ho' Hag. unfold snapshot. rewrite Ho, Ho'.
  rewrite (Hag (position o)) by (unfold footprint, live_locs; set_solver).
  replace (velocity_value h' o) with (velocity_value h o).
  2:{ unfold velocity_value. destruct (velocity o) as [|l] eqn:Hv; [done|].
      symmetry. apply Hag. unfold footprint, live_locs, velocity_locs.
      rewrite Hv. set_solver. }
  replace (mapM (fun l => arrays h' !! l) (position_history o))
    with (mapM (fun l => arrays h !! l) (position_history o)); [done|].
  apply Forall_mapM_ext, Forall_forall. intros l Hl. symmetry. apply Hag.
  unfold footprint. set_solver.
Qed.

Lemma wf_snapshot h bs b : wf h bs -> b ∈ bs -> is_Some (snapshot h b).
Proof.
  intros Hwf Hb.
  destruct (wf_body _ _ _ Hwf Hb) as (o & Ho & Hv & [k Hk] & _ & _).
  rewrite Forall_forall in Hv.
  destruct (lookup_lt_is_Some_2 (arrays h) (position o)) as [p Hp].
  { apply Hv. unfold footprint, live_locs. set_solver. }
  assert (Hvel : is_Some (velocity_value h o)).
  { unfold velocity_value. destruct (velocity o) as [|l] eqn:Hvl; [done|].
    apply lookup_lt_is_Some_2, Hv.
    unfold footprint, live_locs, velocity_locs. rewrite Hvl. set_solver. }
  destruct Hvel as [v Hvel].
  assert (Hhs : is_Some (mapM (fun l => arrays h !! l) (position_history o))).
  { apply mapM_is_Some, Forall_forall. intros l Hl. simpl.
    apply lookup_lt_is_Some_2, Hv. unfold footprint. set_solver. }
  destruct Hhs as [hs Hhs].
  by rewrite (snapshot_Some _ _ _ _ _ _ _ Ho Hp Hvel Hk Hhs).
Qed.

Lemma wf_snapshots h bs : wf h bs -> is_Some (snapshots h bs).
Proof.
  intros Hwf. apply mapM_is_Some, Forall_forall. intros b Hb.
  by eapply wf_snapshot.
Qed.

Lemma snapshots_lookup h bs ss i b :
  snapshots h bs = Some ss -> bs !! i = Some b ->
  exists s, ss !! i = Some s /\ snapshot h b = Some s.
Proof.
  intros Hss Hb. apply mapM_Some in Hss.
  destruct (Forall2_lookup_l _ _ _ _ _ Hss Hb) as (s & ? & ?). eauto.
Qed.

(** ** How heaps evolve *)

Lemma evolves_refl bs h : evolves bs h h.
Proof. split; [done|]. by intros. Qed.

Lemma evolves_trans bs h1 h2 h3 :
  evolves bs h1 h2 -> evolves bs h2 h3 -> evolves bs h1 h3.
Proof.
  intros [Hl12 H12] [Hl23 H23]. split; [lia|].
  intros l Hl Hnl. destruct (H12 l Hl Hnl) as [E12 Hnl2].
  destruct (H23 l) as [E23 Hnl3]; [lia | done |].
  split; [congruence | done].
Qed.

Lemma evolves_update h h' bs b o o' :
  b ∈ bs -> objects h !! b = Some o ->
  objects h' = <[b := o']> (objects h) ->
  (length (arrays h) <= length (arrays h'))%nat ->
  (forall l, (l < length (arrays h))%nat -> l ∉ live_locs o ->
             arrays h' !! l = arrays h !! l) ->
  (forall l, l ∈ live_locs o' ->
             l ∈ live_locs o \/ (length (arrays h) <= l)%nat) ->
  evolves bs h h'.
Proof.
  intros Hb Ho Hobj Hlen Hag Hlive.
  assert (Hlt : (b < length (objects h))%nat)
    by (apply lookup_lt_is_Some; eauto).
  split; [done|]. intros l Hl Hnl. split.
  - apply Hag; [done|]. by apply (Hnl b).
  - intros b1 o1 Hb1. rewrite Hobj.
    destruct (decide (b1 = b)) as [->|Hne].
    + rewrite list_lookup_insert_eq by done. intros [= <-] Hin.
      destruct (Hlive l Hin) as [Hold|Hfresh]; [|lia].
      by apply (Hnl b o).
    + rewrite list_lookup_insert_ne by done. by apply Hnl.
Qed.

(** The other bodies of a well-formed system do not notice. *)
Lemma snapshot_update_other h h' bs b o o' b' :
  wf h bs -> b ∈ bs -> b' ∈ bs -> b' ≠ b ->
  objects h !! b = Some o ->
  objects h' = <[b := o']> (objects h) ->
  (forall l, (l < length (arrays h))%nat -> l ∉ live_locs o ->
             arrays h' !! l = arrays h !! l) ->
  snapshot h' b' = snapshot h b'.
Proof.
  intros Hwf Hb Hb' Hne Ho Hobj Hag.
  destruct (wf_body _ _ _ Hwf Hb') as (o1 & Ho1 & Hv1 & _).
  rewrite Forall_forall in Hv1.
  apply (snapshot_agree h h' b' o1); [done | |].
  - by rewrite Hobj, list_lookup_insert_ne.
  - intros l Hl. apply Hag; [by apply Hv1|].
    intros Hin.
    pose proof (wf_separate _ _ _ _ _ _ Hwf Hb Hb' (not_eq_sym Hne) Ho Ho1)
      as Hs.
    rewrite Forall_forall in Hs. by apply (Hs l).
Qed.

(** ** Construction and the state vector (4.4) *)

Lemma extends_refl h : extends h h.
Proof. by split. Qed.

Lemma extends_trans h1 h2 h3 : extends h1 h2 -> extends h2 h3 -> extends h1 h3.
Proof. intros [??] [??]. split; by etrans. Qed.

Lemma body_init_ok m p v r h :
  Body.__init__ m p v r h
  = Ok (length (objects h),
        mkHeap (arrays h ++ [p; v])
               (objects h ++
                [mkBody m (length (arrays h)) (PyArr (S (length (arrays h)))) r
                        (if r then 0.0001 else 0)
                        (if r then Some 0 else None) []])).
Proof.
  unfold Body.__init__, bind, new_arr, new_body; simpl.
  rewrite length_app, <- app_assoc; simpl.
  by replace (length (arrays h) + 1)%nat with (S (length (arrays h))) by lia.
Qed.

(** A newly constructed body joins a well-formed system: its two arrays and
    its object are fresh. *)
Lemma wf_new_body h bs m p v r :
  wf h bs ->
  wf (mkHeap (arrays h ++ [p; v])
        (objects h ++
         [mkBody m (length (arrays h)) (PyArr (S (length (arrays h)))) r
                 (if r then 0.0001 else 0)
                 (if r then Some 0 else None) []]))
     (bs ++ [length (objects h)]).
Proof.
  intros Hwf.
  set (o := mkBody _ _ _ _ _ _ _). set (h' := mkHeap _ _).
  assert (Hold : forall b, b ∈ bs ->
            exists o1, objects h !! b = Some o1 /\ objects h' !! b = Some o1 /\
              Forall (fun l => (l < length (arrays h))%nat) (footprint o1)).
  { intros b Hb. destruct (wf_body _ _ _ Hwf Hb) as (o1 & Ho1 & Hv & _).
    exists o1. split_and!; [done | | done].
    unfold h'; simpl. by apply lookup_app_l_Some. }
  assert (Hnew : objects h' !! length (objects h) = Some o).
  { unfold h'; simpl. by rewrite lookup_app_r, Nat.sub_diag by lia. }
  assert (Hfresh : length (objects h) ∉ bs).
  { intros Hin. destruct (Hold _ Hin) as (o1 & Ho1 & _).
    apply lookup_lt_Some in Ho1. lia. }
  assert (Hfoot : footprint o = [length (arrays h); S (length (arrays h))])
    by done.
  assert (Hlive : live_locs o = [length (arrays h); S (length (arrays h))])
    by done.
  apply wf_intro.
  - apply NoDup_app. split_and!; [by eapply wf_NoDup | | apply NoDup_singleton].
    intros b Hb ->%list_elem_of_singleton. done.
  - intros b [Hb| ->%list_elem_of_singleton]%elem_of_app; unfold body_ok.
    + destruct (Hold b Hb) as (o1 & Ho1 & -> & Hv).
      destruct (wf_body _ _ _ Hwf Hb) as (o2 & Ho2 & _ & ? & ? & ?).
      assert (o2 = o1) as -> by congruence.
      split_and!; [|done..].
      eapply Forall_impl; [exact Hv|]. unfold h'; simpl.
      intros l Hl. rewrite length_app. lia.
    + rewrite Hnew. split_and!.
      * rewrite Hfoot. unfold h'; simpl. rewrite length_app; simpl.
        repeat constructor; lia.
      * unfold kind_of, o; simpl. by destruct r.
      * rewrite Hlive. apply NoDup_cons. split; [|apply NoDup_singleton].
        intros ?%list_elem_of_singleton. lia.
      * by apply Forall_nil.
  - intros b1 b2 [Hb1| ->%list_elem_of_singleton]%elem_of_app
             [Hb2| ->%list_elem_of_singleton]%elem_of_app Hne;
      unfold separate.
    + destruct (Hold b1 Hb1) as (o1 & Ho1 & -> & _).
      destruct (Hold b2 Hb2) as (o2 & Ho2 & -> & _).
      by apply (wf_separate _ _ _ _ _ _ Hwf Hb1 Hb2).
    + destruct (Hold b1 Hb1) as (o1 & Ho1 & -> & Hv1). rewrite Hnew.
      rewrite Forall_forall in Hv1. apply Forall_forall. intros l Hl.
      assert (l < length (arrays h))%nat.
      { apply Hv1. unfold footprint. apply elem_of_app. by left. }
      rewrite Hfoot. intros [->|[->|[]%elem_of_nil]%elem_of_cons]%elem_of_cons;
        lia.
    + destruct (Hold b2 Hb2) as (o2 & Ho2 & -> & Hv2). rewrite Hnew.
      rewrite Forall_forall in Hv2. apply Forall_forall. intros l Hl Hl2.
      specialize (Hv2 l Hl2). rewrite Hlive in Hl.
      apply elem_of_cons in Hl as [->|[->|[]%elem_of_nil]%elem_of_cons]; lia.
    + done.
Qed.

Lemma wf_nil h : wf h [].
Proof. split_and!; constructor. Qed.

(** What [Body.get_state] reads, and that it survives allocation. *)
Lemma body_get_state_ok h b o p l v :
  objects h !! b = Some o ->
  arrays h !! position o = Some p ->
  velocity o = PyArr l ->
  arrays h !! l = Some v ->
  Body.get_state b h = Ok ([p.1; p.2; v.1; v.2], h).
Proof.
  intros Ho Hp Hv Hl. unfold Body.get_state.
  step_body Ho. step_read Hp. rewrite Hv. by step_read Hl.
Qed.

Lemma body_get_state_extends h h' b q :
  extends h h' ->
  Body.get_state b h = Ok (q, h) ->
  Body.get_state b h' = Ok (q, h').
Proof.
  intros [Ha Ho]. unfold Body.get_state, bind, get_body, read_arr. cbv beta.
  destruct (objects h !! b) as [o|] eqn:Hb; [|done].
  rewrite (prefix_lookup_Some _ _ _ _ Hb Ho).
  destruct (arrays h !! position o) as [p|] eqn:Hp; [|done].
  rewrite (prefix_lookup_Some _ _ _ _ Hp Ha).
  destruct (velocity o) as [x|l]; [done|].
  destruct (arrays h !! l) as [v|] eqn:Hl; [|done].
  rewrite (prefix_lookup_Some _ _ _ _ Hl Ha).
  unfold ret. congruence.
Qed.

Lemma extend_ok h bs qs acc :
  Forall2 (fun b q => Body.get_state b h = Ok (q, h)) bs qs ->
  System.extend bs acc h = Ok (acc ++ concat qs, h).
Proof.
  intros Hall. revert acc.
  induction Hall as [|b q bs qs Hq _ IH]; intros acc; simpl.
  - by rewrite app_nil_r.
  - step_with Hq. by rewrite IH, app_assoc.
Qed.

Lemma take_4_drop (st : list R) n x y vx vy :
  st !! (0 + n)%nat = Some x -> st !! (1 + n)%nat = Some y ->
  st !! (2 + n)%nat = Some vx -> st !! (3 + n)%nat = Some vy ->
  take 4 (drop n st) = [x; y; vx; vy].
Proof.
  simpl. intros H0 H1 H2 H3.
  rewrite (drop_S _ _ _ H0), (drop_S _ _ _ H1), (drop_S _ _ _ H2),
    (drop_S _ _ _ H3).
  done.
Qed.

Lemma concat_quadruples (st : list R) k i :
  concat (map (fun j => take 4 (drop (j * 4) st)) (seq i k))
  = take (k * 4) (drop (i * 4) st).
Proof.
  revert i. induction k as [|k IH]; intros i; [done|].
  cbn [seq map concat]. rewrite IH.
  replace (S i * 4)%nat with (i * 4 + 4)%nat by lia.
  rewrite <- (drop_drop st 4 (i * 4)).
  by rewrite (take_take_drop _ 4 (k * 4)).
Qed.

(** The construction loop of [System.__init__]: one unit-mass passive body
    per complete quadruple, whose state is that quadruple. *)
Lemma init_loop (st : list R) k i h :
  ((i + k) * 4 <= length st)%nat ->
  exists bs h',
    collect (seq i k) (fun body =>
      let n := (body * 4)%nat in
      let! x := index st (0 + n) in
      let! y := index st (1 + n) in
      let! vx := index st (2 + n) in
      let! vy := index st (3 + n) in
      Body.__init__ 1 (x, y) (vx, vy) false) h = Ok (bs, h') /\
    extends h h' /\
    (forall bs0, wf h bs0 -> wf h' (bs0 ++ bs)) /\
    Forall2 (fun b j =>
               Body.get_state b h' = Ok (take 4 (drop (j * 4) st), h') /\
               exists o, objects h' !! b = Some o /\ mass o = 1 /\
                         is_rocket o = false /\ position_history o = [])
            bs (seq i k).
Proof.
  revert i h. induction k as [|k IH]; intros i h Hlen.
  - exists [], h. split_and!; [done | apply extends_refl | | constructor].
    intros bs0 Hwf. by rewrite app_nil_r.
  - cbn [seq collect].
    destruct (lookup_lt_is_Some_2 st (0 + i * 4)) as [x Hx]; [lia|].
    destruct (lookup_lt_is_Some_2 st (1 + i * 4)) as [y Hy]; [lia|].
    destruct (lookup_lt_is_Some_2 st (2 + i * 4)) as [vx Hvx]; [lia|].
    destruct (lookup_lt_is_Some_2 st (3 + i * 4)) as [vy Hvy]; [lia|].
    cbv beta zeta. rewrite !bind_assoc.
    step_with (index_ok _ _ _ h Hx). step_with (index_ok _ _ _ h Hy).
    step_with (index_ok _ _ _ h Hvx). step_with (index_ok _ _ _ h Hvy).
    step_with (body_init_ok 1 (x, y) (vx, vy) false h).
    set (h1 := mkHeap _ _).
    destruct (IH (S i) h1) as (bs & h' & Hrun & Hext & Hwf' & Hall); [lia|].
    step_with Hrun.
    assert (Hext1 : extends h h1) by (split; simpl; by apply prefix_app_r).
    exists (length (objects h) :: bs), h'. split_and!.
    + done.
    + by eapply extends_trans.
    + intros bs0 Hwf0. rewrite (cons_middle _ bs0 bs), app_assoc.
      apply Hwf'. by apply wf_new_body.
    + constructor; [|done]. split.
      * apply (body_get_state_extends h1); [done|].
        rewrite (take_4_drop _ _ _ _ _ _ Hx Hy Hvx Hvy).
        eapply (body_get_state_ok h1 _ _ (x, y) _ (vx, vy)); unfold h1; simpl.
        -- by rewrite lookup_app_r, Nat.sub_diag by lia.
        -- simpl. by rewrite lookup_app_r, Nat.sub_diag by lia.
        -- done.
        -- rewrite lookup_app_r by lia.
           by replace (S (length (arrays h)) - length (arrays h))%nat
             with 1%nat by lia.
      * eexists. split.
        { apply (prefix_lookup_Some (objects h1)); [|apply Hext].
          unfold h1; simpl. by rewrite lookup_app_r, Nat.sub_diag by lia. }
        done.
Qed.

(** Constructing from any state vector succeeds: the system has one body per
    complete quadruple and its state is the vector cut to whole
    quadruples. *)
Lemma init_from_state G (st : list R) bodies0 h :
  exists bs h',
    System.__init__ G (Some st) bodies0 h = Ok (mkSystem G (Some bs), h') /\
    wf h' bs /\
    length bs = (length st / 4)%nat /\
    Forall (fun b => exists o, objects h' !! b = Some o /\ mass o = 1 /\
                               is_rocket o = false /\ position_history o = [])
           bs /\
    System.get_state (mkSystem G (Some bs)) h'
    = Ok (take (length st / 4 * 4) st, h').
Proof.
  destruct (init_loop st (length st / 4) 0 h)
    as (bs & h' & Hrun & _ & Hwf & Hall).
  { pose proof (Nat.Div0.mul_div_le (length st) 4). lia. }
  exists bs, h'. unfold System.__init__. step_with Hrun. split_and!.
  - done.
  - apply (Hwf [] (wf_nil h)).
  - apply Forall2_length in Hall. by rewrite length_seq in Hall.
  - clear Hrun Hwf. induction Hall as [|???? [_ ?]]; by constructor.
  - unfold System.get_state.
    step_with (the_bodies_ok (mkSystem G (Some bs)) bs h' eq_refl).
    rewrite (extend_ok h' bs
               (map (fun j => take 4 (drop (j * 4) st)) (seq 0 (length st / 4)))).
    + by rewrite concat_quadruples.
    + clear Hrun Hwf. apply Forall2_fmap_r.
      induction Hall as [|???? [? _]]; by constructor.
Qed.

(** C5: a system built from a flat state vector whose length is a multiple
    of 4 is well-formed and has one unit-mass passive body per quadruple, and
    [get_state] called right after the construction returns the very same
    vector. *)
Theorem C5_state_round_trip G (st : list R) h :
  (length st mod 4 = 0)%nat ->
  exists bs h',
    System.__init__ G (Some st) None h = Ok (mkSystem G (Some bs), h') /\
    wf h' bs /\
    length bs = (length st / 4)%nat /\
    Forall (fun b => exists o, objects h' !! b = Some o /\ mass o = 1 /\
                               is_rocket o = false) bs /\
    System.get_state (mkSystem G (Some bs)) h' = Ok (st, h').
Proof.
  intros Hmod.
  destruct (init_from_state G st None h)
    as (bs & h' & Hrun & Hwf & Hlen & Hall & Hst).
  exists bs, h'. split_and!; [done..| |].
  - eapply Forall_impl; [exact Hall|]. intros b (o & ? & ? & ? & _). eauto.
  - rewrite Hst. rewrite take_ge; [done|].
    pose proof (Nat.div_mod_eq (length st) 4). lia.
Qed.

Lemma C5_witness :
  exists bs h',
    System.__init__ 1 (Some [0; 0; 1; 0; 2; 0; 0; 1]) None empty_heap
    = Ok (mkSystem 1 (Some bs), h') /\
    wf h' bs /\
    length bs = 2%nat /\
    Forall (fun b => exists o, objects h' !! b = Some o /\ mass o = 1 /\
                               is_rocket o = false) bs /\
    System.get_state (mkSystem 1 (Some bs)) h'
    = Ok ([0; 0; 1; 0; 2; 0; 0; 1], h').
Proof.
  apply (C5_state_round_trip 1 [0; 0; 1; 0; 2; 0; 0; 1] empty_heap).
  reflexivity.
Defined.

(** ** Statements that act on one body *)

Lemma write_arr_ok h l x v :
  arrays h !! l = Some x ->
  write_arr l v h = Ok (tt, mkHeap (<[l := v]> (arrays h)) (objects h)).
Proof. unfold write_arr. by intros ->. Qed.

Lemma modify_ok h b o f :
  objects h !! b = Some o ->
  modify b f h = Ok (tt, mkHeap (arrays h) (<[b := f o]> (objects h))).
Proof. unfold modify. by intros ->. Qed.

Lemma only_changes_refl bs b h :
  wf h bs -> only_changes bs b h h (snapshot h b).
Proof. intros. split_and!; [done | done | done | apply evolves_refl]. Qed.

Lemma acts_on_ret bs b : acts_on bs b (ret tt) (fun s => s).
Proof.
  intros h Hwf. exists h. split; [done|].
  replace ((fun s => s) <$> snapshot h b) with (snapshot h b)
    by (by destruct (snapshot h b)).
  by apply only_changes_refl.
Qed.

Lemma acts_on_bind bs b m1 m2 T1 T2 :
  acts_on bs b m1 T1 -> acts_on bs b m2 T2 ->
  acts_on bs b (let! _ := m1 in m2) (T2 ∘ T1).
Proof.
  intros H1 H2 h Hwf.
  destruct (H1 h Hwf) as (h1 & Hr1 & Hwf1 & Hs1 & Ho1 & He1).
  destruct (H2 h1 Hwf1) as (h2 & Hr2 & Hwf2 & Hs2 & Ho2 & He2).
  exists h2. split; [by step_with Hr1|]. split_and!.
  - done.
  - rewrite Hs2, Hs1. by rewrite <- option_fmap_compose.
  - intros b' Hb' Hne. rewrite Ho2, Ho1 by done. done.
  - by eapply evolves_trans.
Qed.

Lemma acts_on_ext bs b m T T' :
  (forall s, T s = T' s) -> acts_on bs b m T -> acts_on bs b m T'.
Proof.
  intros HT Hm h Hwf. destruct (Hm h Hwf) as (h' & ? & ? & Hs & ? & ?).
  exists h'. split; [done|]. split_and!; [done | | done | done].
  rewrite Hs. destruct (snapshot h b); simpl; by rewrite ?HT.
Qed.

Lemma mapM_lookup_agree (arrs arrs' : list vec) (ls : list nat) :
  (forall l, l ∈ ls -> arrs' !! l = arrs !! l) ->
  mapM (fun l => arrs' !! l) ls = mapM (fun l => arrs !! l) ls.
Proof. intros H. apply Forall_mapM_ext, Forall_forall. exact H. Qed.

(** Old arrays are still there after an allocation. *)
Lemma lookup_alloc (arrs : list vec) x l :
  (l < length arrs)%nat -> (arrs ++ [x]) !! l = arrs !! l.
Proof. intros. by apply lookup_app_l. Qed.

Lemma load_ok h o v :
  velocity_value h o = Some v ->
  exists n, load (velocity o) h = Ok (n, h) /\ broadcast n = v.
Proof.
  unfold velocity_value, load. destruct (velocity o) as [x|l].
  - intros [= <-]. by exists (Num x).
  - intros Hl. exists (Arr v). by step_read Hl.
Qed.

Lemma nd_add_mul n c u :
  nd_add (nd_mul n c) u = vadd (vscale_r (broadcast n) c) u.
Proof. by destruct n. Qed.

Lemma nd_add_broadcast n u : nd_add n u = vadd (broadcast n) u.
Proof. by destruct n. Qed.

(** The heap [h] is well-formed for the system [bs], and [b], one of its
    bodies, is the object [o] and looks like [s]. *)
Section one_body.

Variables (h : heap) (bs : list nat) (b : nat) (o : Body) (s : Snapshot).
Hypothesis Hwf : wf h bs.
Hypothesis Hb : b ∈ bs.
Hypothesis Ho : objects h !! b = Some o.
Hypothesis Hs : snapshot h b = Some s.

Lemma own_valid l : l ∈ footprint o -> (l < length (arrays h))%nat.
Proof.
  destruct (wf_body _ _ _ Hwf Hb) as (o1 & Ho1 & Hv & _).
  assert (o1 = o) as -> by congruence.
  rewrite Forall_forall in Hv. apply Hv.
Qed.

Lemma own_live_valid l : l ∈ live_locs o -> (l < length (arrays h))%nat.
Proof.
  intros Hl. apply own_valid. unfold footprint. apply elem_of_app. by left.
Qed.

Lemma own_history_valid l :
  l ∈ position_history o -> (l < length (arrays h))%nat.
Proof.
  intros Hl. apply own_valid. unfold footprint. apply elem_of_app. by right.
Qed.

Lemma own_live_NoDup : NoDup (live_locs o).
Proof.
  destruct (wf_body _ _ _ Hwf Hb) as (o1 & Ho1 & _ & _ & Hnd & _).
  by assert (o1 = o) as -> by congruence.
Qed.

Lemma own_history_apart l : l ∈ position_history o -> l ∉ live_locs o.
Proof.
  destruct (wf_body _ _ _ Hwf Hb) as (o1 & Ho1 & _ & _ & _ & Hdisj).
  assert (o1 = o) as -> by congruence.
  rewrite Forall_forall in Hdisj. apply Hdisj.
Qed.

Lemma own_index : (b < length (objects h))%nat.
Proof. apply lookup_lt_is_Some. eauto. Qed.

Lemma own_view :
  s_mass s = mass o /\
  arrays h !! position o = Some (s_position s) /\
  velocity_value h o = Some (s_velocity s) /\
  kind_of o = Some (s_kind s) /\
  mapM (fun l => arrays h !! l) (position_history o) = Some (s_history s).
Proof.
  destruct (snapshot_inv _ _ _ Hs) as (o1 & Ho1 & ? & ? & ? & ? & ?).
  by assert (o1 = o) as -> by congruence.
Qed.

(** All that has to be checked when the object of [b] is replaced by [o']
    and arrays are written or allocated: the arrays that [b] could not
    write to are as before, and [o'] refers to nothing that [o] did not
    already refer to, except newly allocated arrays. *)
Lemma update_changes h' o' s' :
  objects h' = <[b := o']> (objects h) ->
  (length (arrays h) <= length (arrays h'))%nat ->
  (forall l, (l < length (arrays h))%nat -> l ∉ live_locs o ->
             arrays h' !! l = arrays h !! l) ->
  Forall (fun l => (l < length (arrays h'))%nat) (footprint o') ->
  (forall l, l ∈ live_locs o' ->
             l ∈ live_locs o \/ (length (arrays h) <= l)%nat) ->
  (forall l, l ∈ position_history o' ->
             l ∈ position_history o \/ (length (arrays h) <= l)%nat) ->
  is_Some (kind_of o') ->
  NoDup (live_locs o') ->
  Forall (fun l => l ∉ live_locs o') (position_history o') ->
  snapshot h' b = Some s' ->
  only_changes bs b h h' (Some s').
Proof.
  intros Hobj Hlen Hag Hvalid Hlive Hhist Hkind Hnd Hdisj Hs'.
  split_and!.
  - eapply (wf_update h h' bs b o o'); try done.
    intros l [Hl|Hl]%elem_of_app.
    + destruct (Hlive l Hl); [left|by right].
      unfold footprint. apply elem_of_app. by left.
    + destruct (Hhist l Hl); [left|by right].
      unfold footprint. apply elem_of_app. by right.
  - done.
  - intros b' Hb' Hne.
    by eapply (snapshot_update_other h h' bs b o o' b').
  - by eapply (evolves_update h h' bs b o o').
Qed.

(** [body.position += ...]: an in-place write to the position array. *)
Lemma write_position_changes x :
  only_changes bs b h
    (mkHeap (<[position o := x]> (arrays h)) (objects h))
    (Some (with_position s x)).
Proof.
  destruct own_view as (Hm & Hp & Hvel & Hkind & Hhs).
  apply (update_changes _ o); simpl.
  - symmetry. by apply list_insert_id.
  - by rewrite length_insert.
  - intros l Hl Hnl. apply list_lookup_insert_ne.
    intros <-. apply Hnl. apply elem_of_cons. by left.
  - rewrite length_insert. apply Forall_forall, own_valid.
  - by left.
  - by left.
  - by rewrite Hkind.
  - apply own_live_NoDup.
  - apply Forall_forall, own_history_apart.
  - unfold with_position, with_velocity. rewrite Hm.
    apply (snapshot_Some _ b o); simpl; [done | | | done |].
    + apply list_lookup_insert_eq, own_live_valid, elem_of_cons. by left.
    + unfold velocity_value in *; simpl.
      destruct (velocity o) as [|l] eqn:Hvl; [done|].
      rewrite list_lookup_insert_ne; [done|].
      intros E. pose proof own_live_NoDup as Hnd.
      unfold live_locs, velocity_locs in Hnd. rewrite Hvl, E in Hnd.
      apply NoDup_cons in Hnd as [Hn _]. apply Hn, elem_of_cons. by left.
    + rewrite <- Hhs. apply mapM_lookup_agree. intros l Hl.
      apply list_lookup_insert_ne. intros <-.
      apply (own_history_apart _ Hl), elem_of_cons. by left.
Qed.

(** [body.velocity += d] on an array: an in-place write. *)
Lemma write_velocity_changes l x :
  velocity o = PyArr l ->
  only_changes bs b h
    (mkHeap (<[l := x]> (arrays h)) (objects h))
    (Some (with_velocity s x)).
Proof.
  intros Hvl. destruct own_view as (Hm & Hp & Hvel & Hkind & Hhs).
  assert (Hlive : live_locs o = [position o; l])
    by (unfold live_locs, velocity_locs; by rewrite Hvl).
  assert (Hin : l ∈ live_locs o)
    by (rewrite Hlive; apply elem_of_cons; right; by apply elem_of_cons; left).
  apply (update_changes _ o); simpl.
  - symmetry. by apply list_insert_id.
  - by rewrite length_insert.
  - intros l' Hl' Hnl. apply list_lookup_insert_ne. by intros <-.
  - rewrite length_insert. apply Forall_forall, own_valid.
  - by left.
  - by left.
  - by rewrite Hkind.
  - apply own_live_NoDup.
  - apply Forall_forall, own_history_apart.
  - unfold with_position, with_velocity. rewrite Hm.
    apply (snapshot_Some _ b o); simpl; [done | | | done |].
    + rewrite list_lookup_insert_ne; [done|].
      intros E. pose proof own_live_NoDup as Hnd. rewrite Hlive, E in Hnd.
      apply NoDup_cons in Hnd as [Hn _]. apply Hn, elem_of_cons. by left.
    + unfold velocity_value. rewrite Hvl.
      by apply list_lookup_insert_eq, own_live_valid.
    + rewrite <- Hhs. apply mapM_lookup_agree. intros l' Hl'.
      apply list_lookup_insert_ne. intros <-.
      by apply (own_history_apart _ Hl').
Qed.

(** [body.velocity += d] on a number: the attribute is bound to a new
    array. *)
Lemma rebind_velocity_changes y x :
  velocity o = PyScalar y ->
  only_changes bs b h
    (mkHeap (arrays h ++ [x])
       (<[b := set_velocity o (PyArr (length (arrays h)))]> (objects h)))
    (Some (with_velocity s x)).
Proof.
  intros Hvl. destruct own_view as (Hm & Hp & Hvel & Hkind & Hhs).
  assert (Hlive : live_locs o = [position o])
    by (unfold live_locs, velocity_locs; by rewrite Hvl).
  assert (Hpl : (position o < length (arrays h))%nat)
    by (apply own_live_valid, elem_of_cons; by left).
  set (o' := set_velocity o (PyArr (length (arrays h)))).
  assert (Hlive' : live_locs o' = [position o; length (arrays h)]) by done.
  apply (update_changes _ o'); simpl.
  - done.
  - rewrite length_app. lia.
  - intros l Hl _. by apply lookup_alloc.
  - rewrite length_app. simpl. apply Forall_forall.
    intros l [Hl|Hl]%elem_of_app.
    + rewrite Hlive' in Hl.
      apply elem_of_cons in Hl as [->|Hl]; [lia|].
      apply list_elem_of_singleton in Hl. lia.
    + apply own_history_valid in Hl. lia.
  - intros l Hl. rewrite Hlive' in Hl. rewrite Hlive.
    apply elem_of_cons in Hl as [->|Hl];
      [left; by apply list_elem_of_singleton|].
    apply list_elem_of_singleton in Hl. right. lia.
  - intros l Hl. by left.
  - change (kind_of o') with (kind_of o). by rewrite Hkind.
  - rewrite Hlive'. apply NoDup_cons. split; [|apply NoDup_singleton].
    intros Hin%list_elem_of_singleton. lia.
  - apply Forall_forall. intros l Hl. rewrite Hlive'.
    pose proof (own_history_apart _ Hl) as Hn. rewrite Hlive in Hn.
    pose proof (own_history_valid _ Hl).
    intros [->|Hin%list_elem_of_singleton]%elem_of_cons; [|lia].
    by apply Hn, list_elem_of_singleton.
  - unfold with_velocity, with_history. rewrite Hm.
    apply (snapshot_Some _ b o'); simpl; [| | |done|].
    + apply list_lookup_insert_eq, own_index.
    + by rewrite lookup_alloc.
    + unfold velocity_value; simpl.
      by rewrite lookup_app_r, Nat.sub_diag by lia.
    + rewrite <- Hhs. apply mapM_lookup_agree. intros l Hl.
      by apply lookup_alloc, own_history_valid.
Qed.

(** [body.position_history.append(body.position.copy())]: the copy is a
    new array. *)
Lemma append_history_changes :
  only_changes bs b h
    (mkHeap (arrays h ++ [s_position s])
       (<[b := set_position_history o
                 (position_history o ++ [length (arrays h)])]> (objects h)))
    (Some (with_history s (s_history s ++ [s_position s]))).
Proof.
  destruct own_view as (Hm & Hp & Hvel & Hkind & Hhs).
  set (o' := set_position_history o
               (position_history o ++ [length (arrays h)])).
  assert (Hlive' : live_locs o' = live_locs o) by done.
  apply (update_changes _ o'); simpl.
  - done.
  - rewrite length_app. lia.
  - intros l Hl _. by apply lookup_alloc.
  - rewrite length_app. simpl. apply Forall_forall.
    intros l Hl. unfold footprint in Hl.
    apply elem_of_app in Hl as [Hl|Hl];
      [rewrite Hlive' in Hl; apply own_live_valid in Hl; lia|].
    simpl in Hl. apply elem_of_app in Hl as [Hl|Hl].
    + apply own_history_valid in Hl. lia.
    + apply list_elem_of_singleton in Hl. lia.
  - intros l Hl. left. by rewrite <- Hlive'.
  - intros l [Hl|Hl]%elem_of_app; [by left|].
    apply list_elem_of_singleton in Hl. right. lia.
  - change (kind_of o') with (kind_of o). by rewrite Hkind.
  - rewrite Hlive'. apply own_live_NoDup.
  - rewrite Hlive'. apply Forall_forall.
    intros l [Hl|Hl]%elem_of_app; [by apply own_history_apart|].
    apply list_elem_of_singleton in Hl. intros Hin%own_live_valid. lia.
  - unfold with_velocity, with_history. rewrite Hm.
    apply (snapshot_Some _ b o'); simpl; [| | |done|].
    + apply list_lookup_insert_eq, own_index.
    + rewrite lookup_alloc; [done|].
      apply own_live_valid, elem_of_cons. by left.
    + unfold velocity_value in *; simpl.
      destruct (velocity o) as [|l] eqn:Hvl; [done|].
      rewrite lookup_alloc; [done|]. apply own_live_valid.
      unfold live_locs, velocity_locs. rewrite Hvl.
      apply elem_of_cons. right. by apply list_elem_of_singleton.
    + apply mapM_Some. apply mapM_Some in Hhs. apply Forall2_app.
      * eapply Forall2_impl; [exact Hhs|]. simpl. intros l x Hl.
        rewrite lookup_alloc; [done|]. apply lookup_lt_is_Some. eauto.
      * constructor; [|constructor].
        by rewrite lookup_app_r, Nat.sub_diag by lia.
Qed.

(** Changes to the object that leave the arrays alone: the oldest history
    entry may go, the velocity array may be dropped for a number, the
    thrust and the heading may change. *)
Lemma modify_changes o' s' :
  position o' = position o ->
  (forall l, l ∈ velocity_locs o' -> l ∈ velocity_locs o) ->
  (forall l, l ∈ position_history o' -> l ∈ position_history o) ->
  is_Some (kind_of o') ->
  snapshot (mkHeap (arrays h) (<[b := o']> (objects h))) b = Some s' ->
  only_changes bs b h (mkHeap (arrays h) (<[b := o']> (objects h)))
               (Some s').
Proof.
  intros Hpos Hvl Hhist Hkind Hs'.
  assert (Hlive : forall l, l ∈ live_locs o' -> l ∈ live_locs o).
  { intros l. unfold live_locs. rewrite Hpos.
    intros [->|Hl]%elem_of_cons; apply elem_of_cons;
      [by left | right; by apply Hvl]. }
  apply (update_changes _ o'); simpl; try done.
  - apply Forall_forall. intros l [Hl|Hl]%elem_of_app.
    + by apply own_live_valid, Hlive.
    + by apply own_history_valid, Hhist.
  - intros l Hl. left. by apply Hlive.
  - intros l Hl. left. by apply Hhist.
  - unfold live_locs. rewrite Hpos. apply NoDup_cons. split.
    + intros Hin%Hvl. pose proof own_live_NoDup as Hnd.
      unfold live_locs in Hnd. by apply NoDup_cons in Hnd as [Hn _].
    + unfold velocity_locs.
      destruct (velocity o'); [apply NoDup_nil_2 | apply NoDup_singleton].
  - apply Forall_forall. intros l Hl Hin.
    apply (own_history_apart l); [by apply Hhist | by apply Hlive].
Qed.

End one_body.

(** ** The statements of [integrate] *)

Lemma update_position_acts bs b accs dt i a :
  b ∈ bs -> accs !! i = Some a ->
  acts_on bs b (System.update_position accs dt (i, b))
          (fun s => move dt s a).
Proof.
  intros Hb Ha h Hwf.
  destruct (wf_snapshot _ _ _ Hwf Hb) as [s Hs].
  destruct (snapshot_inv _ _ _ Hs) as (o & Ho & Hm & Hp & Hvel & Hkind & Hhs).
  destruct (load_ok _ _ _ Hvel) as (n & Hload & Hn).
  eexists. split.
  - unfold System.update_position; simpl.
    step_body Ho. step_read Hp. step_with Hload.
    step_with (index_ok _ _ _ h Ha).
    apply (write_arr_ok _ _ _ _ Hp).
  - rewrite Hs. simpl. unfold move. rewrite nd_add_mul, Hn.
    exact (write_position_changes h bs b o s Hwf Hb Ho Hs _).
Qed.

Lemma add_to_velocity_acts bs b d :
  b ∈ bs ->
  acts_on bs b (System.add_to_velocity b d)
          (fun s => with_velocity s (vadd (s_velocity s) d)).
Proof.
  intros Hb h Hwf.
  destruct (wf_snapshot _ _ _ Hwf Hb) as [s Hs].
  destruct (snapshot_inv _ _ _ Hs) as (o & Ho & Hm & Hp & Hvel & Hkind & Hhs).
  destruct (load_ok _ _ _ Hvel) as (n & Hload & Hn).
  rewrite Hs. simpl. rewrite <- Hn, <- nd_add_broadcast.
  destruct (velocity o) as [y|l] eqn:Hvl.
  - eexists. split.
    + unfold System.add_to_velocity. step_body Ho. rewrite Hvl.
      step_with Hload. unfold bind at 1, new_arr at 1.
      apply (modify_ok (mkHeap _ _) _ _ _ Ho).
    + exact (rebind_velocity_changes h bs b o s Hwf Hb Ho Hs y _ Hvl).
  - eexists. split.
    + unfold System.add_to_velocity. step_body Ho. rewrite Hvl.
      step_with Hload. unfold velocity_value in Hvel. rewrite Hvl in Hvel.
      apply (write_arr_ok _ _ _ _ Hvel).
    + exact (write_velocity_changes h bs b o s Hwf Hb Ho Hs l _ Hvl).
Qed.

Lemma append_position_acts bs b :
  b ∈ bs ->
  acts_on bs b (System.append_position b)
          (fun s => with_history s (s_history s ++ [s_position s])).
Proof.
  intros Hb h Hwf.
  destruct (wf_snapshot _ _ _ Hwf Hb) as [s Hs].
  destruct (snapshot_inv _ _ _ Hs) as (o & Ho & Hm & Hp & Hvel & Hkind & Hhs).
  eexists. split.
  - unfold System.append_position. step_body Ho. step_read Hp.
    unfold bind at 1, new_arr at 1.
    apply (modify_ok (mkHeap _ _) _ _ _ Ho).
  - rewrite Hs. exact (append_history_changes h bs b o s Hwf Hb Ho Hs).
Qed.

Lemma limit_trail_acts bs b :
  b ∈ bs ->
  acts_on bs b (System.limit_trail b)
    (fun s => with_history s
       (if (System.trail_limit <? Z.of_nat (length (s_history s)))%Z
        then tail (s_history s) else s_history s)).
Proof.
  intros Hb h Hwf.
  destruct (wf_snapshot _ _ _ Hwf Hb) as [s Hs].
  destruct (snapshot_inv _ _ _ Hs) as (o & Ho & Hm & Hp & Hvel & Hkind & Hhs).
  assert (Hlen : length (s_history s) = length (position_history o))
    by (symmetry; by eapply length_mapM).
  unfold System.limit_trail.
  destruct (System.trail_limit <? Z.of_nat (length (position_history o)))%Z
    eqn:Hc.
  - eexists. split.
    + step_body Ho. rewrite Hc. apply (modify_ok _ _ _ _ Ho).
    + rewrite Hs. simpl. rewrite Hlen, Hc.
      apply (modify_changes h bs b o Hwf Hb Ho); simpl;
        rewrite ?Hkind; try done.
      * intros l Hl. destruct (position_history o); [done|].
        simpl in Hl. apply elem_of_cons. by right.
      * unfold with_history. rewrite <- Hm.
        apply (snapshot_Some _ b
                 (set_position_history o (tail (position_history o))));
          simpl; try done.
        -- apply list_lookup_insert_eq, lookup_lt_is_Some. eauto.
        -- apply mapM_Some. apply mapM_Some in Hhs.
           destruct Hhs; [constructor | done].
  - exists h. split; [step_body Ho; by rewrite Hc|].
    rewrite Hs. simpl. rewrite Hlen, Hc.
    replace (with_history s (s_history s)) with s by (by destruct s).
    rewrite <- Hs. by apply only_changes_refl.
Qed.

Lemma update_velocity_acts bs b accs naccs dt i a na :
  b ∈ bs -> accs !! i = Some a -> naccs !! i = Some na ->
  acts_on bs b (System.update_velocity accs naccs dt (i, b))
          (fun s => kick dt s (a, na)).
Proof.
  intros Hb Ha Hna.
  pose proof (acts_on_bind _ _ _ _ _ _
                (add_to_velocity_acts bs b
                   (vscale_r (vscale 0.5 (vadd a na)) dt) Hb)
                (acts_on_bind _ _ _ _ _ _ (append_position_acts bs b Hb)
                              (limit_trail_acts bs b Hb))) as Hall.
  apply (acts_on_ext _ _ _ _ (fun s => kick dt s (a, na))) in Hall.
  2:{ intros s. by destruct s. }
  intros h Hwf. destruct (Hall h Hwf) as (h' & Hrun & Hrest).
  exists h'. split; [|done].
  unfold System.update_velocity; simpl.
  step_with (index_ok _ _ _ h Ha). step_with (index_ok _ _ _ h Hna).
  done.
Qed.

(** ** The control adapter (4.3) *)

Lemma bind_ret {A B} (a : A) (k : A -> M B) h : bind (ret a) k h = k a h.
Proof. done. Qed.

Lemma bind_get_body_insert {B} arrs objs b o (k : Body -> M B) :
  (b < length objs)%nat ->
  bind (get_body b) k (mkHeap arrs (<[b := o]> objs))
  = k o (mkHeap arrs (<[b := o]> objs)).
Proof.
  intros Hb. unfold bind, get_body; simpl.
  by rewrite list_lookup_insert_eq.
Qed.

Lemma modify_insert arrs objs b o f :
  (b < length objs)%nat ->
  modify b f (mkHeap arrs (<[b := o]> objs))
  = Ok (tt, mkHeap arrs (<[b := f o]> objs)).
Proof.
  intros Hb. unfold modify; simpl.
  by rewrite list_lookup_insert_eq, list_insert_insert_eq.
Qed.

Lemma bind_modify_insert {B} arrs objs b o f (k : unit -> M B) :
  (b < length objs)%nat ->
  bind (modify b f) k (mkHeap arrs (<[b := o]> objs))
  = k tt (mkHeap arrs (<[b := f o]> objs)).
Proof. intros Hb. unfold bind. by rewrite modify_insert. Qed.

(** The object of the rocket after one call of the control adapter. *)
Lemma update_rocket_controls_run h b o a keys :
  objects h !! b = Some o -> is_rocket o = true -> angle o = Some a ->
  Body.update_rocket_controls b keys h
  = Ok (tt, mkHeap (arrays h)
              (<[b := mkBody (mass o) (position o)
                        (if Body.K_DOWN keys then PyScalar 0 else velocity o)
                        true
                        (if Body.K_UP keys then 6 else 0)
                        (Some (let a := if Body.K_LEFT keys then a + 5 else a in
                               if Body.K_RIGHT keys then a - 5 else a))
                        (position_history o)]> (objects h))).
Proof.
  intros Ho Hrk Ha.
  assert (Hbl : (b < length (objects h))%nat)
    by (apply lookup_lt_is_Some; eauto).
  destruct h as [arrs objs]. simpl in *.
  rewrite <- (list_insert_id objs b o Ho) at 1.
  destruct o as [m p v r t an hist]. simpl in *. subst r an.
  unfold Body.update_rocket_controls, Body.change_angle.
  destruct keys as [[] [] [] []]; simpl;
    repeat first
      [ rewrite bind_assoc
      | rewrite bind_ret
      | rewrite bind_get_body_insert by done
      | rewrite bind_modify_insert by done
      | rewrite modify_insert by done
      | progress cbn [is_rocket angle set_angle set_thrust set_velocity mass
                      position velocity thrust position_history] ];
    reflexivity.
Qed.

Lemma update_rocket_controls_acts bs b keys :
  b ∈ bs ->
  acts_on bs b (Body.update_rocket_controls b keys) (control_of keys).
Proof.
  intros Hb h Hwf.
  destruct (wf_snapshot _ _ _ Hwf Hb) as [s Hs].
  destruct (snapshot_inv _ _ _ Hs) as (o & Ho & Hm & Hp & Hvel & Hkind & Hhs).
  assert (Hbl : (b < length (objects h))%nat)
    by (apply lookup_lt_is_Some; eauto).
  unfold kind_of in Hkind.
  destruct (is_rocket o) eqn:Hrk.
  - destruct (angle o) as [a|] eqn:Ha; [|done]. injection Hkind as Hkind.
    eexists. split; [by apply update_rocket_controls_run|].
    rewrite Hs. simpl.
    apply (modify_changes h bs b o Hwf Hb Ho); try done.
    + unfold velocity_locs; simpl. destruct (Body.K_DOWN keys); [by intros ? ?%elem_of_nil | done].
    + destruct s as [m p v k hs]; simpl in *; subst m k.
      unfold control_of; simpl.
      match goal with
      | |- snapshot (mkHeap _ (<[_ := ?o']> _)) _ = _ =>
        apply (snapshot_Some _ b o'); simpl
      end.
      * by rewrite list_lookup_insert_eq.
      * simpl. exact Hp.
      * unfold velocity_value in *; simpl.
        destruct (Body.K_DOWN keys); [done | exact Hvel].
      * done.
      * done.
  - injection Hkind as Hkind. exists h. split.
    + unfold Body.update_rocket_controls. step_body Ho. by rewrite Hrk.
    + split_and!; [done | | done | apply evolves_refl].
      rewrite Hs. simpl. unfold control_of. by rewrite <- Hkind.
Qed.

(** ** Loops over the bodies *)

Lemma for_each_acts_from bs (step : nat * nat -> M unit)
  (T : nat -> Snapshot -> Snapshot) :
  NoDup bs ->
  (forall i b, bs !! i = Some b -> acts_on bs b (step (i, b)) (T i)) ->
  forall l n h,
    (forall j b, l !! j = Some b -> bs !! (n + j)%nat = Some b) ->
    wf h bs ->
    exists h', for_each (enumerate_from n l) step h = Ok (tt, h') /\
      wf h' bs /\ evolves bs h h' /\
      forall j b, bs !! j = Some b ->
        snapshot h' b
        = if decide (n <= j < n + length l)%nat
          then T j <$> snapshot h b else snapshot h b.
Proof.
  intros Hnd Hstep l. induction l as [|b l IH]; intros n h Hl Hwf.
  - exists h. split_and!; [done | done | apply evolves_refl |].
    intros j b _. simpl. rewrite decide_False by lia. done.
  - assert (Hb : bs !! n = Some b).
    { specialize (Hl 0%nat b eq_refl). by rewrite Nat.add_0_r in Hl. }
    destruct (Hstep n b Hb h Hwf) as (h1 & Hr1 & Hwf1 & Hs1 & Ho1 & He1).
    destruct (IH (S n) h1) as (h' & Hr & Hwf' & He & Hs); [|done|].
    { intros j b' Hj. specialize (Hl (S j) b' Hj).
      by replace (S n + j)%nat with (n + S j)%nat by lia. }
    exists h'. split_and!.
    + simpl. by step_with Hr1.
    + done.
    + by eapply evolves_trans.
    + intros j b' Hj. rewrite (Hs j b' Hj). simpl length.
      destruct (decide (j = n)) as [->|Hne].
      * assert (b' = b) as -> by congruence.
        rewrite decide_False by lia. rewrite decide_True by lia. done.
      * assert (b' ≠ b).
        { intros ->. apply Hne. by eapply NoDup_lookup. }
        rewrite Ho1 by (done || by eapply list_elem_of_lookup_2).
        destruct (decide (S n <= j < S n + length l)%nat);
          [rewrite decide_True by lia | rewrite decide_False by lia]; done.
Qed.

Lemma for_each_acts bs (step : nat * nat -> M unit)
  (T : nat -> Snapshot -> Snapshot) h ss :
  (forall i b, bs !! i = Some b -> acts_on bs b (step (i, b)) (T i)) ->
  wf h bs -> snapshots h bs = Some ss ->
  exists h', for_each (enumerate bs) step h = Ok (tt, h') /\
    wf h' bs /\ snapshots h' bs = Some (imap T ss) /\ evolves bs h h'.
Proof.
  intros Hstep Hwf Hss.
  destruct (for_each_acts_from bs step T (wf_NoDup _ _ Hwf) Hstep bs 0%nat h)
    as (h' & Hr & Hwf' & He & Hs); [done | done |].
  exists h'. split_and!; [done | done | | done].
  apply mapM_Some, Forall2_same_length_lookup. split.
  - rewrite length_imap. by eapply length_mapM.
  - intros i b s' Hb Hs'. rewrite (Hs i b Hb).
    rewrite decide_True by (apply lookup_lt_Some in Hb; lia).
    destruct (snapshots_lookup _ _ _ _ _ Hss Hb) as (s & Hsi & ->).
    rewrite list_lookup_imap, Hsi in Hs'. simpl in *. congruence.
Qed.

(** ** One full pairwise pass *)

Lemma collect_ok {A B} (xs : list A) (f : A -> M B) ys h :
  Forall2 (fun x y => f x h = Ok (y, h)) xs ys ->
  collect xs f h = Ok (ys, h).
Proof.
  induction 1 as [|x y xs ys Hx _ IH]; simpl; [done|].
  step_with Hx. by step_with IH.
Qed.

Lemma filter_all {A} (P : A -> Prop) `{forall x, Decision (P x)} (l : list A) :
  Forall P l -> filter P l = l.
Proof.
  induction 1 as [|x l Hx _ IH]; [done|].
  by rewrite filter_cons, decide_True, IH.
Qed.

Lemma filter_ne_delete (bs : list nat) i b :
  NoDup bs -> bs !! i = Some b -> filter (fun x => x ≠ b) bs = delete i bs.
Proof.
  intros Hnd. revert i. induction Hnd as [|x bs Hx Hnd IH]; intros i Hi; [done|].
  rewrite filter_cons. destruct i as [|i]; simpl in *.
  - injection Hi as ->. rewrite decide_False by (intros Hn; by apply Hn).
    apply filter_all, Forall_forall. by intros y Hy ->.
  - rewrite decide_True; [by rewrite (IH i Hi)|].
    intros ->. apply Hx. by eapply list_elem_of_lookup_2.
Qed.

Lemma kind_passive o : kind_of o = Some Passive -> is_rocket o = false.
Proof. unfold kind_of. destruct (is_rocket o), (angle o); by intros. Qed.

Lemma kind_controllable o t a :
  kind_of o = Some (Controllable t a) ->
  is_rocket o = true /\ angle o = Some a /\ thrust o = t.
Proof.
  unfold kind_of. destruct (is_rocket o), (angle o); intros [=]; by subst.
Qed.

Lemma compute_acceleration_snapshot h b s others os G softening :
  snapshot h b = Some s ->
  mapM (snapshot h) others = Some os ->
  b ∉ others ->
  Body.compute_acceleration b others G softening h
  = Ok (acceleration_of G softening s os, h).
Proof.
  intros Hs Hos Hnin.
  destruct (snapshot_inv _ _ _ Hs) as (o & Ho & Hm & Hp & Hvel & Hkind & Hhs).
  unfold acceleration_of. destruct (s_kind s) as [|t a].
  - apply (compute_acceleration_passive _ _ _ _ _ _ _ _ Ho
             (kind_passive _ Hkind) Hp).
    rewrite filter_all by (apply Forall_forall; by intros x Hx ->).
    apply mapM_Some, Forall2_fmap_r. apply mapM_Some in Hos.
    eapply Forall2_impl; [exact Hos|]. simpl. intros b' s' Hs'.
    destruct (snapshot_inv _ _ _ Hs') as (o' & Ho' & Hm' & Hp' & _).
    unfold term_from. by rewrite Ho', Hp', Hm'.
  - destruct (kind_controllable _ _ _ Hkind) as (Hrk & Ha & <-).
    by apply compute_acceleration_thrust.
Qed.

Lemma compute_accelerations_spec self bs h ss :
  bodies self = Some bs -> NoDup bs -> snapshots h bs = Some ss ->
  System.compute_accelerations self h = Ok (accelerations_of (G self) ss, h).
Proof.
  intros Hbs Hnd Hss. unfold System.compute_accelerations.
  step_with (the_bodies_ok _ _ h Hbs).
  apply collect_ok, Forall2_same_length_lookup. split.
  - unfold accelerations_of. rewrite length_imap. by eapply length_mapM.
  - intros i b a Hb Ha.
    destruct (snapshots_lookup _ _ _ _ _ Hss Hb) as (s & Hsi & Hs).
    unfold accelerations_of in Ha. rewrite list_lookup_imap, Hsi in Ha.
    injection Ha as <-.
    rewrite (filter_ne_delete _ _ _ Hnd Hb).
    apply compute_acceleration_snapshot; [done | |].
    + apply mapM_Some, Forall2_delete. by apply mapM_Some.
    + intros Hin. apply list_elem_of_lookup in Hin as [j Hj].
      destruct (decide (j < i)%nat).
      * rewrite list_lookup_delete_lt in Hj by done.
        pose proof (NoDup_lookup _ _ _ _ Hnd Hj Hb). lia.
      * rewrite list_lookup_delete_ge in Hj by lia.
        pose proof (NoDup_lookup _ _ _ _ Hnd Hj Hb). lia.
Qed.

(** ** The integrator (4.2) *)

Lemma imap_zip_with {A B} (f : A -> B -> A) (d : B) (l : list A) (k : list B) :
  length l = length k ->
  imap (fun i x => f x (default d (k !! i))) l = zip_with f l k.
Proof.
  intros Hlen. apply list_eq. intros i.
  rewrite list_lookup_imap, lookup_zip_with.
  destruct (l !! i) as [x|] eqn:Hx; simpl; [|done].
  destruct (lookup_lt_is_Some_2 k i) as [y Hy].
  { apply lookup_lt_Some in Hx. lia. }
  by rewrite Hy.
Qed.

Lemma length_accelerations_of G ss :
  length (accelerations_of G ss) = length ss.
Proof. unfold accelerations_of. by rewrite length_imap. Qed.

(** The two passes and the two loops of [integrate], one after the other. *)
Lemma integrate_passes self bs dt h ss :
  bodies self = Some bs -> wf h bs -> snapshots h bs = Some ss ->
  let a0 := accelerations_of (G self) ss in
  let moved := zip_with (move dt) ss a0 in
  let a1 := accelerations_of (G self) moved in
  exists h1 h',
    System.compute_accelerations self h = Ok (a0, h) /\
    for_each (enumerate bs) (System.update_position a0 dt) h = Ok (tt, h1) /\
    wf h1 bs /\
    snapshots h1 bs = Some moved /\
    System.compute_accelerations self h1 = Ok (a1, h1) /\
    for_each (enumerate bs) (System.update_velocity a0 a1 dt) h1
    = Ok (tt, h') /\
    System.integrate self dt h = Ok (tt, h') /\
    wf h' bs /\
    snapshots h' bs = Some (zip_with (kick dt) moved (zip a0 a1)) /\
    evolves bs h h'.
Proof.
  intros Hbs Hwf Hss a0 moved a1.
  pose proof (wf_NoDup _ _ Hwf) as Hnd.
  pose proof (length_mapM _ _ _ Hss) as Hlen.
  assert (Hla0 : length a0 = length bs)
    by (unfold a0; rewrite length_accelerations_of; lia).
  destruct (for_each_acts bs (System.update_position a0 dt)
              (fun i s => move dt s (default vzero (a0 !! i))) h ss)
    as (h1 & Hr1 & Hwf1 & Hss1 & He1); [|done|done|].
  { intros i b Hb.
    destruct (lookup_lt_is_Some_2 a0 i) as [a Ha].
    { apply lookup_lt_Some in Hb. lia. }
    cbv beta. rewrite Ha. simpl.
    apply update_position_acts; [by eapply list_elem_of_lookup_2 | done]. }
  rewrite (imap_zip_with (move dt)) in Hss1 by lia.
  fold moved in Hss1.
  assert (Hlm : length moved = length bs)
    by (unfold moved; rewrite length_zip_with; lia).
  assert (Hla1 : length a1 = length bs)
    by (unfold a1; rewrite length_accelerations_of; lia).
  destruct (for_each_acts bs (System.update_velocity a0 a1 dt)
              (fun i s => kick dt s (default (vzero, vzero) (zip a0 a1 !! i)))
              h1 moved)
    as (h2 & Hr2 & Hwf2 & Hss2 & He2); [|done|done|].
  { intros i b Hb.
    destruct (lookup_lt_is_Some_2 a0 i) as [a Ha].
    { apply lookup_lt_Some in Hb. lia. }
    destruct (lookup_lt_is_Some_2 a1 i) as [na Hna].
    { apply lookup_lt_Some in Hb. lia. }
    cbv beta. rewrite (lookup_zip_with pair a0 a1 i), Ha, Hna. simpl.
    apply update_velocity_acts; [by eapply list_elem_of_lookup_2 | done..]. }
  rewrite (imap_zip_with (kick dt)) in Hss2
    by (rewrite length_zip_with; lia).
  pose proof (compute_accelerations_spec _ _ _ _ Hbs Hnd Hss) as Hc0.
  pose proof (compute_accelerations_spec _ _ _ _ Hbs Hnd Hss1) as Hc1.
  fold a0 in Hc0. fold a1 in Hc1.
  exists h1, h2. split_and!; try done; [|by eapply evolves_trans].
  unfold System.integrate.
  step_with Hc0. step_with (the_bodies_ok _ _ h Hbs). step_with Hr1.
  step_with Hc1. step_with (the_bodies_ok _ _ h1 Hbs).
  done.
Qed.

Lemma integrate_refines self bs dt h ss :
  bodies self = Some bs -> wf h bs -> snapshots h bs = Some ss ->
  exists h', System.integrate self dt h = Ok (tt, h') /\
    wf h' bs /\
    snapshots h' bs = Some (verlet_step (G self) dt ss) /\
    evolves bs h h'.
Proof.
  intros Hbs Hwf Hss.
  destruct (integrate_passes self bs dt h ss Hbs Hwf Hss)
    as (h1 & h' & _ & _ & _ & _ & _ & _ & Hr & Hwf' & Hss' & He).
  by exists h'.
Qed.

(** ** Whole ticks *)

Lemma acts_on_snapshots bs b m T h ss :
  acts_on bs b m T -> wf h bs -> snapshots h bs = Some ss ->
  exists h', m h = Ok (tt, h') /\ wf h' bs /\
    snapshots h' bs = Some (zip_with (fun b' s => if decide (b' = b) then T s else s) bs ss) /\
    evolves bs h h'.
Proof.
  intros Hm Hwf Hss.
  destruct (Hm h Hwf) as (h' & Hr & Hwf' & Hs & Ho & He).
  exists h'. split_and!; [done..| |done].
  pose proof (length_mapM _ _ _ Hss) as Hlen.
  apply mapM_Some, Forall2_same_length_lookup. split.
  - rewrite length_zip_with. lia.
  - intros i b' s' Hb' Hs'.
    destruct (snapshots_lookup _ _ _ _ _ Hss Hb') as (s & Hsi & Hsb).
    rewrite lookup_zip_with, Hb', Hsi in Hs'. simpl in Hs'.
    injection Hs' as <-.
    destruct (decide (b' = b)) as [->|Hne].
    + by rewrite Hs, Hsb.
    + rewrite Ho; [done | by eapply list_elem_of_lookup_2 | done].
Qed.

Lemma controls_refine bs cs h ss :
  Forall (fun bk : nat * Body.Keys => bk.1 ∈ bs) cs ->
  wf h bs -> snapshots h bs = Some ss ->
  exists h',
    for_each cs (fun bk => Body.update_rocket_controls bk.1 bk.2) h
    = Ok (tt, h') /\
    wf h' bs /\
    snapshots h' bs = Some (foldl (fun ss bk => apply_control bs bk ss) ss cs) /\
    evolves bs h h'.
Proof.
  intros Hcs. revert h ss.
  induction Hcs as [|[b keys] cs Hb _ IH]; intros h ss Hwf Hss.
  - exists h. split_and!; [done | done | done | apply evolves_refl].
  - destruct (acts_on_snapshots bs b _ _ h ss
                (update_rocket_controls_acts bs b keys Hb) Hwf Hss)
      as (h1 & Hr1 & Hwf1 & Hss1 & He1).
    destruct (IH h1 _ Hwf1 Hss1) as (h' & Hr & Hwf' & Hss' & He).
    exists h'. split_and!; [|done|done|by eapply evolves_trans].
    simpl. by step_with Hr1.
Qed.

Lemma frame_refines self bs f h ss :
  bodies self = Some bs -> wf h bs -> snapshots h bs = Some ss ->
  Forall (fun bk : nat * Body.Keys => bk.1 ∈ bs) (controls f) ->
  exists h', frame self f h = Ok (tt, h') /\
    wf h' bs /\
    snapshots h' bs = Some (frame_step (G self) bs ss f) /\
    evolves bs h h'.
Proof.
  intros Hbs Hwf Hss Hcs.
  destruct (controls_refine bs (controls f) h ss Hcs Hwf Hss)
    as (h1 & Hr1 & Hwf1 & Hss1 & He1).
  destruct (integrate_refines self bs (dt f) h1 _ Hbs Hwf1 Hss1)
    as (h' & Hr & Hwf' & Hss' & He).
  exists h'. split_and!; [|done|done|by eapply evolves_trans].
  unfold frame. by step_with Hr1.
Qed.

(** Every control-adapter call of the run is on a body of the system. *)
Lemma run_refines self bs fs h ss :
  bodies self = Some bs -> wf h bs -> snapshots h bs = Some ss ->
  Forall (fun f => Forall (fun bk : nat * Body.Keys => bk.1 ∈ bs) (controls f))
         fs ->
  exists h', run self fs h = Ok (tt, h') /\
    wf h' bs /\
    snapshots h' bs = Some (run_steps (G self) bs fs ss) /\
    evolves bs h h'.
Proof.
  intros Hbs Hwf Hss Hfs. revert h ss Hwf Hss.
  induction Hfs as [|f fs Hf _ IH]; intros h ss Hwf Hss.
  - exists h. split_and!; [done | done | done | apply evolves_refl].
  - destruct (frame_refines self bs f h ss Hbs Hwf Hss Hf)
      as (h1 & Hr1 & Hwf1 & Hss1 & He1).
    destruct (IH h1 _ Hwf1 Hss1) as (h' & Hr & Hwf' & Hss' & He).
    exists h'. split_and!; [|done|done|by eapply evolves_trans].
    unfold run in *. simpl. by step_with Hr1.
Qed.

(** ** The trajectory history on the value-level view *)

Lemma tail_drop {A} (l : list A) n : tail (drop n l) = drop (S n) l.
Proof.
  revert n. induction l as [|x l IH]; intros [|n]; simpl; done.
Qed.

(** Pushing onto the last [cap] entries of [l] gives the last [cap] entries
    of [l ++ [x]]. *)
Lemma push_capped_drop {A} (l : list A) x :
  push_capped (drop (length l - Z.to_nat System.trail_limit) l) x
  = drop (S (length l) - Z.to_nat System.trail_limit) (l ++ [x]).
Proof.
  unfold push_capped, System.trail_limit.
  rewrite length_app, length_drop. simpl length.
  destruct (Z.ltb_spec 200000
              (Z.of_nat (length l - (length l - Z.to_nat 200000) + 1))) as [Hc|Hc].
  - rewrite drop_app_le by lia.
    replace (S (length l) - Z.to_nat 200000)%nat
      with (S (length l - Z.to_nat 200000)) by lia.
    rewrite <- tail_drop.
    destruct (drop (length l - Z.to_nat 200000) l) as [|y k] eqn:Hd; [|done].
    apply (f_equal length) in Hd. rewrite length_drop in Hd. simpl in Hd. lia.
  - replace (length l - Z.to_nat 200000)%nat with 0%nat by lia.
    replace (S (length l) - Z.to_nat 200000)%nat with 0%nat by lia.
    done.
Qed.

Lemma control_of_history keys s :
  s_history (control_of keys s) = s_history s.
Proof. unfold control_of. by destruct (s_kind s). Qed.

Lemma length_apply_control bs bk ss :
  length bs = length ss -> length (apply_control bs bk ss) = length ss.
Proof. intros. unfold apply_control. rewrite length_zip_with. lia. Qed.

Lemma apply_control_lookup bs bk ss i s1 :
  apply_control bs bk ss !! i = Some s1 ->
  exists s, ss !! i = Some s /\ s_history s1 = s_history s.
Proof.
  unfold apply_control. intros (b & s & -> & _ & Hs)%lookup_zip_with_Some.
  exists s. split; [done|]. destruct (decide _); [|done].
  apply control_of_history.
Qed.

Lemma controls_lookup bs cs ss i s1 :
  foldl (fun ss bk => apply_control bs bk ss) ss cs !! i = Some s1 ->
  exists s, ss !! i = Some s /\ s_history s1 = s_history s.
Proof.
  revert ss. induction cs as [|bk cs IH]; intros ss; simpl; [by eauto|].
  intros (s' & Hs' & E1)%IH.
  destruct (apply_control_lookup _ _ _ _ _ Hs') as (s & Hs & E2).
  exists s. split; [done | congruence].
Qed.

Lemma length_controls bs cs ss :
  length bs = length ss ->
  length (foldl (fun ss bk => apply_control bs bk ss) ss cs) = length ss.
Proof.
  revert ss. induction cs as [|bk cs IH]; intros ss Hlen; simpl; [done|].
  rewrite IH; rewrite length_apply_control; done.
Qed.

Lemma length_verlet_step G dt ss : length (verlet_step G dt ss) = length ss.
Proof.
  unfold verlet_step.
  rewrite !length_zip_with, !length_accelerations_of, !length_zip_with,
    !length_accelerations_of.
  lia.
Qed.

(** The new position goes onto the history, the oldest entry leaves when the
    cap is exceeded. *)
Lemma verlet_step_lookup G dt ss i s' :
  verlet_step G dt ss !! i = Some s' ->
  exists s, ss !! i = Some s /\
    s_history s' = push_capped (s_history s) (s_position s').
Proof.
  unfold verlet_step.
  intros (sm & a01 & -> & Hsm & _)%lookup_zip_with_Some.
  apply lookup_zip_with_Some in Hsm as (s & a0 & -> & Hs & _).
  by exists s.
Qed.

Lemma length_frame_step G bs ss f :
  length bs = length ss -> length (frame_step G bs ss f) = length ss.
Proof.
  intros. unfold frame_step. by rewrite length_verlet_step, length_controls.
Qed.

Lemma frame_step_lookup G bs ss f i s' :
  frame_step G bs ss f !! i = Some s' ->
  exists s, ss !! i = Some s /\
    s_history s' = push_capped (s_history s) (s_position s').
Proof.
  unfold frame_step. intros (s1 & Hs1 & E)%verlet_step_lookup.
  destruct (controls_lookup _ _ _ _ _ Hs1) as (s & Hs & E1).
  exists s. split; [done | congruence].
Qed.

Lemma length_run_steps G bs fs ss :
  length bs = length ss -> length (run_steps G bs fs ss) = length ss.
Proof.
  revert ss. induction fs as [|f fs IH]; intros ss Hlen; [done|].
  unfold run_steps in *. simpl.
  rewrite IH; rewrite length_frame_step; done.
Qed.

Lemma run_steps_snoc G bs fs f ss :
  run_steps G bs (fs ++ [f]) ss = frame_step G bs (run_steps G bs fs ss) f.
Proof. unfold run_steps. by rewrite foldl_app. Qed.

(** After [k] ticks the history of a body that started with none holds the
    positions recorded at the last 200000 ticks, oldest first. *)
Lemma history_window G bs fs ss i s0 cap :
  cap = Z.to_nat System.trail_limit ->
  length bs = length ss -> ss !! i = Some s0 -> s_history s0 = [] ->
  forall k, (k <= length fs)%nat ->
  exists s, run_steps G bs (take k fs) ss !! i = Some s /\
    s_history s
    = drop (k - cap)
        (map (fun j => default vzero
                (s_position <$> run_steps G bs (take j fs) ss !! i))
             (seq 1 k)).
Proof.
  intros Hcap Hlen Hs0 Hh0 k. induction k as [|k IH]; intros Hk.
  - exists s0. by rewrite take_0.
  - destruct IH as (s & Hs & Hh); [lia|].
    destruct (lookup_lt_is_Some_2 fs k) as [f Hf]; [lia|].
    rewrite (take_S_r _ _ _ Hf), run_steps_snoc.
    destruct (lookup_lt_is_Some_2
                (frame_step G bs (run_steps G bs (take k fs) ss) f) i)
      as [s' Hs'].
    { rewrite length_frame_step by (by rewrite length_run_steps).
      rewrite length_run_steps by done. by eapply lookup_lt_Some. }
    exists s'. split; [done|].
    destruct (frame_step_lookup _ _ _ _ _ _ Hs') as (s1 & Hs1 & Hh1).
    assert (s1 = s) as -> by congruence.
    rewrite Hh1, Hh, seq_S, map_app. cbn [map].
    change (1 + k)%nat with (S k).
    rewrite (take_S_r _ _ _ Hf), run_steps_snoc, Hs'. cbn [fmap option_fmap option_map default].
    set (L := map _ (seq 1 k)).
    assert (HL : length L = k) by (unfold L; by rewrite length_map, length_seq).
    rewrite <- HL at 1. rewrite Hcap, push_capped_drop. by rewrite HL.
Qed.

(** What a run looks like from the code's side. *)
Lemma snapshot_after_spec self bs fs h ss i b k :
  bodies self = Some bs -> wf h bs -> snapshots h bs = Some ss ->
  Forall (fun f => Forall (fun bk : nat * Body.Keys => bk.1 ∈ bs) (controls f))
         fs ->
  bs !! i = Some b ->
  snapshot_after self fs h b k
  = run_steps (G self) bs (take k fs) ss !! i /\
  is_Some (run_steps (G self) bs (take k fs) ss !! i).
Proof.
  intros Hbs Hwf Hss Hfs Hb.
  destruct (run_refines self bs (take k fs) h ss Hbs Hwf Hss
              (Forall_take _ _ _ Hfs)) as (h' & Hr & Hwf' & Hss' & _).
  unfold snapshot_after. rewrite Hr. simpl.
  destruct (snapshots_lookup _ _ _ _ _ Hss' Hb) as (s & Hsi & Hs).
  rewrite Hs, Hsi. eauto.
Qed.

(** The history of a body along a run, tick by tick. *)
Lemma trail_along_runs self bs fs h b s0 :
  bodies self = Some bs -> wf h bs -> b ∈ bs ->
  Forall (fun f => Forall (fun bk : nat * Body.Keys => bk.1 ∈ bs) (controls f))
         fs ->
  snapshot h b = Some s0 -> s_history s0 = [] ->
  (exists h', run self fs h = Ok (tt, h')) /\
  forall k, (k <= length fs)%nat ->
  exists s samples,
    snapshot_after self fs h b k = Some s /\
    (Z.of_nat (length (s_history s)) <= 200000)%Z /\
    (forall s1, (k < length fs)%nat ->
       snapshot_after self fs h b (S k) = Some s1 ->
       s_history s1 = push_capped (s_history s) (s_position s1)) /\
    Forall2 (fun j p => position_after self fs h b j = Some p)
            (seq 1 k) samples /\
    s_history s = drop (k - Z.to_nat 200000) samples /\
    ((200000 < Z.of_nat k)%Z ->
       Z.of_nat (length (s_history s)) = 200000%Z /\
       head (s_history s)
       = position_after self fs h b (k - Z.to_nat 200000 + 1)).
Proof.
  intros Hbs Hwf Hb Hfs Hs0 Hh0.
  destruct (wf_snapshots _ _ Hwf) as [ss Hss].
  pose proof (length_mapM _ _ _ Hss) as Hlen.
  apply list_elem_of_lookup in Hb as [i Hi].
  destruct (snapshots_lookup _ _ _ _ _ Hss Hi) as (s0' & Hsi & Hs0').
  assert (s0' = s0) as -> by congruence.
  split.
  { destruct (run_refines self bs fs h ss Hbs Hwf Hss Hfs) as (h' & Hr & _).
    by exists h'. }
  intros k Hk.
  assert (Hafter : forall j, snapshot_after self fs h b j
                   = run_steps (G self) bs (take j fs) ss !! i).
  { intros j. by apply (snapshot_after_spec self bs fs h ss i b j). }
  destruct (history_window (G self) bs fs ss i s0 (Z.to_nat 200000) eq_refl
              Hlen Hsi Hh0 k Hk) as (s & Hs & Hh).
  set (P := fun j => default vzero
              (s_position <$> run_steps (G self) bs (take j fs) ss !! i)) in *.
  assert (HP : forall j, position_after self fs h b j = Some (P j)).
  { intros j. unfold position_after, P. rewrite Hafter.
    destruct (snapshot_after_spec self bs fs h ss i b j Hbs Hwf Hss Hfs Hi)
      as [_ [sj ->]]. done. }
  assert (Hlenh : length (s_history s) = (k - (k - Z.to_nat 200000))%nat).
  { rewrite Hh. by rewrite length_drop, length_map, length_seq. }
  exists s, (map P (seq 1 k)). split_and!.
  - by rewrite Hafter.
  - lia.
  - intros s1 Hlt Hs1. rewrite Hafter in Hs1.
    destruct (lookup_lt_is_Some_2 fs k) as [f Hf]; [lia|].
    rewrite (take_S_r _ _ _ Hf), run_steps_snoc in Hs1.
    destruct (frame_step_lookup _ _ _ _ _ _ Hs1) as (s' & Hs' & E).
    assert (s' = s) as -> by congruence. done.
  - apply Forall2_fmap_r, Forall_Forall2_diag, Forall_forall.
    intros j _. apply HP.
  - exact Hh.
  - intros Hbig. split; [lia|].
    rewrite Hh.
    rewrite head_lookup, lookup_drop, Nat.add_0_r, list_lookup_fmap.
    rewrite lookup_seq_lt by lia. cbn [fmap option_fmap option_map].
    rewrite HP. do 2 f_equal. lia.
Qed.

(** C4: along any run of a system whose body [b] starts with an empty
    history, after [k] ticks the history of [b] never holds more than 200000
    samples; each tick appends the position it produced and, when that makes
    200001, drops the oldest; the history is the positions recorded at the
    last 200000 ticks in order, so after more than 200000 ticks its length is
    exactly 200000 and its oldest sample is the one recorded at tick
    [k - 200000 + 1]. *)
Theorem C4_trail_is_capped_fifo self bs fs h b s0 :
  bodies self = Some bs -> wf h bs -> b ∈ bs ->
  Forall (fun f => Forall (fun bk : nat * Body.Keys => bk.1 ∈ bs) (controls f))
         fs ->
  snapshot h b = Some s0 -> s_history s0 = [] ->
  (exists h', run self fs h = Ok (tt, h')) /\
  forall k, (k <= length fs)%nat ->
  exists s samples,
    snapshot_after self fs h b k = Some s /\
    (Z.of_nat (length (s_history s)) <= 200000)%Z /\
    (forall s1, (k < length fs)%nat ->
       snapshot_after self fs h b (S k) = Some s1 ->
       s_history s1 = push_capped (s_history s) (s_position s1)) /\
    Forall2 (fun j p => position_after self fs h b j = Some p)
            (seq 1 k) samples /\
    s_history s = drop (k - Z.to_nat 200000) samples /\
    ((200000 < Z.of_nat k)%Z ->
       Z.of_nat (length (s_history s)) = 200000%Z /\
       head (s_history s)
       = position_after self fs h b (k - Z.to_nat 200000 + 1)).
Proof. apply trail_along_runs. Qed.

(** ** The integrator against the spec *)

(** C1: on a well-formed heap [integrate] computes the accelerations [a0]
    of all bodies from the current state, then moves every body to
    [position + velocity*dt + 0.5*a0*dt^2], then computes the accelerations
    [a1] of all bodies from the heap in which every position is already the
    new one, then sets every velocity to [velocity + 0.5*(a0 + a1)*dt]. *)
Theorem C1_integrate_is_velocity_verlet self bs dt h ss :
  bodies self = Some bs -> wf h bs -> snapshots h bs = Some ss ->
  let a0 := accelerations_of (G self) ss in
  let moved := zip_with (move dt) ss a0 in
  let a1 := accelerations_of (G self) moved in
  exists h1 h',
    System.compute_accelerations self h = Ok (a0, h) /\
    for_each (enumerate bs) (System.update_position a0 dt) h = Ok (tt, h1) /\
    snapshots h1 bs = Some moved /\
    System.compute_accelerations self h1 = Ok (a1, h1) /\
    for_each (enumerate bs) (System.update_velocity a0 a1 dt) h1
    = Ok (tt, h') /\
    System.integrate self dt h = Ok (tt, h') /\
    wf h' bs /\
    snapshots h' bs = Some (verlet_step (G self) dt ss) /\
    forall i s, ss !! i = Some s ->
      exists x0 x1 s',
        a0 !! i = Some x0 /\ a1 !! i = Some x1 /\
        verlet_step (G self) dt ss !! i = Some s' /\
        s_position s'
        = vadd (s_position s)
               (vadd (vscale_r (s_velocity s) dt)
                     (vscale_r (vscale 0.5 x0) (dt ^ 2))) /\
        s_velocity s'
        = vadd (s_velocity s) (vscale_r (vscale 0.5 (vadd x0 x1)) dt).
Proof.
  intros Hbs Hwf Hss a0 moved a1.
  destruct (integrate_passes self bs dt h ss Hbs Hwf Hss)
    as (h1 & h' & Hc0 & Hl1 & Hwf1 & Hss1 & Hc1 & Hl2 & Hr & Hwf' & Hss' & _).
  exists h1, h'. split_and!; try done.
  intros i s Hs.
  assert (Hi : (i < length ss)%nat) by (by eapply lookup_lt_Some).
  destruct (lookup_lt_is_Some_2 a0 i) as [x0 Hx0].
  { unfold a0. by rewrite length_accelerations_of. }
  destruct (lookup_lt_is_Some_2 a1 i) as [x1 Hx1].
  { unfold a1, moved, a0.
    rewrite length_accelerations_of, length_zip_with, length_accelerations_of.
    lia. }
  exists x0, x1, (kick dt (move dt s x0) (x0, x1)). split_and!; try done.
  unfold verlet_step. cbv zeta. fold a0. fold moved. fold a1.
  apply lookup_zip_with_Some. exists (move dt s x0), (x0, x1). split_and!.
  - done.
  - apply lookup_zip_with_Some. by exists s, x0.
  - by rewrite (lookup_zip_with pair a0 a1 i), Hx0, Hx1.
Qed.

Lemma scenario_wf m : wf (scenario_heap m) [0; 1]%nat.
Proof. by apply (bool_decide_unpack _); vm_compute. Defined.

Lemma C1_witness :
  exists h1 h',
    System.compute_accelerations scenario_system (scenario_heap 0.0001)
    = Ok (accelerations_of 1 (scenario_snapshots 0.0001),
          scenario_heap 0.0001) /\
    for_each (enumerate [0; 1]%nat)
      (System.update_position
         (accelerations_of 1 (scenario_snapshots 0.0001)) 0.001)
      (scenario_heap 0.0001) = Ok (tt, h1) /\
    System.integrate scenario_system 0.001 (scenario_heap 0.0001)
    = Ok (tt, h') /\
    snapshots h' [0; 1]%nat
    = Some (verlet_step 1 0.001 (scenario_snapshots 0.0001)).
Proof.
  destruct (C1_integrate_is_velocity_verlet scenario_system [0; 1]%nat 0.001
              (scenario_heap 0.0001) (scenario_snapshots 0.0001)
              eq_refl (scenario_wf 0.0001) eq_refl)
    as (h1 & h' & H0 & H1 & _ & _ & _ & Hr & _ & Hs & _).
  exists h1, h'. repeat split; assumption.
Defined.

(** ** The concrete scenario *)

Lemma norm_scenario : norm (vsub (0, 1.2) (0, 0)) = 1.2.
Proof.
  unfold norm; simpl.
  replace ((0 - 0) * (0 - 0) + (1.2 - 0) * (1.2 - 0)) with (Rsqr 1.2)
    by (unfold Rsqr; lra).
  apply sqrt_Rsqr. lra.
Qed.

Lemma scenario_gravity m :
  Body.gravity_term 1 m (vsub (0, 1.2) (0, 0)) Body.default_softening
  = (0, m * (25 / 36)).
Proof.
  unfold Body.gravity_term. rewrite norm_scenario.
  unfold Body.softened_cube, Body.default_softening.
  rewrite Rmax_left by lra.
  apply vec_eq; unfold vdiv, vscale, vsub; cbn [fst snd];
    replace (1.2 ^ 3) with (1728 / 1000) by lra; lra.
Qed.

(** One tick of the scenario: the rocket stays where it is, the planet is
    pulled towards it by the rocket's mass. *)
Lemma scenario_tick m :
  exists h' rocket planet,
    System.integrate scenario_system 0.001 (scenario_heap m) = Ok (tt, h') /\
    snapshot h' 0%nat = Some rocket /\
    snapshot h' 1%nat = Some planet /\
    s_position rocket = (0, 1.2) /\
    s_velocity rocket = (0, 0) /\
    s_position planet = (0, m / 2880000).
Proof.
  destruct (integrate_refines scenario_system [0; 1]%nat 0.001
              (scenario_heap m) (scenario_snapshots m)
              eq_refl (scenario_wf m) eq_refl)
    as (h' & Hr & _ & Hss & _).
  apply mapM_Some in Hss.
  cbn [verlet_step accelerations_of scenario_snapshots imap zip_with delete
       list_delete G scenario_system compose] in Hss.
  inversion Hss as [|? rocket ? ? Hrocket Hss1]; subst.
  inversion Hss1 as [|? planet ? ? Hplanet _]; subst.
  eexists h', _, _. split_and!; [done | exact Hrocket | exact Hplanet |..].
  - apply vec_eq; simpl; ring.
  - apply vec_eq; simpl; ring.
  - cbn [kick move with_history with_velocity with_position s_position
         s_velocity s_mass acceleration_of s_kind map vsum foldr].
    rewrite scenario_gravity.
    apply vec_eq; unfold vadd, vscale, vscale_r, vzero; cbn [fst snd];
      replace (0.001 ^ 2) with (1 / 1000000) by lra; lra.
Qed.

(** C8, as the code has it: after one tick with the thrust disengaged the
    rocket has not moved, and the planet has moved by [m / 2880000] towards the
    rocket, [m] being the rocket's mass; it stays at the origin exactly when
    that mass is zero. *)
Theorem C8_scenario_one_tick m :
  exists h' rocket planet,
    System.integrate scenario_system 0.001 (scenario_heap m) = Ok (tt, h') /\
    snapshot h' 0%nat = Some rocket /\
    snapshot h' 1%nat = Some planet /\
    s_position rocket = (0, 1.2) /\
    s_position planet = (0, m / 2880000) /\
    (s_position planet = (0, 0) <-> m = 0).
Proof.
  destruct (scenario_tick m) as (h' & rocket & planet & Hr & H0 & H1 & Hp & _ & Hq).
  exists h', rocket, planet. split_and!; try done.
  rewrite Hq. split.
  - intros [= E]. lra.
  - intros ->. f_equal. lra.
Qed.

(** With the rocket's mass of [generate], 0.0001, the planet does not
    remain at the origin. *)
Lemma C8_counterexample :
  exists h' planet,
    System.integrate scenario_system 0.001 (scenario_heap 0.0001)
    = Ok (tt, h') /\
    snapshot h' 1%nat = Some planet /\
    s_position planet <> (0, 0).
Proof.
  destruct (scenario_tick 0.0001)
    as (h' & rocket & planet & Hr & H0 & H1 & Hp & _ & Hq).
  exists h', planet. split_and!; try done.
  rewrite Hq. intros [= E]. lra.
Qed.

Lemma C4_witness :
  (exists h', run scenario_system [mkFrame [(0%nat, no_keys)] 0.001;
                                   mkFrame [(0%nat, kill_key)] 0.001]
                  (scenario_heap 0.0001) = Ok (tt, h')) /\
  forall k, (k <= 2)%nat ->
  exists s samples,
    snapshot_after scenario_system
      [mkFrame [(0%nat, no_keys)] 0.001; mkFrame [(0%nat, kill_key)] 0.001]
      (scenario_heap 0.0001) 1%nat k = Some s /\
    (Z.of_nat (length (s_history s)) <= 200000)%Z /\
    (forall s1, (k < 2)%nat ->
       snapshot_after scenario_system
         [mkFrame [(0%nat, no_keys)] 0.001; mkFrame [(0%nat, kill_key)] 0.001]
         (scenario_heap 0.0001) 1%nat (S k) = Some s1 ->
       s_history s1 = push_capped (s_history s) (s_position s1)) /\
    Forall2 (fun j p =>
               position_after scenario_system
                 [mkFrame [(0%nat, no_keys)] 0.001;
                  mkFrame [(0%nat, kill_key)] 0.001]
                 (scenario_heap 0.0001) 1%nat j = Some p)
            (seq 1 k) samples /\
    s_history s = drop (k - Z.to_nat 200000) samples /\
    ((200000 < Z.of_nat k)%Z ->
       Z.of_nat (length (s_history s)) = 200000%Z /\
       head (s_history s)
       = position_after scenario_system
           [mkFrame [(0%nat, no_keys)] 0.001; mkFrame [(0%nat, kill_key)] 0.001]
           (scenario_heap 0.0001) 1%nat (k - Z.to_nat 200000 + 1)).
Proof.
  apply (C4_trail_is_capped_fifo scenario_system [0; 1]%nat
           [mkFrame [(0%nat, no_keys)] 0.001; mkFrame [(0%nat, kill_key)] 0.001]
           (scenario_heap 0.0001) 1%nat
           (mkSnapshot 1 (0, 0) (0, 0) Passive [])).
  - reflexivity.
  - apply (bool_decide_unpack _). vm_compute. reflexivity.
  - apply (bool_decide_unpack _). vm_compute. reflexivity.
  - apply (bool_decide_unpack _). vm_compute. reflexivity.
  - reflexivity.
  - reflexivity.
Defined.

(** More than 200000 ticks do occur: a run of 200001 idle ticks leaves the
    planet of the scenario with exactly 200000 samples, the oldest being the
    one of tick 2. *)
Example trail_full_after_200001_ticks :
  let fs := replicate (Z.to_nat 200001) (mkFrame [] 0.001) in
  exists s,
    snapshot_after scenario_system fs (scenario_heap 0.0001) 1%nat
                   (Z.to_nat 200001) = Some s /\
    Z.of_nat (length (s_history s)) = 200000%Z /\
    head (s_history s)
    = position_after scenario_system fs (scenario_heap 0.0001) 1%nat 2.
Proof.
  intros fs.
  assert (Hlen : length fs = Z.to_nat 200001)
    by (unfold fs; apply length_replicate).
  destruct (trail_along_runs scenario_system [0; 1]%nat fs
              (scenario_heap 0.0001) 1%nat
              (mkSnapshot 1 (0, 0) (0, 0) Passive [])) as [_ Hall].
  - reflexivity.
  - apply scenario_wf.
  - apply (bool_decide_unpack _). vm_compute. reflexivity.
  - unfold fs. apply Forall_replicate. constructor.
  - reflexivity.
  - reflexivity.
  - destruct (Hall (Z.to_nat 200001)) as (s & samples & Hs & _ & _ & _ & _ & Hbig);
      [lia|].
    assert (Hgt : (200000 < Z.of_nat (Z.to_nat 200001))%Z) by lia.
    destruct (Hbig Hgt) as [Hl Hh].
    exists s. split_and!; [done | done |].
    replace (Z.to_nat 200001 - Z.to_nat 200000 + 1)%nat with 2%nat in Hh by lia. exact Hh.
Qed.

(** ** History entries are copies *)

Lemma history_not_live h bs b o l :
  wf h bs -> b ∈ bs -> objects h !! b = Some o -> l ∈ position_history o ->
  (l < length (arrays h))%nat /\ not_live h bs l.
Proof.
  intros Hwf Hb Ho Hl.
  destruct (wf_body _ _ _ Hwf Hb) as (o1 & Ho1 & Hv & _ & _ & Hdisj).
  assert (o1 = o) as -> by congruence. clear Ho1.
  rewrite Forall_forall in Hv, Hdisj.
  assert (Hfoot : l ∈ footprint o)
    by (unfold footprint; apply elem_of_app; by right).
  split; [by apply Hv|].
  intros b1 o1 Hb1 Ho1 Hin.
  destruct (decide (b1 = b)) as [->|Hne].
  - assert (o1 = o) as -> by congruence. by apply (Hdisj l).
  - pose proof (wf_separate _ _ _ _ _ _ Hwf Hb1 Hb Hne Ho1 Ho) as Hs.
    rewrite Forall_forall in Hs. by apply (Hs l).
Qed.

Lemma last_push_capped {A} (hs : list A) p : last (push_capped hs p) = Some p.
Proof.
  unfold push_capped.
  destruct (System.trail_limit <? Z.of_nat (length (hs ++ [p])))%Z eqn:Hc;
    [|apply last_snoc].
  destruct hs as [|x hs]; [done|]. apply last_snoc.
Qed.

Lemma mapM_last {A B} (f : A -> option B) l k y :
  mapM f l = Some k -> last k = Some y ->
  exists x, last l = Some x /\ f x = Some y.
Proof.
  intros Hm Hy. pose proof (length_mapM _ _ _ Hm) as Hlen.
  apply mapM_Some in Hm. rewrite last_lookup in Hy.
  destruct (Forall2_lookup_r _ _ _ _ _ Hm Hy) as (x & Hx & Hfx).
  exists x. split; [|done]. by rewrite last_lookup, Hlen.
Qed.

(** C10: along any run, no array that a history refers to is ever written
    again, so every entry keeps the value it was appended with; and the entry
    a tick appends is a separate array, out of reach of every in-place
    update, holding the position the body has at the end of that tick. *)
Theorem C10_history_entries_are_independent_copies self bs fs h :
  bodies self = Some bs -> wf h bs ->
  Forall (fun f => Forall (fun bk : nat * Body.Keys => bk.1 ∈ bs) (controls f))
         fs ->
  exists h', run self fs h = Ok (tt, h') /\
    wf h' bs /\
    (forall b o l, b ∈ bs -> objects h !! b = Some o ->
       l ∈ position_history o -> arrays h' !! l = arrays h !! l) /\
    (fs <> [] -> forall b, b ∈ bs ->
       exists o' c, objects h' !! b = Some o' /\
         last (position_history o') = Some c /\
         c <> position o' /\
         not_live h' bs c /\
         arrays h' !! c = arrays h' !! position o').
Proof.
  intros Hbs Hwf Hfs.
  destruct (wf_snapshots _ _ Hwf) as [ss Hss].
  destruct (run_refines self bs fs h ss Hbs Hwf Hss Hfs)
    as (h' & Hr & Hwf' & Hss' & [_ He]).
  exists h'. split_and!; [done | done | |].
  - intros b o l Hb Ho Hl.
    destruct (history_not_live _ _ _ _ _ Hwf Hb Ho Hl) as [Hlt Hnl].
    by destruct (He l Hlt Hnl).
  - intros Hne b Hb.
    destruct (exists_last Hne) as (fs' & f & ->).
    rewrite run_steps_snoc in Hss'.
    pose proof Hb as Hb'. apply list_elem_of_lookup in Hb' as [i Hi].
    destruct (snapshots_lookup _ _ _ _ _ Hss' Hi) as (s' & Hsi & Hs').
    destruct (frame_step_lookup _ _ _ _ _ _ Hsi) as (s & _ & Hh).
    destruct (snapshot_inv _ _ _ Hs') as (o' & Ho' & _ & Hp & _ & _ & Hhs).
    destruct (mapM_last _ _ _ (s_position s') Hhs) as (c & Hc & Hcv).
    { rewrite Hh. apply last_push_capped. }
    assert (Hcin : c ∈ position_history o').
    { rewrite last_lookup in Hc. by eapply list_elem_of_lookup_2. }
    destruct (history_not_live _ _ _ _ _ Hwf' Hb Ho' Hcin) as [_ Hnl].
    exists o', c. split_and!; [done | done | | done | congruence].
    intros ->. apply (Hnl b o' Hb Ho'). unfold live_locs.
    apply elem_of_cons. by left.
Qed.

Lemma C10_witness :
  exists h', run scenario_system [mkFrame [(0%nat, kill_key)] 0.001;
                                  mkFrame [(0%nat, no_keys)] 0.001]
                 (scenario_heap 0.0001) = Ok (tt, h') /\
    wf h' [0; 1]%nat.
Proof.
  destruct (C10_history_entries_are_independent_copies scenario_system
              [0; 1]%nat
              [mkFrame [(0%nat, kill_key)] 0.001;
               mkFrame [(0%nat, no_keys)] 0.001]
              (scenario_heap 0.0001))
    as (h' & Hr & Hwf & _).
  - reflexivity.
  - apply (bool_decide_unpack _). vm_compute. reflexivity.
  - apply (bool_decide_unpack _). vm_compute. reflexivity.
  - exists h'. split; assumption.
Defined.

(** ** The kill input *)

(** C9, what the code does on the kill input: the control adapter binds the
    number 0 to [velocity], not an array; [get_state] then raises TypeError.
    The arrays, the position, the heading and the history are untouched, and
    the next [integrate] binds [velocity] to a new array again, holding
    [0 + 0.5*(a0 + a1)*dt]. *)
Theorem C9_kill_binds_a_number :
  exists h' me',
    Body.update_rocket_controls 0%nat kill_key (scenario_heap 0.0001)
    = Ok (tt, h') /\
    objects h' !! 0%nat = Some me' /\
    velocity me' = PyScalar 0 /\
    Body.get_state 0%nat h' = Raise TypeError /\
    arrays h' = arrays (scenario_heap 0.0001) /\
    position me' = 0%nat /\ angle me' = Some 0 /\ position_history me' = [] /\
    snapshot h' 0%nat
    = Some (mkSnapshot 0.0001 (0, 1.2) (0, 0) (Controllable 0 0) []) /\
    exists h'' me'' l v,
      System.integrate scenario_system 0.001 h' = Ok (tt, h'') /\
      objects h'' !! 0%nat = Some me'' /\
      velocity me'' = PyArr l /\
      arrays h'' !! l = Some v.
Proof.
  eexists. eexists. split; [reflexivity|].
  split; [reflexivity|]. split; [reflexivity|]. split; [reflexivity|].
  split; [reflexivity|]. split; [reflexivity|]. split; [reflexivity|].
  split; [reflexivity|]. split; [reflexivity|].
  eexists. eexists. eexists. eexists.
  split; [reflexivity|]. split; [reflexivity|]. split; reflexivity.
Qed.

(** The same for every rocket on every heap. *)
Lemma kill_on_any_rocket h b o a p keys :
  objects h !! b = Some o -> is_rocket o = true -> angle o = Some a ->
  arrays h !! position o = Some p ->
  Body.K_DOWN keys = true ->
  exists h' o',
    Body.update_rocket_controls b keys h = Ok (tt, h') /\
    arrays h' = arrays h /\
    objects h' !! b = Some o' /\
    velocity o' = PyScalar 0 /\
    position o' = position o /\
    position_history o' = position_history o /\
    Body.get_state b h' = Raise TypeError.
Proof.
  intros Ho Hrk Ha Hp Hdown.
  assert (Hbl : (b < length (objects h))%nat)
    by (apply lookup_lt_is_Some; eauto).
  pose proof (update_rocket_controls_run h b o a keys Ho Hrk Ha) as Hrun.
  rewrite Hdown in Hrun.
  eexists _, _. split; [exact Hrun|].
  split; [done|]. split; [by apply list_lookup_insert_eq|].
  split; [done|]. split; [done|]. split; [done|].
  unfold Body.get_state. rewrite bind_get_body_insert by done.
  cbn [position velocity]. unfold bind, read_arr. cbn [arrays].
  by rewrite Hp.
Qed.

(** ** Construction-time misuse *)

(** C7, as the code has it: nothing is validated.  A state vector of any
    length is accepted and cut to its complete quadruples; a body takes any
    mass; [integrate] on an empty body list succeeds and leaves the heap as it
    is; only a system built with neither a state nor bodies makes [integrate]
    raise, and the exception is Python's TypeError. *)
Theorem C7_no_validation :
  (forall G (st : list R) bodies0 h,
     exists bs h',
       System.__init__ G (Some st) bodies0 h = Ok (mkSystem G (Some bs), h') /\
       length bs = (length st / 4)%nat /\
       System.get_state (mkSystem G (Some bs)) h'
       = Ok (take (length st / 4 * 4) st, h')) /\
  (forall m p v r h,
     exists b h' o,
       Body.__init__ m p v r h = Ok (b, h') /\
       objects h' !! b = Some o /\ mass o = m) /\
  (forall G dt h, System.integrate (mkSystem G (Some [])) dt h = Ok (tt, h)) /\
  (forall G h, System.__init__ G None None h = Ok (mkSystem G None, h)) /\
  (forall G dt h, System.integrate (mkSystem G None) dt h = Raise TypeError).
Proof.
  split_and!.
  - intros G st bodies0 h.
    destruct (init_from_state G st bodies0 h) as (bs & h' & ? & _ & ? & _ & ?).
    by exists bs, h'.
  - intros m p v r h. eexists _, _, _. split; [apply body_init_ok|].
    simpl. split; [by rewrite lookup_app_r, Nat.sub_diag by lia | done].
  - done.
  - done.
  - done.
Qed.

(** A state vector of five numbers, a negative mass and an empty system all
    go through without an error. *)
Lemma C7_counterexample :
  (exists bs h',
     System.__init__ 1 (Some [0; 0; 1; 0; 2]) None empty_heap
     = Ok (mkSystem 1 (Some bs), h') /\
     System.get_state (mkSystem 1 (Some bs)) h' = Ok ([0; 0; 1; 0], h')) /\
  (exists b h', Body.__init__ (-1) (0, 0) (0, 0) false empty_heap = Ok (b, h')) /\
  System.integrate (mkSystem 1 (Some [])) 0.001 empty_heap
  = Ok (tt, empty_heap).
Proof.
  split_and!.
  - eexists. eexists. split; reflexivity.
  - eexists. eexists. reflexivity.
  - reflexivity.
Qed.

(** ** The main loop *)

(** An iteration of the loop of [pygame_run] is a tick with one call of the
    control adapter, on the fourth body, and [dt = 0.001]. *)
Lemma pygame_frame_is_frame system bs rocket keys h :
  bodies system = Some bs -> bs !! 3%nat = Some rocket ->
  pygame_frame system keys h
  = frame system (mkFrame [(rocket, keys)] 0.001) h.
Proof.
  intros Hbs Hr. unfold pygame_frame, frame. cbn [controls dt for_each].
  step_with (the_bodies_ok _ _ h Hbs). step_with (index_ok _ _ _ h Hr).
  cbn [fst snd]. rewrite ?bind_assoc. unfold bind.
  destruct (Body.update_rocket_controls rocket keys h) as [[[] h1]|e]; done.
Qed.

Lemma pygame_loop_is_run system bs rocket inputs h :
  bodies system = Some bs -> bs !! 3%nat = Some rocket ->
  pygame_loop system inputs h
  = run system (map (fun keys => mkFrame [(rocket, keys)] 0.001) inputs) h.
Proof.
  intros Hbs Hr. unfold pygame_loop, run. revert h.
  induction inputs as [|keys inputs IH]; intros h; [done|].
  cbn [map for_each]. unfold bind.
  rewrite (pygame_frame_is_frame system bs rocket keys h Hbs Hr).
  destruct (frame system _ h) as [[[] h1]|e]; [apply IH | done].
Qed.

(** [generate()] on the empty heap: four bodies, in this order, on a
    well-formed heap. *)
Lemma generate_ok :
  exists h,
    generate empty_heap = Ok (mkSystem 1 (Some [0; 1; 2; 3]%nat), h) /\
    wf h [0; 1; 2; 3]%nat /\
    (kind_of <$> objects h !! 3%nat) = Some (Some (Controllable 0.0001 0)).
Proof.
  eexists. split; [reflexivity|]. split; [|reflexivity].
  by apply (bool_decide_unpack _); vm_compute.
Qed.

(** The loop of [pygame_run] on the generated system never raises, whatever
    the keys, and it is a run of the value-level model. *)
Lemma pygame_loop_total inputs :
  exists system h0 ss0 h',
    generate empty_heap = Ok (system, h0) /\
    bodies system = Some [0; 1; 2; 3]%nat /\
    snapshots h0 [0; 1; 2; 3]%nat = Some ss0 /\
    pygame_loop system inputs h0 = Ok (tt, h') /\
    wf h' [0; 1; 2; 3]%nat /\
    snapshots h' [0; 1; 2; 3]%nat
    = Some (run_steps (G system) [0; 1; 2; 3]%nat
              (map (fun keys => mkFrame [(3%nat, keys)] 0.001) inputs) ss0).
Proof.
  destruct generate_ok as (h0 & Hg & Hwf & _).
  destruct (wf_snapshots _ _ Hwf) as [ss0 Hss0].
  destruct (run_refines (mkSystem 1 (Some [0; 1; 2; 3]%nat)) [0; 1; 2; 3]%nat
              (map (fun keys => mkFrame [(3%nat, keys)] 0.001) inputs)
              h0 ss0 eq_refl Hwf Hss0)
    as (h' & Hr & Hwf' & Hss' & _).
  { apply Forall_forall. intros f (keys & -> & _)%list_elem_of_fmap.
    constructor; [|constructor]. cbn [fst].
    apply elem_of_cons; right. apply elem_of_cons; right.
    apply elem_of_cons; right. apply elem_of_cons; by left. }
  exists (mkSystem 1 (Some [0; 1; 2; 3]%nat)), h0, ss0, h'.
  split_and!; try done.
  by rewrite (pygame_loop_is_run _ [0; 1; 2; 3]%nat 3%nat).
Qed.

(** * More about the code *)

(** ** One tick, body by body *)

Lemma vadd_comm u v : vadd u v = vadd v u.
Proof. apply vec_eq; simpl; lra. Qed.

Lemma vscale_vadd c u v : vscale c (vadd u v) = vadd (vscale c u) (vscale c v).
Proof. apply vec_eq; simpl; lra. Qed.

Lemma vscale_zero c : vscale c vzero = vzero.
Proof. apply vec_eq; simpl; lra. Qed.

Lemma vsum_cons v vs : vsum (v :: vs) = vadd v (vsum vs).
Proof. done. Qed.

Lemma same_place_refl s : same_place s s.
Proof. done. Qed.

Lemma acceleration_of_same_place G softening s s' others others' :
  same_place s s' -> Forall2 same_place others others' ->
  acceleration_of G softening s' others' = acceleration_of G softening s others.
Proof.
  intros (Hm & Hp & Hk) Hall. unfold acceleration_of. rewrite Hk.
  destruct (s_kind s); [|done]. f_equal.
  induction Hall as [|o o' os os' (Hmo & Hpo & _) _ IH]; [done|].
  cbn [map]. by rewrite IH, Hmo, Hpo, Hp.
Qed.

Lemma accelerations_of_same_place G ss ss' :
  Forall2 same_place ss ss' ->
  accelerations_of G ss' = accelerations_of G ss.
Proof.
  intros Hall. apply list_eq. intros i. unfold accelerations_of.
  rewrite !list_lookup_imap.
  destruct (ss !! i) as [s|] eqn:Hs.
  - destruct (Forall2_lookup_l _ _ _ _ _ Hall Hs) as (s' & -> & Hss).
    simpl. f_equal.
    apply acceleration_of_same_place; [done | by apply Forall2_delete].
  - apply Forall2_length in Hall.
    rewrite (lookup_ge_None_2 ss' i); [done|].
    apply lookup_ge_None in Hs. lia.
Qed.

Lemma kick_same_place dt ss accs :
  length accs = length ss ->
  Forall2 same_place ss (zip_with (kick dt) ss accs).
Proof.
  revert accs. induction ss as [|s ss IH]; intros [|a accs] Hlen;
    try done; simpl in *; constructor; [done | apply IH; lia].
Qed.

(** The tick of body [i], spelled out. *)
Lemma verlet_step_at G dt ss i s :
  ss !! i = Some s ->
  let a0 := accelerations_of G ss in
  let moved := zip_with (move dt) ss a0 in
  exists x0 x1,
    a0 !! i = Some x0 /\
    accelerations_of G moved !! i = Some x1 /\
    x0 = acceleration_of G Body.default_softening s (delete i ss) /\
    x1 = acceleration_of G Body.default_softening (move dt s x0)
           (delete i moved) /\
    verlet_step G dt ss !! i = Some (kick dt (move dt s x0) (x0, x1)).
Proof.
  intros Hs a0 moved.
  assert (Hx0 : a0 !! i
                = Some (acceleration_of G Body.default_softening s (delete i ss))).
  { unfold a0, accelerations_of. by rewrite list_lookup_imap, Hs. }
  assert (Hm : moved !! i = Some (move dt s
                 (acceleration_of G Body.default_softening s (delete i ss)))).
  { unfold moved. by rewrite lookup_zip_with, Hs, Hx0. }
  assert (Hx1 : accelerations_of G moved !! i
                = Some (acceleration_of G Body.default_softening
                          (move dt s (acceleration_of G Body.default_softening
                                        s (delete i ss)))
                          (delete i moved))).
  { unfold accelerations_of at 1. by rewrite list_lookup_imap, Hm. }
  eexists _, _. split; [exact Hx0|]. split; [exact Hx1|].
  split; [done|]. split; [done|].
  unfold verlet_step. cbv zeta. fold a0. fold moved.
  apply lookup_zip_with_Some. eexists _, _. split; [done|].
  split; [exact Hm|].
  by rewrite (lookup_zip_with pair a0 (accelerations_of G moved) i), Hx0, Hx1.
Qed.

(** The mass and the kind of a body are not touched by a tick. *)
Lemma verlet_step_keeps G dt ss :
  Forall2 (fun s s' => s_mass s' = s_mass s /\ s_kind s' = s_kind s)
          ss (verlet_step G dt ss).
Proof.
  apply Forall2_same_length_lookup. split; [by rewrite length_verlet_step|].
  intros i s s' Hs Hs'.
  destruct (verlet_step_at G dt ss i s Hs) as (x0 & x1 & _ & _ & _ & _ & E).
  rewrite E in Hs'. by injection Hs' as <-.
Qed.

(** ** Running a tick backwards *)

Lemma verlet_step_reverse G dt ss :
  Forall2 same_motion ss (verlet_step G (- dt) (verlet_step G dt ss)).
Proof.
  set (a0 := accelerations_of G ss).
  set (moved := zip_with (move dt) ss a0).
  set (a1 := accelerations_of G moved).
  set (ss1 := verlet_step G dt ss).
  assert (Hla0 : length a0 = length ss)
    by (unfold a0; by rewrite length_accelerations_of).
  assert (Hlm : length moved = length ss)
    by (unfold moved; rewrite length_zip_with; lia).
  assert (Hla1 : length a1 = length ss)
    by (unfold a1; rewrite length_accelerations_of; lia).
  assert (Hl1 : length ss1 = length ss)
    by (unfold ss1; by rewrite length_verlet_step).
  (* the accelerations at the end of the tick are the ones of its second
     pass *)
  assert (Ha1 : accelerations_of G ss1 = a1).
  { apply accelerations_of_same_place. unfold ss1, verlet_step. cbv zeta.
    fold a0. fold moved. fold a1. apply kick_same_place.
    rewrite length_zip_with. lia. }
  (* pointwise, the tick *)
  assert (Hat : forall i s, ss !! i = Some s ->
            exists x0 x1, a0 !! i = Some x0 /\ a1 !! i = Some x1 /\
              ss1 !! i = Some (kick dt (move dt s x0) (x0, x1))).
  { intros i s Hs.
    destruct (verlet_step_at G dt ss i s Hs)
      as (x0 & x1 & H0 & H1 & _ & _ & E).
    by exists x0, x1. }
  (* moving back from the end of the tick gives the old places *)
  set (back := zip_with (move (- dt)) ss1 (accelerations_of G ss1)).
  assert (Hback : Forall2 same_place ss back).
  { apply Forall2_same_length_lookup. split.
    - unfold back. rewrite length_zip_with, length_accelerations_of. lia.
    - intros i s sb Hs Hsb.
      destruct (Hat i s Hs) as (x0 & x1 & H0 & H1 & E).
      unfold back in Hsb. rewrite Ha1, lookup_zip_with, E, H1 in Hsb.
      injection Hsb as <-. split_and!; [done | | done].
      unfold move, kick, with_history, with_velocity, with_position.
      cbn [s_position s_velocity s_mass s_kind s_history fst snd].
      apply vec_eq; unfold vadd, vscale, vscale_r; cbn [fst snd]; ring. }
  assert (Ha0 : accelerations_of G back = a0)
    by (by apply accelerations_of_same_place).
  apply Forall2_same_length_lookup. split.
  - by rewrite length_verlet_step.
  - intros i s s2 Hs Hs2.
    destruct (Hat i s Hs) as (x0 & x1 & H0 & H1 & E).
    destruct (verlet_step_at G (- dt) ss1 i _ E)
      as (y0 & y1 & Hy0 & Hy1 & _ & _ & E2).
    fold ss1 in Hs2. rewrite E2 in Hs2. injection Hs2 as <-.
    rewrite Ha1, H1 in Hy0. injection Hy0 as <-.
    fold back in Hy1. rewrite Ha0, H0 in Hy1. injection Hy1 as <-.
    unfold same_motion, move, kick, with_history, with_velocity,
      with_position.
    cbn [s_position s_velocity s_mass s_kind s_history fst snd].
    split_and!; [done | | | done];
      apply vec_eq; unfold vadd, vscale, vscale_r; cbn [fst snd]; ring.
Qed.

(** ** A tick of length zero *)

Lemma verlet_step_zero G ss :
  Forall2 (fun s s' => same_motion s s' /\
             s_history s' = push_capped (s_history s) (s_position s))
          ss (verlet_step G 0 ss).
Proof.
  apply Forall2_same_length_lookup. split; [by rewrite length_verlet_step|].
  intros i s s' Hs Hs'.
  destruct (verlet_step_at G 0 ss i s Hs) as (x0 & x1 & _ & _ & _ & _ & E).
  rewrite E in Hs'. injection Hs' as <-.
  unfold same_motion, move, kick, with_history, with_velocity, with_position.
  cbn [s_position s_velocity s_mass s_kind s_history fst snd].
  assert (Hp : vadd (s_position s)
                 (vadd (vscale_r (s_velocity s) 0)
                       (vscale_r (vscale 0.5 x0) (0 ^ 2))) = s_position s)
    by (apply vec_eq; unfold vadd, vscale, vscale_r; cbn [fst snd]; ring).
  rewrite Hp. split_and!; try done.
  apply vec_eq; unfold vadd, vscale, vscale_r; cbn [fst snd]; ring.
Qed.

(** ** The tick of the rocket *)

Lemma verlet_step_rocket G dt ss i s t a :
  ss !! i = Some s -> s_kind s = Controllable t a ->
  exists s', verlet_step G dt ss !! i = Some s' /\
    s_position s'
    = vadd (s_position s)
           (vadd (vscale_r (s_velocity s) dt)
                 (vscale_r (vscale 0.5 (Body.thrust_acceleration t a))
                           (dt ^ 2))) /\
    s_velocity s'
    = vadd (s_velocity s) (vscale_r (Body.thrust_acceleration t a) dt) /\
    s_kind s' = Controllable t a /\ s_mass s' = s_mass s.
Proof.
  intros Hs Hk.
  destruct (verlet_step_at G dt ss i s Hs) as (x0 & x1 & _ & _ & E0 & E1 & E).
  assert (x0 = Body.thrust_acceleration t a) as ->
    by (rewrite E0; unfold acceleration_of; by rewrite Hk).
  assert (x1 = Body.thrust_acceleration t a) as ->.
  { rewrite E1. unfold acceleration_of, move, with_position.
    cbn [s_kind]. by rewrite Hk. }
  eexists. split; [exact E|].
  unfold move, kick, with_history, with_velocity, with_position.
  cbn [s_position s_velocity s_mass s_kind s_history fst snd].
  split_and!; [done | | done | done].
  apply vec_eq; unfold vadd, vscale, vscale_r; cbn [fst snd]; lra.
Qed.

(** ** Momentum *)

Lemma norm_vsub_sym u v : norm (vsub u v) = norm (vsub v u).
Proof. unfold norm, vsub; cbn [fst snd]. f_equal. ring. Qed.

(** Action and reaction: what [o] does to [s] and what [s] does to [o]. *)
Lemma gravity_term_antisym G softening s o :
  vadd (vscale (s_mass s)
          (Body.gravity_term G (s_mass o)
             (vsub (s_position o) (s_position s)) softening))
       (vscale (s_mass o)
          (Body.gravity_term G (s_mass s)
             (vsub (s_position s) (s_position o)) softening))
  = vzero.
Proof.
  unfold Body.gravity_term.
  rewrite (norm_vsub_sym (s_position s) (s_position o)).
  set (d := Body.softened_cube _ _).
  apply vec_eq; unfold vadd, vscale, vdiv, vsub, vzero, Rdiv; cbn [fst snd];
    ring.
Qed.

Lemma vsum_imap_vadd {A} (f g : nat -> A -> vec) (l : list A) :
  vsum (imap (fun i x => vadd (f i x) (g i x)) l)
  = vadd (vsum (imap f l)) (vsum (imap g l)).
Proof.
  revert f g. induction l as [|x l IH]; intros f g.
  - by rewrite vadd_zero_l.
  - rewrite !imap_cons, !vsum_cons.
    change ((fun i x0 => vadd (f i x0) (g i x0)) ∘ S)
      with (fun i x0 => vadd ((f ∘ S) i x0) ((g ∘ S) i x0)).
    rewrite IH. apply vec_eq; unfold vadd; cbn [fst snd]; ring.
Qed.

Lemma vsum_map_vadd {A} (f g : A -> vec) (l : list A) :
  vsum (map (fun x => vadd (f x) (g x)) l)
  = vadd (vsum (map f l)) (vsum (map g l)).
Proof.
  induction l as [|x l IH]; [by rewrite vadd_zero_l|].
  cbn [map]. rewrite !vsum_cons, IH.
  apply vec_eq; unfold vadd; cbn [fst snd]; ring.
Qed.

Lemma vsum_map_vscale {A} c (f : A -> vec) (l : list A) :
  vsum (map (fun x => vscale c (f x)) l) = vscale c (vsum (map f l)).
Proof.
  induction l as [|x l IH]; [by rewrite vscale_zero|].
  cbn [map]. by rewrite !vsum_cons, IH, vscale_vadd.
Qed.

Lemma vsum_map_zero {A} (f : A -> vec) (l : list A) :
  (forall x, f x = vzero) -> vsum (map f l) = vzero.
Proof.
  intros Hf. induction l as [|x l IH]; [done|].
  cbn [map]. by rewrite vsum_cons, IH, Hf, vadd_zero_l.
Qed.

Lemma imap_no_index {A B} (f : A -> B) (l : list A) :
  imap (fun _ x => f x) l = map f l.
Proof. apply (imap_const f). Qed.

Lemma total_force_imap ss (g : nat -> Snapshot -> vec) :
  total_force ss (imap g ss)
  = vsum (imap (fun i s => vscale (s_mass s) (g i s)) ss).
Proof.
  unfold total_force. revert g. induction ss as [|s ss IH]; intros g; [done|].
  rewrite !imap_cons. cbn [zip_with]. rewrite !vsum_cons. by rewrite IH.
Qed.

(** In a system without a rocket the forces cancel. *)
Lemma total_force_passive G ss :
  Forall (fun s => s_kind s = Passive) ss ->
  total_force ss (accelerations_of G ss) = vzero.
Proof.
  intros Hall. unfold accelerations_of. rewrite total_force_imap.
  induction Hall as [|x l Hx Hall IH]; [done|].
  rewrite imap_cons, vsum_cons. cbn [delete list_delete].
  set (term := fun s o : Snapshot =>
         Body.gravity_term G (s_mass o)
           (vsub (s_position o) (s_position s)) Body.default_softening).
  rewrite (imap_ext _
             (fun j s => vadd (vscale (s_mass s) (term s x))
                (vscale (s_mass s)
                   (acceleration_of G Body.default_softening s (delete j l))))).
  2:{ intros j s Hs. cbn [compose delete list_delete].
      assert (Hk : s_kind s = Passive).
      { rewrite Forall_forall in Hall. apply Hall.
        by eapply list_elem_of_lookup_2. }
      unfold acceleration_of. rewrite Hk. cbn [map].
      by rewrite vsum_cons, vscale_vadd. }
  rewrite vsum_imap_vadd, IH, vadd_zero_r.
  rewrite (imap_no_index (fun s => vscale (s_mass s) (term s x))).
  unfold acceleration_of. rewrite Hx.
  rewrite <- vsum_map_vscale, <- vsum_map_vadd.
  apply vsum_map_zero. intros o. apply gravity_term_antisym.
Qed.

Lemma momentum_move dt ss accs :
  length accs = length ss ->
  momentum (zip_with (move dt) ss accs) = momentum ss.
Proof.
  unfold momentum. revert accs.
  induction ss as [|s ss IH]; intros [|a accs] Hlen; try done.
  cbn [zip_with map]. rewrite !vsum_cons, IH by (simpl in Hlen; lia). done.
Qed.

Lemma total_force_move dt ss accs accs' :
  length accs = length ss ->
  total_force (zip_with (move dt) ss accs) accs' = total_force ss accs'.
Proof.
  unfold total_force. revert accs accs'.
  induction ss as [|s ss IH]; intros [|a accs] [|a' accs'] Hlen; try done.
  cbn [zip_with]. rewrite !vsum_cons, IH by (simpl in Hlen; lia). done.
Qed.

Lemma momentum_kick dt ss a0 a1 :
  length a0 = length ss -> length a1 = length ss ->
  momentum (zip_with (kick dt) ss (zip a0 a1))
  = vadd (momentum ss)
         (vscale (0.5 * dt) (vadd (total_force ss a0) (total_force ss a1))).
Proof.
  unfold momentum, total_force. revert a0 a1.
  induction ss as [|s ss IH]; intros [|x0 a0] [|x1 a1] H0 H1; try done.
  - cbn [zip zip_with map]. rewrite !vadd_zero_l. by rewrite vscale_zero.
  - simpl in H0, H1. cbn [zip zip_with map]. rewrite !vsum_cons.
    rewrite (IH a0 a1) by lia.
    unfold kick, with_history, with_velocity.
    cbn [s_mass s_velocity fst snd].
    apply vec_eq; unfold vadd, vscale, vscale_r; cbn [fst snd]; ring.
Qed.

Lemma mass_moment_move dt ss accs :
  length accs = length ss ->
  mass_moment (zip_with (move dt) ss accs)
  = vadd (mass_moment ss)
         (vadd (vscale dt (momentum ss))
               (vscale (0.5 * dt ^ 2) (total_force ss accs))).
Proof.
  unfold mass_moment, momentum, total_force. revert accs.
  induction ss as [|s ss IH]; intros [|a accs] Hlen; try done.
  - cbn [zip_with map]. rewrite !vscale_zero. by rewrite !vadd_zero_l.
  - simpl in Hlen. cbn [zip_with map]. rewrite !vsum_cons.
    rewrite (IH accs) by lia.
    unfold move, with_position. cbn [s_mass s_position].
    apply vec_eq; unfold vadd, vscale, vscale_r; cbn [fst snd]; ring.
Qed.

Lemma mass_moment_kick dt ss accs :
  length accs = length ss ->
  mass_moment (zip_with (kick dt) ss accs) = mass_moment ss.
Proof.
  unfold mass_moment. revert accs.
  induction ss as [|s ss IH]; intros [|a accs] Hlen; try done.
  cbn [zip_with map]. rewrite !vsum_cons, IH by (simpl in Hlen; lia). done.
Qed.

Lemma move_passive dt ss accs :
  Forall (fun s => s_kind s = Passive) ss ->
  Forall (fun s => s_kind s = Passive) (zip_with (move dt) ss accs).
Proof.
  intros Hall. revert accs.
  induction Hall as [|s ss Hs _ IH]; intros [|a accs]; try constructor;
    [done | apply IH].
Qed.

(** A tick of a system without a rocket keeps the total momentum, and the
    mass-weighted sum of the positions advances by [dt] times it. *)
Lemma verlet_step_momentum G dt ss :
  Forall (fun s => s_kind s = Passive) ss ->
  momentum (verlet_step G dt ss) = momentum ss /\
  mass_moment (verlet_step G dt ss)
  = vadd (mass_moment ss) (vscale dt (momentum ss)).
Proof.
  intros Hall. unfold verlet_step. cbv zeta.
  set (a0 := accelerations_of G ss).
  set (moved := zip_with (move dt) ss a0).
  set (a1 := accelerations_of G moved).
  assert (Hla0 : length a0 = length ss)
    by (unfold a0; by rewrite length_accelerations_of).
  assert (Hlm : length moved = length ss)
    by (unfold moved; rewrite length_zip_with; lia).
  assert (Hla1 : length a1 = length ss)
    by (unfold a1; rewrite length_accelerations_of; lia).
  assert (F0 : total_force ss a0 = vzero) by (by apply total_force_passive).
  assert (F1 : total_force moved a1 = vzero)
    by (by apply total_force_passive, move_passive).
  split.
  - rewrite momentum_kick by lia. rewrite F1.
    unfold moved at 2. rewrite total_force_move by done. rewrite F0.
    unfold moved. rewrite momentum_move by done.
    by rewrite vadd_zero_l, vscale_zero, vadd_zero_r.
  - rewrite mass_moment_kick by (rewrite length_zip_with; lia).
    unfold moved. rewrite mass_moment_move by done.
    by rewrite F0, vscale_zero, vadd_zero_r.
Qed.

(** ** Reading the state *)

Lemma body_get_state_snapshot h bs b s :
  wf h bs -> b ∈ bs -> snapshot h b = Some s ->
  (has_array_velocity h b -> Body.get_state b h = Ok (state_of s, h)) /\
  (has_number_velocity h b -> Body.get_state b h = Raise TypeError).
Proof.
  intros Hwf Hb Hs.
  destruct (snapshot_inv _ _ _ Hs) as (o & Ho & Hm & Hp & Hvel & Hkind & Hhs).
  split.
  - intros (o1 & l & Ho1 & Hl). assert (o1 = o) as -> by congruence.
    unfold velocity_value in Hvel. rewrite Hl in Hvel.
    apply (body_get_state_ok _ _ _ _ _ _ Ho Hp Hl Hvel).
  - intros (o1 & x & Ho1 & Hx). assert (o1 = o) as -> by congruence.
    unfold Body.get_state. step_body Ho. step_read Hp. by rewrite Hx.
Qed.

Lemma extend_raises h bs acc :
  Forall (fun b => (exists q, Body.get_state b h = Ok (q, h)) \/
                   Body.get_state b h = Raise TypeError) bs ->
  Exists (fun b => Body.get_state b h = Raise TypeError) bs ->
  System.extend bs acc h = Raise TypeError.
Proof.
  intros Hall Hex. revert acc.
  induction Hall as [|b bs Hb _ IH]; intros acc; [by inversion Hex|].
  simpl. destruct Hb as [[q Hq]|Hq].
  - step_with Hq. apply IH.
    inversion Hex as [? ? Hx|]; subst; [congruence | done].
  - by rewrite (bind_raise _ _ _ _ Hq).
Qed.

Lemma velocity_array_or_number h bs b :
  wf h bs -> b ∈ bs -> has_array_velocity h b \/ has_number_velocity h b.
Proof.
  intros Hwf Hb. destruct (wf_body _ _ _ Hwf Hb) as (o & Ho & _).
  destruct (velocity o) as [x|l] eqn:Hv; [right | left]; by eexists _, _.
Qed.

Lemma system_get_state_ok self bs h ss :
  bodies self = Some bs -> wf h bs -> snapshots h bs = Some ss ->
  Forall (has_array_velocity h) bs ->
  System.get_state self h = Ok (concat (map state_of ss), h).
Proof.
  intros Hbs Hwf Hss Hall. unfold System.get_state.
  step_with (the_bodies_ok _ _ h Hbs).
  rewrite (extend_ok h bs (map state_of ss)); [done|].
  apply Forall2_fmap_r, Forall2_same_length_lookup. split.
  - exact (length_mapM _ _ _ Hss).
  - intros i b s Hb Hs.
    destruct (snapshots_lookup _ _ _ _ _ Hss Hb) as (s1 & Hs1 & Hsb).
    assert (s1 = s) as -> by congruence.
    assert (Hin : b ∈ bs) by (by eapply list_elem_of_lookup_2).
    apply (body_get_state_snapshot h bs b s Hwf Hin Hsb).
    rewrite Forall_forall in Hall. by apply Hall.
Qed.

Lemma system_get_state_raises self bs h :
  bodies self = Some bs -> wf h bs ->
  Exists (has_number_velocity h) bs ->
  System.get_state self h = Raise TypeError.
Proof.
  intros Hbs Hwf Hex. unfold System.get_state.
  step_with (the_bodies_ok _ _ h Hbs).
  apply extend_raises.
  - apply Forall_forall. intros b Hb.
    destruct (wf_snapshot _ _ _ Hwf Hb) as [s Hs].
    destruct (body_get_state_snapshot h bs b s Hwf Hb Hs) as [Hok Hraise].
    destruct (velocity_array_or_number h bs b Hwf Hb); eauto.
  - apply Exists_exists. apply Exists_exists in Hex as (b & Hb & Hx).
    exists b. split; [done|].
    destruct (wf_snapshot _ _ _ Hwf Hb) as [s Hs].
    by apply (body_get_state_snapshot h bs b s Hwf Hb Hs).
Qed.

(** ** What a tick does to the objects *)

Lemma bind_inv {A B} (m : M A) (k : A -> M B) h b h' :
  bind m k h = Ok (b, h') ->
  exists a h1, m h = Ok (a, h1) /\ k a h1 = Ok (b, h').
Proof.
  unfold bind. destruct (m h) as [[a h1]|e]; [|done]. by exists a, h1.
Qed.

Lemma get_body_inv b h o h' :
  get_body b h = Ok (o, h') -> h' = h /\ objects h !! b = Some o.
Proof.
  unfold get_body. destruct (objects h !! b); [|done]. by intros [= -> ->].
Qed.

Lemma read_arr_inv l h v h' :
  read_arr l h = Ok (v, h') -> h' = h /\ arrays h !! l = Some v.
Proof.
  unfold read_arr. destruct (arrays h !! l); [|done]. by intros [= -> ->].
Qed.

Lemma load_inv v h n h' : load v h = Ok (n, h') -> h' = h.
Proof.
  destruct v as [x|l]; simpl; [by intros [= _ ->]|].
  intros (a & h1 & (-> & _)%read_arr_inv & [= _ ->])%bind_inv. done.
Qed.

Lemma index_inv {A} (l : list A) i h x h' :
  index l i h = Ok (x, h') -> h' = h /\ l !! i = Some x.
Proof. unfold index. destruct (l !! i); [|done]. by intros [= -> ->]. Qed.

Lemma write_arr_inv l v h h' :
  write_arr l v h = Ok (tt, h') -> objects h' = objects h.
Proof.
  unfold write_arr. destruct (arrays h !! l); [|done]. by intros [= <-].
Qed.

Lemma modify_inv b f h h' :
  modify b f h = Ok (tt, h') ->
  exists o, objects h !! b = Some o /\
            objects h' = <[b := f o]> (objects h).
Proof.
  unfold modify. destruct (objects h !! b) as [o|]; [|done].
  intros [= <-]. by exists o.
Qed.

Lemma rebinds_trans b (R1 R2 R : Body -> Body -> Prop) h1 h2 h3 :
  (forall o1 o2 o3, R1 o1 o2 -> R2 o2 o3 -> R o1 o3) ->
  rebinds b R1 h1 h2 -> rebinds b R2 h2 h3 -> rebinds b R h1 h3.
Proof.
  intros HR [Hf1 (o1 & o2 & Ho1 & Ho2 & H12)] [Hf2 (o2' & o3 & Ho2' & Ho3 & H23)].
  assert (o2' = o2) as -> by congruence.
  split; [intros b' Hb'; by rewrite Hf2, Hf1|].
  exists o1, o3. eauto.
Qed.

Lemma modify_rebinds b f h h' :
  modify b f h = Ok (tt, h') -> rebinds b (fun o o' => o' = f o) h h'.
Proof.
  intros (o & Ho & Hobj)%modify_inv. split.
  - intros b' Hb'. rewrite Hobj. by apply list_lookup_insert_ne.
  - exists o, (f o). split_and!; [done | | done].
    rewrite Hobj. apply list_lookup_insert_eq, lookup_lt_is_Some. eauto.
Qed.

Lemma add_to_velocity_rebinds b d h h' :
  System.add_to_velocity b d h = Ok (tt, h') ->
  rebinds b (fun o o' => exists l, velocity o' = PyArr l) h h'.
Proof.
  unfold System.add_to_velocity.
  intros (o & h1 & (-> & Ho)%get_body_inv & H1)%bind_inv.
  apply bind_inv in H1 as (n & h1 & ->%load_inv & H1).
  destruct (velocity o) as [x|l] eqn:Hv.
  - apply bind_inv in H1 as (l & h1 & Hnew & H1).
    injection Hnew as <- <-.
    apply modify_rebinds in H1 as [Hf (o1 & o2 & Ho1 & Ho2 & ->)].
    split; [done|]. exists o, (set_velocity o1 (PyArr (length (arrays h)))).
    split_and!; [done | done | by eexists].
  - apply write_arr_inv in H1. split; [by rewrite H1|].
    exists o, o. rewrite H1. split_and!; [done | done | by eexists].
Qed.

Lemma append_position_rebinds b h h' :
  System.append_position b h = Ok (tt, h') ->
  rebinds b (fun o o' => velocity o' = velocity o) h h'.
Proof.
  unfold System.append_position.
  intros (o & h1 & (-> & Ho)%get_body_inv & H1)%bind_inv.
  apply bind_inv in H1 as (p & h1 & (-> & _)%read_arr_inv & H1).
  apply bind_inv in H1 as (c & h1 & Hnew & H1).
  injection Hnew as <- <-.
  apply modify_rebinds in H1 as [Hf (o1 & o2 & Ho1 & Ho2 & ->)].
  split; [done|]. eexists _, _. split_and!; [exact Ho1 | exact Ho2 | done].
Qed.

Lemma limit_trail_rebinds b h h' :
  System.limit_trail b h = Ok (tt, h') ->
  rebinds b (fun o o' => velocity o' = velocity o) h h'.
Proof.
  unfold System.limit_trail.
  intros (o & h1 & (-> & Ho)%get_body_inv & H1)%bind_inv.
  destruct (_ <? _)%Z.
  - apply modify_rebinds in H1 as [Hf (o1 & o2 & Ho1 & Ho2 & ->)].
    split; [done|]. eexists _, _. split_and!; [exact Ho1 | exact Ho2 | done].
  - injection H1 as <-. split; [done|]. by exists o, o.
Qed.

Lemma update_velocity_rebinds accs naccs dt i b h h' :
  System.update_velocity accs naccs dt (i, b) h = Ok (tt, h') ->
  rebinds b (fun o o' => exists l, velocity o' = PyArr l) h h'.
Proof.
  unfold System.update_velocity. cbn [fst snd].
  intros (a & h1 & (-> & _)%index_inv & H1)%bind_inv.
  apply bind_inv in H1 as (na & h1 & (-> & _)%index_inv & H1).
  apply bind_inv in H1 as ([] & h1 & Hadd%add_to_velocity_rebinds & H1).
  apply bind_inv in H1 as ([] & h2 & Happ%append_position_rebinds & H1).
  apply limit_trail_rebinds in H1.
  eapply rebinds_trans; [| exact Hadd |].
  2:{ eapply rebinds_trans; [| exact Happ | exact H1].
      intros o1 o2 o3 E1 E2. exact (eq_trans E2 E1). }
  intros o1 o2 o3 [l Hl] E. exists l. by rewrite E.
Qed.

(** After the second loop of [integrate] every velocity is an array. *)
Lemma update_velocity_loop accs naccs dt (l : list (nat * nat)) h h' :
  for_each l (System.update_velocity accs naccs dt) h = Ok (tt, h') ->
  (forall b, has_array_velocity h b -> has_array_velocity h' b) /\
  Forall (fun ib => has_array_velocity h' ib.2) l.
Proof.
  revert h. induction l as [|[i b] l IH]; intros h; simpl.
  - intros [= <-]. by split.
  - intros ([] & h1 & Hstep%update_velocity_rebinds & Hrest)%bind_inv.
    destruct (IH _ Hrest) as [Hkeep Hall].
    destruct Hstep as [Hf (o & o' & Ho & Ho' & l' & Hl')].
    assert (Hb : has_array_velocity h1 b) by (by exists o', l').
    split; [|constructor; [by apply Hkeep | done]].
    intros b' (o1 & l1 & Ho1 & Hl1). apply Hkeep.
    destruct (decide (b' = b)) as [->|Hne]; [done|].
    exists o1, l1. by rewrite Hf.
Qed.

Lemma enumerate_from_snd {A} n (l : list A) : (enumerate_from n l).*2 = l.
Proof.
  revert n. induction l as [|x l IH]; intros n; simpl; [done|].
  by rewrite IH.
Qed.

Lemma integrate_binds_arrays self bs dt h ss :
  bodies self = Some bs -> wf h bs -> snapshots h bs = Some ss ->
  exists h', System.integrate self dt h = Ok (tt, h') /\
    wf h' bs /\
    snapshots h' bs = Some (verlet_step (G self) dt ss) /\
    Forall (has_array_velocity h') bs.
Proof.
  intros Hbs Hwf Hss.
  destruct (integrate_passes self bs dt h ss Hbs Hwf Hss)
    as (h1 & h' & _ & _ & _ & _ & _ & Hl2 & Hr & Hwf' & Hss' & _).
  exists h'. split_and!; [done | done | done |].
  apply update_velocity_loop in Hl2 as [_ Hall].
  apply Forall_fmap in Hall. unfold enumerate in Hall.
  by rewrite enumerate_from_snd in Hall.
Qed.

(** ** What no run changes *)

Lemma control_of_keeps keys s :
  s_mass (control_of keys s) = s_mass s /\
  s_position (control_of keys s) = s_position s /\
  (s_kind (control_of keys s) = Passive <-> s_kind s = Passive).
Proof.
  unfold control_of. destruct (s_kind s) eqn:Hk; [by rewrite Hk|].
  split_and!; [done | done |]. cbn [s_kind with_velocity with_kind].
  split; intros; congruence.
Qed.

Lemma apply_control_keeps bs bk ss :
  length bs = length ss ->
  Forall2 same_body
          ss (apply_control bs bk ss).
Proof.
  intros Hlen. apply Forall2_same_length_lookup.
  split; [by rewrite length_apply_control|].
  intros i s s' Hs Hs'. unfold apply_control in Hs'.
  apply lookup_zip_with_Some in Hs' as (b & s1 & -> & _ & Hs1).
  assert (s1 = s) as -> by congruence.
  destruct (decide _); [|done].
  destruct (control_of_keeps bk.2 s) as (? & _ & ?). done.
Qed.

Lemma keeps_trans (l1 l2 l3 : list Snapshot) :
  Forall2 same_body l1 l2 ->
  Forall2 same_body l2 l3 ->
  Forall2 same_body l1 l3.
Proof.
  intros H12. revert l3.
  induction H12 as [|s1 s2 l1 l2 [E1 K1] _ IH]; intros l3 H23;
    inversion H23 as [|? s3 ? l3' [E2 K2] H23']; subst; constructor.
  - split; [congruence | tauto].
  - by apply IH.
Qed.

Lemma controls_keep bs cs ss :
  length bs = length ss ->
  Forall2 same_body
          ss (foldl (fun ss bk => apply_control bs bk ss) ss cs).
Proof.
  revert ss. induction cs as [|bk cs IH]; intros ss Hlen; simpl.
  - apply Forall2_same_length_lookup. split; [done|].
    intros i s s' Hs Hs'. by assert (s' = s) as -> by congruence.
  - eapply keeps_trans; [by apply apply_control_keeps|].
    apply IH. by rewrite length_apply_control.
Qed.

Lemma frame_step_keeps G bs ss f :
  length bs = length ss ->
  Forall2 same_body
          ss (frame_step G bs ss f).
Proof.
  intros Hlen. unfold frame_step.
  eapply keeps_trans; [by apply controls_keep|].
  eapply Forall2_impl; [apply verlet_step_keeps|].
  intros s s' [E K]. split; [done|]. by rewrite K.
Qed.

Lemma run_steps_keep G bs fs ss :
  length bs = length ss ->
  Forall2 same_body
          ss (run_steps G bs fs ss).
Proof.
  unfold run_steps. revert ss. induction fs as [|f fs IH]; intros ss Hlen.
  - simpl. apply Forall2_same_length_lookup. split; [done|].
    intros i s s' Hs Hs'. by assert (s' = s) as -> by congruence.
  - simpl.
    eapply keeps_trans; [by apply frame_step_keeps|].
    apply IH. by rewrite length_frame_step.
Qed.

(** ** Moving the frame of reference *)

Lemma acceleration_of_shifted c G softening s s' others others' :
  shifted c s s' -> Forall2 (shifted c) others others' ->
  acceleration_of G softening s' others' = acceleration_of G softening s others.
Proof.
  intros (Hm & Hp & _ & Hk) Hall. unfold acceleration_of. rewrite Hk.
  destruct (s_kind s); [|done]. f_equal.
  induction Hall as [|o o' os os' (Hmo & Hpo & _) _ IH]; [done|].
  cbn [map]. rewrite IH, Hmo, Hpo, Hp. f_equal. f_equal.
  apply vec_eq; unfold vsub, vadd; cbn [fst snd]; ring.
Qed.

Lemma accelerations_of_shifted c G ss ss' :
  Forall2 (shifted c) ss ss' ->
  accelerations_of G ss' = accelerations_of G ss.
Proof.
  intros Hall. apply list_eq. intros i. unfold accelerations_of.
  rewrite !list_lookup_imap.
  destruct (ss !! i) as [s|] eqn:Hs.
  - destruct (Forall2_lookup_l _ _ _ _ _ Hall Hs) as (s' & -> & Hss).
    simpl. f_equal.
    apply (acceleration_of_shifted c); [done | by apply Forall2_delete].
  - apply Forall2_length in Hall.
    rewrite (lookup_ge_None_2 ss' i); [done|].
    apply lookup_ge_None in Hs. lia.
Qed.

Lemma move_shifted c dt l l' accs :
  Forall2 (shifted c) l l' ->
  Forall2 (shifted c) (zip_with (move dt) l accs) (zip_with (move dt) l' accs).
Proof.
  intros Hall. revert accs.
  induction Hall as [|s s' l l' (Hm & Hp & Hv & Hk) _ IH]; intros [|a accs];
    try constructor; [|apply IH].
  unfold shifted, move, with_position.
  cbn [s_mass s_position s_velocity s_kind].
  split_and!; [done | | done | done]. rewrite Hp, Hv.
  apply vec_eq; unfold vadd, vscale_r, vscale; cbn [fst snd]; ring.
Qed.

Lemma kick_shifted c dt l l' accs :
  Forall2 (shifted c) l l' ->
  Forall2 (shifted c) (zip_with (kick dt) l accs) (zip_with (kick dt) l' accs).
Proof.
  intros Hall. revert accs.
  induction Hall as [|s s' l l' (Hm & Hp & Hv & Hk) _ IH]; intros [|a accs];
    try constructor; [|apply IH].
  unfold shifted, kick, with_history, with_velocity.
  cbn [s_mass s_position s_velocity s_kind]. by rewrite Hv.
Qed.

Lemma verlet_step_shifted c G dt ss ss' :
  Forall2 (shifted c) ss ss' ->
  Forall2 (shifted c) (verlet_step G dt ss) (verlet_step G dt ss').
Proof.
  intros Hall.
  pose proof (accelerations_of_shifted c G ss ss' Hall) as Ha0.
  pose proof (move_shifted c dt ss ss' (accelerations_of G ss) Hall) as Hmoved.
  rewrite <- Ha0 in Hmoved at 2.
  pose proof (accelerations_of_shifted c G _ _ Hmoved) as Ha1.
  unfold verlet_step. cbv zeta. rewrite Ha1, Ha0 at 1.
  rewrite Ha0 in Hmoved |- *. by apply kick_shifted.
Qed.

(** ** Sequences of control-adapter calls *)

Lemma presses_cons key k ks :
  presses key (k :: ks) = ((if key k then 1 else 0) + presses key ks)%nat.
Proof. unfold presses. simpl. by destruct (key k). Qed.

(** ** Properties of [integrate] *)

Lemma two_body_wf : wf two_body_heap [0; 1]%nat.
Proof. by apply (bool_decide_unpack _); vm_compute. Defined.

Lemma moved_two_body_wf : wf moved_two_body_heap [0; 1]%nat.
Proof. by apply (bool_decide_unpack _); vm_compute. Defined.

Lemma killed_wf : wf killed_heap [0; 1]%nat.
Proof. by apply (bool_decide_unpack _); vm_compute. Defined.

Lemma generate_wf : wf generate_heap [0; 1; 2; 3]%nat.
Proof. by apply (bool_decide_unpack _); vm_compute. Defined.

Lemma state_of_same_motion ss ss' :
  Forall2 same_motion ss ss' -> map state_of ss' = map state_of ss.
Proof.
  induction 1 as [|s s' l l' (_ & Hp & Hv & _) _ IH]; [done|].
  cbn [map]. rewrite IH. unfold state_of. by rewrite Hp, Hv.
Qed.

(** X1: over the reals a tick can be taken back.  [integrate(dt)] followed
    by [integrate(-dt)] gives every body the mass, the position, the velocity
    and the kind it had, and [get_state] then returns the numbers of the
    start.  The histories are not taken back: each got the position after
    the first tick and then the restored position appended, the oldest entry
    leaving each time the cap of 200000 is exceeded. *)
Theorem integrate_then_back self bs dt h ss :
  bodies self = Some bs -> wf h bs -> snapshots h bs = Some ss ->
  exists h1 h2 ss1 ss2,
    System.integrate self dt h = Ok (tt, h1) /\
    System.integrate self (- dt) h1 = Ok (tt, h2) /\
    snapshots h1 bs = Some ss1 /\
    snapshots h2 bs = Some ss2 /\
    Forall2 same_motion ss ss2 /\
    System.get_state self h2 = Ok (concat (map state_of ss), h2) /\
    forall i s s1 s2,
      ss !! i = Some s -> ss1 !! i = Some s1 -> ss2 !! i = Some s2 ->
      s_history s2
      = push_capped (push_capped (s_history s) (s_position s1))
                    (s_position s).
Proof.
  intros Hbs Hwf Hss.
  destruct (integrate_binds_arrays self bs dt h ss Hbs Hwf Hss)
    as (h1 & Hr1 & Hwf1 & Hss1 & _).
  destruct (integrate_binds_arrays self bs (- dt) h1 _ Hbs Hwf1 Hss1)
    as (h2 & Hr2 & Hwf2 & Hss2 & Harr).
  pose proof (verlet_step_reverse (G self) dt ss) as Hback.
  eexists h1, h2, _, _.
  split; [done|]. split; [done|]. split; [done|]. split; [done|].
  split; [done|]. split.
  - rewrite <- (state_of_same_motion _ _ Hback).
    by apply (system_get_state_ok self bs).
  - intros i s s1 s2 Hs Hs1 Hs2.
    destruct (verlet_step_lookup _ _ _ _ _ Hs1) as (s' & Hs' & E1).
    assert (s' = s) as -> by congruence.
    destruct (verlet_step_lookup _ _ _ _ _ Hs2) as (s1' & Hs1' & E2).
    assert (s1' = s1) as -> by congruence.
    destruct (Forall2_lookup_lr _ _ _ _ _ _ Hback Hs Hs2) as (_ & Hp & _).
    by rewrite E2, E1, Hp.
Qed.

Lemma integrate_then_back_witness :
  exists h1 h2 ss1 ss2,
    System.integrate scenario_system 0.001 (scenario_heap 0.0001)
    = Ok (tt, h1) /\
    System.integrate scenario_system (- (0.001)) h1 = Ok (tt, h2) /\
    snapshots h1 [0; 1]%nat = Some ss1 /\
    snapshots h2 [0; 1]%nat = Some ss2 /\
    Forall2 same_motion (scenario_snapshots 0.0001) ss2 /\
    System.get_state scenario_system h2
    = Ok (concat (map state_of (scenario_snapshots 0.0001)), h2) /\
    forall i s s1 s2,
      scenario_snapshots 0.0001 !! i = Some s ->
      ss1 !! i = Some s1 -> ss2 !! i = Some s2 ->
      s_history s2
      = push_capped (push_capped (s_history s) (s_position s1))
                    (s_position s).
Proof.
  exact (integrate_then_back scenario_system [0; 1]%nat 0.001
           (scenario_heap 0.0001) (scenario_snapshots 0.0001)
           eq_refl (scenario_wf 0.0001) eq_refl).
Defined.

(** X2: a tick of a system without a rocket conserves the total momentum
    (the sum of [mass * velocity]), and the mass-weighted sum of the
    positions advances by [dt] times that momentum: the softened pulls of
    two bodies on each other cancel. *)
Theorem integrate_conserves_momentum self bs dt h ss :
  bodies self = Some bs -> wf h bs -> snapshots h bs = Some ss ->
  Forall (fun s => s_kind s = Passive) ss ->
  exists h' ss',
    System.integrate self dt h = Ok (tt, h') /\
    snapshots h' bs = Some ss' /\
    momentum ss' = momentum ss /\
    mass_moment ss' = vadd (mass_moment ss) (vscale dt (momentum ss)).
Proof.
  intros Hbs Hwf Hss Hall.
  destruct (integrate_refines self bs dt h ss Hbs Hwf Hss)
    as (h' & Hr & _ & Hss' & _).
  destruct (verlet_step_momentum (G self) dt ss Hall) as [Hp Hq].
  by exists h', (verlet_step (G self) dt ss).
Qed.

Lemma integrate_conserves_momentum_witness :
  exists h' ss',
    System.integrate two_body_system 0.001 two_body_heap = Ok (tt, h') /\
    snapshots h' [0; 1]%nat = Some ss' /\
    momentum ss' = momentum two_body_snapshots /\
    mass_moment ss'
    = vadd (mass_moment two_body_snapshots)
           (vscale 0.001 (momentum two_body_snapshots)).
Proof.
  apply (integrate_conserves_momentum two_body_system [0; 1]%nat 0.001
           two_body_heap two_body_snapshots eq_refl two_body_wf eq_refl).
  repeat constructor.
Defined.

(** X3: [integrate(0)] is not a no-op.  Every position and velocity stays
    as it is, and the position is still appended to the history (and the
    oldest entry dropped beyond the cap). *)
Theorem integrate_zero_dt self bs h ss :
  bodies self = Some bs -> wf h bs -> snapshots h bs = Some ss ->
  exists h' ss',
    System.integrate self 0 h = Ok (tt, h') /\
    snapshots h' bs = Some ss' /\
    Forall2 (fun s s' => same_motion s s' /\
               s_history s' = push_capped (s_history s) (s_position s))
            ss ss'.
Proof.
  intros Hbs Hwf Hss.
  destruct (integrate_refines self bs 0 h ss Hbs Hwf Hss)
    as (h' & Hr & _ & Hss' & _).
  exists h', (verlet_step (G self) 0 ss).
  split_and!; [done | done | apply verlet_step_zero].
Qed.

Lemma integrate_zero_dt_witness :
  exists h' ss',
    System.integrate two_body_system 0 two_body_heap = Ok (tt, h') /\
    snapshots h' [0; 1]%nat = Some ss' /\
    Forall2 (fun s s' => same_motion s s' /\
               s_history s' = push_capped (s_history s) (s_position s))
            two_body_snapshots ss'.
Proof.
  exact (integrate_zero_dt two_body_system [0; 1]%nat two_body_heap
           two_body_snapshots eq_refl two_body_wf eq_refl).
Defined.

(** X4: in a tick the rocket moves under its thrust alone, with the
    constant acceleration [T = thrust * (-sin heading, cos heading)]: its
    position becomes [p + v*dt + 0.5*T*dt^2] and its velocity [v + T*dt],
    whatever the other bodies are; with the thrust off it coasts on a
    straight line. *)
Theorem integrate_moves_rocket_by_thrust self bs dt h b s t a :
  bodies self = Some bs -> wf h bs -> b ∈ bs ->
  snapshot h b = Some s -> s_kind s = Controllable t a ->
  exists h' s',
    System.integrate self dt h = Ok (tt, h') /\
    snapshot h' b = Some s' /\
    s_position s'
    = vadd (s_position s)
           (vadd (vscale_r (s_velocity s) dt)
                 (vscale_r (vscale 0.5 (Body.thrust_acceleration t a))
                           (dt ^ 2))) /\
    s_velocity s'
    = vadd (s_velocity s) (vscale_r (Body.thrust_acceleration t a) dt) /\
    (t = 0 ->
     s_position s' = vadd (s_position s) (vscale_r (s_velocity s) dt) /\
     s_velocity s' = s_velocity s).
Proof.
  intros Hbs Hwf Hb Hs Hk.
  destruct (wf_snapshots _ _ Hwf) as [ss Hss].
  destruct (integrate_refines self bs dt h ss Hbs Hwf Hss)
    as (h' & Hr & _ & Hss' & _).
  apply list_elem_of_lookup in Hb as [i Hi].
  destruct (snapshots_lookup _ _ _ _ _ Hss Hi) as (s1 & Hs1 & Hsb).
  assert (s1 = s) as -> by congruence.
  destruct (verlet_step_rocket (G self) dt ss i s t a Hs1 Hk)
    as (s' & Hs' & Hp & Hv & _).
  destruct (snapshots_lookup _ _ _ _ _ Hss' Hi) as (s2 & Hs2 & Hsb').
  assert (s2 = s') as -> by congruence.
  exists h', s'. split_and!; [done | done | done | done |].
  intros ->. rewrite Hp, Hv. unfold Body.thrust_acceleration.
  split; apply vec_eq; unfold vadd, vscale, vscale_r; cbn [fst snd]; ring.
Qed.

Lemma integrate_moves_rocket_by_thrust_witness :
  exists h' s',
    System.integrate scenario_system 0.001 (scenario_heap 0.0001)
    = Ok (tt, h') /\
    snapshot h' 0%nat = Some s' /\
    s_position s'
    = vadd (0, 1.2)
           (vadd (vscale_r (0, 0) 0.001)
                 (vscale_r (vscale 0.5 (Body.thrust_acceleration 0 0))
                           (0.001 ^ 2))) /\
    s_velocity s'
    = vadd (0, 0) (vscale_r (Body.thrust_acceleration 0 0) 0.001) /\
    (0 = 0 ->
     s_position s' = vadd (0, 1.2) (vscale_r (0, 0) 0.001) /\
     s_velocity s' = (0, 0)).
Proof.
  apply (integrate_moves_rocket_by_thrust scenario_system [0; 1]%nat 0.001
           (scenario_heap 0.0001) 0%nat
           (mkSnapshot 0.0001 (0, 1.2) (0, 0) (Controllable 0 0) []) 0 0
           eq_refl (scenario_wf 0.0001)).
  - apply elem_of_cons. by left.
  - reflexivity.
  - reflexivity.
Defined.

(** X5: no run, whatever the keys and the time steps, changes the mass of a
    body or turns a passive body into a rocket or a rocket into a passive
    body. *)
Theorem run_keeps_mass_and_kind self bs fs h ss :
  bodies self = Some bs -> wf h bs -> snapshots h bs = Some ss ->
  Forall (fun f => Forall (fun bk : nat * Body.Keys => bk.1 ∈ bs) (controls f))
         fs ->
  exists h' ss',
    run self fs h = Ok (tt, h') /\
    snapshots h' bs = Some ss' /\
    Forall2 same_body ss ss'.
Proof.
  intros Hbs Hwf Hss Hfs.
  destruct (run_refines self bs fs h ss Hbs Hwf Hss Hfs)
    as (h' & Hr & _ & Hss' & _).
  eexists h', _. split_and!; [done | done |].
  apply run_steps_keep. exact (length_mapM _ _ _ Hss).
Qed.

Lemma run_keeps_mass_and_kind_witness :
  exists h' ss',
    run scenario_system
        [mkFrame [(0%nat, Body.mkKeys true false true true)] 0.001;
         mkFrame [] 0.001]
        (scenario_heap 0.0001) = Ok (tt, h') /\
    snapshots h' [0; 1]%nat = Some ss' /\
    Forall2 same_body (scenario_snapshots 0.0001) ss'.
Proof.
  apply (run_keeps_mass_and_kind scenario_system [0; 1]%nat _
           (scenario_heap 0.0001) (scenario_snapshots 0.0001)
           eq_refl (scenario_wf 0.0001) eq_refl).
  repeat constructor.
Defined.

(** X6: [System.get_state] leaves the heap as it is and returns
    [x, y, vx, vy] of every body, in the order of [bodies], when every
    velocity is an array; it raises TypeError as soon as the velocity of one
    body holds a number. *)
Theorem get_state_needs_array_velocities self bs h ss :
  bodies self = Some bs -> wf h bs -> snapshots h bs = Some ss ->
  (Forall (has_array_velocity h) bs ->
   System.get_state self h = Ok (concat (map state_of ss), h) /\
   length (concat (map state_of ss)) = (4 * length bs)%nat) /\
  (Exists (has_number_velocity h) bs ->
   System.get_state self h = Raise TypeError).
Proof.
  intros Hbs Hwf Hss. split.
  - intros Hall. split; [by apply (system_get_state_ok self bs)|].
    rewrite (length_mapM _ _ _ Hss). clear.
    induction ss as [|s ss IH]; [done|].
    cbn [map concat]. rewrite length_app, IH. simpl. lia.
  - by apply system_get_state_raises.
Qed.

Lemma get_state_needs_array_velocities_witness :
  System.get_state scenario_system (scenario_heap 0.0001)
  = Ok ([0; 1.2; 0; 0; 0; 0; 0; 0], scenario_heap 0.0001) /\
  System.get_state scenario_system killed_heap = Raise TypeError.
Proof.
  split.
  - apply (get_state_needs_array_velocities scenario_system [0; 1]%nat
             (scenario_heap 0.0001) (scenario_snapshots 0.0001)
             eq_refl (scenario_wf 0.0001) eq_refl).
    repeat constructor; by eexists _, _.
  - apply (get_state_needs_array_velocities scenario_system [0; 1]%nat
             killed_heap (scenario_snapshots 0.0001)
             eq_refl killed_wf eq_refl).
    constructor. by eexists _, _.
Defined.

(** X7: after a tick every velocity is an array again.  Whatever the kill
    input did before, [get_state] called after [integrate] succeeds and
    returns the positions and velocities of the velocity-Verlet step. *)
Theorem get_state_after_integrate self bs dt h ss :
  bodies self = Some bs -> wf h bs -> snapshots h bs = Some ss ->
  exists h',
    System.integrate self dt h = Ok (tt, h') /\
    Forall (has_array_velocity h') bs /\
    System.get_state self h'
    = Ok (concat (map state_of (verlet_step (G self) dt ss)), h').
Proof.
  intros Hbs Hwf Hss.
  destruct (integrate_binds_arrays self bs dt h ss Hbs Hwf Hss)
    as (h' & Hr & Hwf' & Hss' & Harr).
  exists h'. split_and!; [done | done |].
  by apply (system_get_state_ok self bs).
Qed.

Lemma get_state_after_integrate_witness :
  System.get_state scenario_system killed_heap = Raise TypeError /\
  exists h',
    System.integrate scenario_system 0.001 killed_heap = Ok (tt, h') /\
    Forall (has_array_velocity h') [0; 1]%nat /\
    System.get_state scenario_system h'
    = Ok (concat (map state_of
                    (verlet_step 1 0.001 (scenario_snapshots 0.0001))), h').
Proof.
  split; [reflexivity|].
  exact (get_state_after_integrate scenario_system [0; 1]%nat 0.001
           killed_heap (scenario_snapshots 0.0001)
           eq_refl killed_wf eq_refl).
Defined.

(** X8: the physics does not depend on where the origin is.  Two systems
    that differ by a translation [c] of all positions still differ by
    exactly that translation after a tick, with the same velocities. *)
Theorem integrate_commutes_with_shift self bs dt c h hc ss ssc :
  bodies self = Some bs -> wf h bs -> wf hc bs ->
  snapshots h bs = Some ss -> snapshots hc bs = Some ssc ->
  Forall2 (shifted c) ss ssc ->
  exists h' hc' ss' ssc',
    System.integrate self dt h = Ok (tt, h') /\
    System.integrate self dt hc = Ok (tt, hc') /\
    snapshots h' bs = Some ss' /\
    snapshots hc' bs = Some ssc' /\
    Forall2 (shifted c) ss' ssc'.
Proof.
  intros Hbs Hwf Hwfc Hss Hssc Hall.
  destruct (integrate_refines self bs dt h ss Hbs Hwf Hss)
    as (h' & Hr & _ & Hss' & _).
  destruct (integrate_refines self bs dt hc ssc Hbs Hwfc Hssc)
    as (hc' & Hrc & _ & Hssc' & _).
  eexists h', hc', _, _. split_and!; [done | done | done | done |].
  by apply verlet_step_shifted.
Qed.

Lemma integrate_commutes_with_shift_witness :
  exists h' hc' ss' ssc',
    System.integrate two_body_system 0.001 two_body_heap = Ok (tt, h') /\
    System.integrate two_body_system 0.001 moved_two_body_heap
    = Ok (tt, hc') /\
    snapshots h' [0; 1]%nat = Some ss' /\
    snapshots hc' [0; 1]%nat = Some ssc' /\
    Forall2 (shifted (5, 7)) ss' ssc'.
Proof.
  apply (integrate_commutes_with_shift two_body_system [0; 1]%nat 0.001
           (5, 7) two_body_heap moved_two_body_heap
           two_body_snapshots moved_two_body_snapshots
           eq_refl two_body_wf moved_two_body_wf eq_refl eq_refl).
  repeat constructor; simpl; apply vec_eq; simpl; lra.
Defined.

(** ** Angular momentum *)

Lemma cross_vsum p (ts : list vec) :
  cross p (vsum ts) = foldr Rplus 0 (map (cross p) ts).
Proof.
  induction ts as [|t ts IH]; [unfold cross; simpl; ring|].
  cbn [map foldr]. rewrite <- IH, vsum_cons.
  unfold cross, vadd; cbn [fst snd]. ring.
Qed.

Lemma cross_vadd p u v : cross p (vadd u v) = cross p u + cross p v.
Proof. unfold cross, vadd; cbn [fst snd]. ring. Qed.

Lemma rsum_imap_plus {A} (f g : nat -> A -> R) (l : list A) :
  foldr Rplus 0 (imap (fun i x => f i x + g i x) l)
  = foldr Rplus 0 (imap f l) + foldr Rplus 0 (imap g l).
Proof.
  revert f g. induction l as [|x l IH]; intros f g; [simpl; ring|].
  rewrite !imap_cons. cbn [foldr].
  change ((fun i x0 => f i x0 + g i x0) ∘ S)
    with (fun i x0 => (f ∘ S) i x0 + (g ∘ S) i x0).
  rewrite IH. ring.
Qed.

Lemma rsum_map_plus {A} (f g : A -> R) (l : list A) :
  foldr Rplus 0 (map (fun x => f x + g x) l)
  = foldr Rplus 0 (map f l) + foldr Rplus 0 (map g l).
Proof.
  induction l as [|x l IH]; [simpl; ring|].
  cbn [map foldr]. rewrite IH. ring.
Qed.

Lemma rsum_map_scale {A} c (f : A -> R) (l : list A) :
  foldr Rplus 0 (map (fun x => c * f x) l) = c * foldr Rplus 0 (map f l).
Proof.
  induction l as [|x l IH]; [simpl; ring|].
  cbn [map foldr]. rewrite IH. ring.
Qed.

Lemma rsum_map_zero {A} (f : A -> R) (l : list A) :
  (forall x, f x = 0) -> foldr Rplus 0 (map f l) = 0.
Proof.
  intros Hf. induction l as [|x l IH]; [done|].
  cbn [map foldr]. rewrite IH, Hf. ring.
Qed.

(** The pulls of two bodies on each other are along the line that joins
    them: their torques cancel. *)
Lemma gravity_term_torque G softening s o :
  s_mass s * cross (s_position s)
               (Body.gravity_term G (s_mass o)
                  (vsub (s_position o) (s_position s)) softening)
  + s_mass o * cross (s_position o)
                 (Body.gravity_term G (s_mass s)
                    (vsub (s_position s) (s_position o)) softening)
  = 0.
Proof.
  unfold Body.gravity_term.
  rewrite (norm_vsub_sym (s_position s) (s_position o)).
  set (d := Body.softened_cube _ _).
  unfold cross, vscale, vdiv, vsub, Rdiv; cbn [fst snd]. ring.
Qed.

Lemma total_torque_imap ss (g : nat -> Snapshot -> vec) :
  total_torque ss (imap g ss)
  = foldr Rplus 0 (imap (fun i s => s_mass s * cross (s_position s) (g i s)) ss).
Proof.
  unfold total_torque. revert g. induction ss as [|s ss IH]; intros g; [done|].
  rewrite !imap_cons. cbn [zip_with foldr]. by rewrite IH.
Qed.

Lemma total_torque_passive G ss :
  Forall (fun s => s_kind s = Passive) ss ->
  total_torque ss (accelerations_of G ss) = 0.
Proof.
  intros Hall. unfold accelerations_of. rewrite total_torque_imap.
  induction Hall as [|x l Hx Hall IH]; [done|].
  rewrite imap_cons. cbn [foldr delete list_delete].
  set (term := fun s o : Snapshot =>
         Body.gravity_term G (s_mass o)
           (vsub (s_position o) (s_position s)) Body.default_softening).
  rewrite (imap_ext _
             (fun j s => s_mass s * cross (s_position s) (term s x)
                + s_mass s * cross (s_position s)
                    (acceleration_of G Body.default_softening s (delete j l)))).
  2:{ intros j s Hs. cbn [compose delete list_delete].
      assert (Hk : s_kind s = Passive).
      { rewrite Forall_forall in Hall. apply Hall.
        by eapply list_elem_of_lookup_2. }
      unfold acceleration_of. rewrite Hk. cbn [map].
      by rewrite vsum_cons, cross_vadd, Rmult_plus_distr_l. }
  rewrite rsum_imap_plus, IH, Rplus_0_r.
  rewrite (imap_no_index
             (fun s => s_mass s * cross (s_position s) (term s x))).
  unfold acceleration_of. rewrite Hx, cross_vsum, map_map.
  rewrite <- rsum_map_scale, <- rsum_map_plus.
  apply rsum_map_zero. intros o. apply gravity_term_torque.
Qed.

Lemma angular_momentum_tick dt ss a0 a1 :
  length a0 = length ss -> length a1 = length ss ->
  angular_momentum (zip_with (kick dt) (zip_with (move dt) ss a0) (zip a0 a1))
  = angular_momentum ss
    + 0.5 * dt * (total_torque ss a0
                  + total_torque (zip_with (move dt) ss a0) a1).
Proof.
  unfold angular_momentum, total_torque. revert a0 a1.
  induction ss as [|s ss IH]; intros [|x0 a0] [|x1 a1] H0 H1; try done.
  - simpl. ring.
  - simpl in H0, H1. cbn [zip zip_with map foldr].
    rewrite (IH a0 a1) by lia.
    unfold kick, move, with_history, with_velocity, with_position.
    cbn [s_mass s_velocity s_position fst snd].
    unfold cross, vadd, vscale, vscale_r; cbn [fst snd]. ring.
Qed.

(** A tick of a system without a rocket keeps the angular momentum. *)
Lemma verlet_step_angular_momentum G dt ss :
  Forall (fun s => s_kind s = Passive) ss ->
  angular_momentum (verlet_step G dt ss) = angular_momentum ss.
Proof.
  intros Hall. unfold verlet_step. cbv zeta.
  set (a0 := accelerations_of G ss).
  set (moved := zip_with (move dt) ss a0).
  set (a1 := accelerations_of G moved).
  assert (Hla0 : length a0 = length ss)
    by (unfold a0; by rewrite length_accelerations_of).
  assert (Hlm : length moved = length ss)
    by (unfold moved; rewrite length_zip_with; lia).
  assert (Hla1 : length a1 = length ss)
    by (unfold a1; rewrite length_accelerations_of; lia).
  unfold moved. rewrite angular_momentum_tick by done. fold moved.
  unfold a0. rewrite total_torque_passive by done.
  unfold a1. rewrite total_torque_passive by (by apply move_passive).
  ring.
Qed.

(** X9: a tick of a system without a rocket conserves the angular momentum
    about the origin, the sum of [mass * (x * vy - y * vx)], exactly: the
    softened pull between two bodies acts along the line that joins them,
    and velocity Verlet keeps what such forces keep. *)
Theorem integrate_conserves_angular_momentum self bs dt h ss :
  bodies self = Some bs -> wf h bs -> snapshots h bs = Some ss ->
  Forall (fun s => s_kind s = Passive) ss ->
  exists h' ss',
    System.integrate self dt h = Ok (tt, h') /\
    snapshots h' bs = Some ss' /\
    angular_momentum ss' = angular_momentum ss.
Proof.
  intros Hbs Hwf Hss Hall.
  destruct (integrate_refines self bs dt h ss Hbs Hwf Hss)
    as (h' & Hr & _ & Hss' & _).
  eexists h', _. split_and!; [done | done |].
  by apply verlet_step_angular_momentum.
Qed.

Lemma integrate_conserves_angular_momentum_witness :
  exists h' ss',
    System.integrate two_body_system 0.001 two_body_heap = Ok (tt, h') /\
    snapshots h' [0; 1]%nat = Some ss' /\
    angular_momentum ss' = angular_momentum two_body_snapshots.
Proof.
  apply (integrate_conserves_angular_momentum two_body_system [0; 1]%nat 0.001
           two_body_heap two_body_snapshots eq_refl two_body_wf eq_refl).
  repeat constructor.
Defined.

(** ** Properties of the control adapter *)

(** X10: what a sequence of control-adapter calls adds up to on a rocket.
    Every LEFT adds 5 degrees to the heading and every RIGHT takes 5 away
    (pressed together they cancel), and the heading is never reduced modulo
    360; the thrust is the one the last call set, 6 with UP and 0 without;
    the velocity holds the number 0 once DOWN was pressed; the arrays, the
    position, the history, the mass and all other bodies are left alone. *)
Theorem controls_accumulate ks : forall h b o a,
  objects h !! b = Some o -> is_rocket o = true -> angle o = Some a ->
  exists h' o',
    for_each ks (Body.update_rocket_controls b) h = Ok (tt, h') /\
    arrays h' = arrays h /\
    objects h' !! b = Some o' /\
    (forall b', b' ≠ b -> objects h' !! b' = objects h !! b') /\
    angle o' = Some (a + 5 * INR (presses Body.K_LEFT ks)
                       - 5 * INR (presses Body.K_RIGHT ks)) /\
    thrust o' = match last ks with
                | Some k => if Body.K_UP k then 6 else 0
                | None => thrust o
                end /\
    velocity o' = (if existsb Body.K_DOWN ks then PyScalar 0 else velocity o) /\
    mass o' = mass o /\ position o' = position o /\
    position_history o' = position_history o /\ is_rocket o' = true.
Proof.
  induction ks as [|k ks IH]; intros h b o a Ho Hrk Ha.
  - exists h, o. split_and!; try done.
    rewrite Ha. f_equal. unfold presses. simpl. lra.
  - pose proof (update_rocket_controls_run h b o a k Ho Hrk Ha) as Hrun.
    set (o1 := mkBody _ _ _ _ _ _ _) in Hrun.
    set (h1 := mkHeap _ _) in Hrun.
    assert (Hbl : (b < length (objects h))%nat)
      by (apply lookup_lt_is_Some; eauto).
    assert (Ho1 : objects h1 !! b = Some o1)
      by (by apply list_lookup_insert_eq).
    destruct (IH h1 b o1 _ Ho1 eq_refl eq_refl)
      as (h' & o' & Hr & Harr & Ho' & Hothers & Hang & Hthr & Hvel & Hm & Hp
          & Hh & Hrk').
    exists h', o'. split_and!; try done.
    + simpl. by step_with Hrun.
    + intros b' Hne. rewrite Hothers by done.
      by apply list_lookup_insert_ne.
    + rewrite Hang. f_equal. rewrite !presses_cons, !plus_INR.
      destruct (Body.K_LEFT k), (Body.K_RIGHT k); simpl; lra.
    + rewrite Hthr, last_cons. by destruct (last ks).
    + rewrite Hvel. cbn [existsb velocity o1].
      by destruct (Body.K_DOWN k), (existsb Body.K_DOWN ks).
Qed.

Lemma controls_accumulate_witness :
  exists h' o',
    for_each [Body.mkKeys true true true false; Body.mkKeys true false false true]
             (Body.update_rocket_controls 0%nat) (scenario_heap 0.0001)
    = Ok (tt, h') /\
    objects h' !! 0%nat = Some o' /\
    angle o' = Some (0 + 5 * INR 2 - 5 * INR 1) /\
    thrust o' = 0 /\
    velocity o' = PyScalar 0.
Proof.
  destruct (controls_accumulate
              [Body.mkKeys true true true false;
               Body.mkKeys true false false true]
              (scenario_heap 0.0001) 0%nat
              (mkBody 0.0001 0%nat (PyArr 1%nat) true 0 (Some 0) []) 0
              eq_refl eq_refl eq_refl)
    as (h' & o' & Hr & _ & Ho' & _ & Hang & Hthr & Hvel & _).
  exists h', o'. repeat split; assumption.
Defined.

(** X11: a rocket that was just constructed is under thrust.  Until the
    control adapter is called for the first time its acceleration is
    [(0, 0.0001)], straight up, whatever the other bodies are; the first call
    replaces that thrust by 6 or by 0. *)
Theorem new_rocket_accelerates m p v others G softening h :
  exists b h',
    Body.__init__ m p v true h = Ok (b, h') /\
    Body.compute_acceleration b others G softening h' = Ok ((0, 0.0001), h') /\
    forall keys, exists h'' o'',
      Body.update_rocket_controls b keys h' = Ok (tt, h'') /\
      objects h'' !! b = Some o'' /\
      thrust o'' = (if Body.K_UP keys then 6 else 0).
Proof.
  eexists _, _. split; [apply body_init_ok|].
  set (o := mkBody _ _ _ _ _ _ _). set (h' := mkHeap _ _).
  assert (Ho : objects h' !! length (objects h) = Some o)
    by (unfold h'; simpl; by rewrite lookup_app_r, Nat.sub_diag by lia).
  split.
  - rewrite (compute_acceleration_thrust h' _ o 0 others G softening Ho
               eq_refl eq_refl).
    do 2 f_equal. unfold Body.thrust_acceleration, radians. cbn [thrust o].
    rewrite Rmult_0_l, sin_0, cos_0. f_equal; lra.
  - intros keys.
    eexists _, _. split; [exact (update_rocket_controls_run h' _ o 0 keys Ho
                                   eq_refl eq_refl)|].
    split.
    { cbn [objects]. apply list_lookup_insert_eq, lookup_lt_is_Some. eauto. }
    reflexivity.
Qed.

(** ** The main loop *)

(** X12: the loop of [pygame_run] takes its rocket from [system.bodies[3]].
    On a system of fewer than four bodies an iteration raises IndexError;
    on any system of four or more bodies its call of the control adapter
    and its [integrate] succeed, whatever the keys and whether or not the
    fourth body is a rocket. *)
Theorem pygame_frame_needs_four_bodies system bs keys h :
  bodies system = Some bs -> wf h bs ->
  ((length bs < 4)%nat -> pygame_frame system keys h = Raise IndexError) /\
  ((4 <= length bs)%nat ->
   exists h', pygame_frame system keys h = Ok (tt, h') /\ wf h' bs).
Proof.
  intros Hbs Hwf. split; intros Hlen.
  - unfold pygame_frame. step_with (the_bodies_ok _ _ h Hbs).
    unfold bind, index. by rewrite lookup_ge_None_2 by lia.
  - destruct (lookup_lt_is_Some_2 bs 3) as [rocket Hr]; [lia|].
    rewrite (pygame_frame_is_frame system bs rocket keys h Hbs Hr).
    destruct (wf_snapshots _ _ Hwf) as [ss Hss].
    destruct (frame_refines system bs (mkFrame [(rocket, keys)] 0.001) h ss
                Hbs Hwf Hss) as (h' & Hrun & Hwf' & _).
    { constructor; [|constructor]. by eapply list_elem_of_lookup_2. }
    by exists h'.
Qed.

Lemma pygame_frame_needs_four_bodies_witness :
  pygame_frame scenario_system no_keys (scenario_heap 0.0001)
  = Raise IndexError /\
  exists h', pygame_frame generate_system kill_key generate_heap = Ok (tt, h') /\
             wf h' [0; 1; 2; 3]%nat.
Proof.
  split.
  - apply (pygame_frame_needs_four_bodies scenario_system [0; 1]%nat no_keys
             (scenario_heap 0.0001) eq_refl (scenario_wf 0.0001)).
    simpl. lia.
  - apply (pygame_frame_needs_four_bodies generate_system [0; 1; 2; 3]%nat
             kill_key generate_heap eq_refl generate_wf).
    simpl. lia.
Defined.

(** ** Sparks *)

Lemma living_nil L : living L [] = 0%nat.
Proof. done. Qed.

Lemma living_cons L s sparks :
  living L (s :: sparks)
  = ((if bool_decide (L <= spark_life s)%Z then 1 else 0) + living L sparks)%nat.
Proof.
  unfold living. rewrite filter_cons.
  destruct (decide (L <= spark_life s)%Z) as [H|H].
  - by rewrite bool_decide_true.
  - by rewrite bool_decide_false.
Qed.

Lemma living_app L l k : living L (l ++ k) = (living L l + living L k)%nat.
Proof. unfold living. by rewrite filter_app, length_app. Qed.

Lemma living_le_length L l : (living L l <= length l)%nat.
Proof. unfold living. apply length_filter. Qed.

Lemma living_mono L L' l : (L <= L')%Z -> (living L' l <= living L l)%nat.
Proof.
  intros HL. induction l as [|s l IH]; [done|].
  rewrite !living_cons. repeat case_bool_decide; lia.
Qed.

Lemma living_all l :
  Forall (fun s => (1 <= spark_life s)%Z) l -> living 1 l = length l.
Proof.
  induction 1 as [|s l Hs _ IH]; [done|].
  rewrite living_cons, bool_decide_true by done. simpl. lia.
Qed.

(** The lives after the second loop of [draw_sparks]. *)
Lemma update_sparks_alive l scale :
  Forall (fun s => (1 <= spark_life s)%Z) (BodyView.update_sparks l scale).1.
Proof.
  induction l as [|s l IH]; simpl; [constructor|].
  destruct (BodyView.update_sparks l scale) as [new painted].
  destruct (Z.ltb_spec 0 (spark_life s - 1)); simpl in *; [|done].
  constructor; [simpl; lia | done].
Qed.

Lemma update_sparks_living L l scale :
  (1 <= L)%Z ->
  living L (BodyView.update_sparks l scale).1 = living (L + 1) l.
Proof.
  intros HL. induction l as [|s l IH]; simpl; [done|].
  destruct (BodyView.update_sparks l scale) as [new painted].
  rewrite (living_cons (L + 1)). simpl in IH.
  destruct (Z.ltb_spec 0 (spark_life s - 1)); simpl.
  - rewrite living_cons, IH. simpl. repeat case_bool_decide; lia.
  - rewrite IH. rewrite bool_decide_false by lia. done.
Qed.

Lemma update_sparks_painted l scale :
  length (BodyView.update_sparks l scale).2
  = length (BodyView.update_sparks l scale).1.
Proof.
  induction l as [|s l IH]; simpl; [done|].
  destruct (BodyView.update_sparks l scale) as [new painted].
  destruct (0 <? spark_life s - 1)%Z; simpl in *; lia.
Qed.

Lemma new_sparks_living L a x y scale random :
  (forall i, (randint_10_20 (random i) <= 20)%Z) ->
  (living L (BodyView.new_sparks a x y scale random) <= 5)%nat /\
  ((20 < L)%Z -> living L (BodyView.new_sparks a x y scale random) = 0%nat).
Proof.
  intros Hr. split.
  - etrans; [apply living_le_length|].
    unfold BodyView.new_sparks. by rewrite length_map, length_seq.
  - intros HL. unfold BodyView.new_sparks. simpl.
    rewrite !living_cons, living_nil. simpl.
    rewrite !bool_decide_false; [done|..];
      match goal with |- ¬ (_ <= randint_10_20 (random ?i))%Z =>
        specialize (Hr i); lia end.
Qed.

Lemma sparks_ok_nil : sparks_ok [].
Proof. split; [constructor|]. intros L HL. rewrite living_nil. lia. Qed.

(** One call of [draw_sparks] keeps the sparks in bounds. *)
Lemma sparks_ok_step sparks a x y scale random :
  (forall i, (randint_10_20 (random i) <= 20)%Z) ->
  sparks_ok sparks ->
  sparks_ok
    (BodyView.update_sparks (sparks ++ BodyView.new_sparks a x y scale random)
                            scale).1.
Proof.
  intros Hr [Halive Hcount]. split; [apply update_sparks_alive|].
  intros L HL. rewrite update_sparks_living, living_app by lia.
  destruct (new_sparks_living (L + 1) a x y scale random Hr) as [H5 H0].
  destruct (decide (L = 20%Z)) as [->|Hne].
  - rewrite H0 by lia.
    pose proof (Hcount 20%Z ltac:(lia)).
    pose proof (living_mono 20%Z (20 + 1)%Z sparks ltac:(lia)). lia.
  - pose proof (Hcount (L + 1)%Z ltac:(lia)). lia.
Qed.

Lemma sparks_ok_bounds sparks :
  sparks_ok sparks ->
  (length sparks <= 95)%nat /\
  Forall (fun s => (1 <= spark_life s <= 19)%Z) sparks.
Proof.
  intros [Halive Hcount]. split.
  - rewrite <- (living_all _ Halive).
    pose proof (Hcount 1%Z ltac:(lia)). lia.
  - apply Forall_forall. intros s Hs.
    rewrite Forall_forall in Halive. split; [by apply Halive|].
    destruct (decide (spark_life s <= 19)%Z) as [|Hbig]; [done|].
    pose proof (Hcount 20%Z ltac:(lia)) as H20.
    apply list_elem_of_split in Hs as (l1 & l2 & ->).
    rewrite living_app, living_cons, bool_decide_true in H20 by lia. lia.
Qed.

(** ** Drawing one body *)

Lemma collect_read_ok h ls vs :
  mapM (fun l => arrays h !! l) ls = Some vs ->
  collect ls read_arr h = Ok (vs, h).
Proof.
  intros Hvs. apply collect_ok. apply mapM_Some in Hvs.
  eapply Forall2_impl; [exact Hvs|]. intros l v Hl. by apply read_arr_ok.
Qed.

(** What [draw] does for the rocket. *)
Lemma draw_rocket h b me a p rp sp win rocket_pos scale rnd :
  objects h !! b = Some me -> is_rocket me = true -> angle me = Some a ->
  arrays h !! position me = Some p -> arrays h !! rocket_pos = Some rp ->
  let x := (vsub p rp).1 * scale + IZR (win.1 / 2) in
  let y := IZR (win.2 / 2) - (vsub p rp).2 * scale in
  let image :=
    blit_rotozoom
      (mkSurface (20, 40)%Z
         [polygon [255; 0; 0]%Z [(10, 0); (0, 40); (20, 40)]])
      a (scale / 10000) (x, y) in
  BodyView.draw b sp win rocket_pos scale rnd h
  = Ok (if Rlt_dec 0 (thrust me)
        then
          let u := BodyView.update_sparks
                     (sp ++ BodyView.new_sparks a
                              (x + 20 * sin (radians a) * scale / 10000)
                              (y + 20 * cos (radians a) * scale / 10000)
                              (scale / 10000) rnd)
                     (scale / 10000) in
          (u.1, u.2 ++ [image])
        else (sp, [image]), h).
Proof.
  intros Ho Hrk Ha Hp Hrp x y image. unfold BodyView.draw.
  step_body Ho. step_read Hp. step_read Hrp. rewrite Hrk, Ha.
  cbn [negb andb]. rewrite andb_false_r.
  fold x. fold y. unfold BodyView.colour_of. rewrite Hrk. cbn [negb].
  fold image.
  destruct (Rlt_dec 0 (thrust me)).
  - unfold BodyView.draw_sparks. rewrite !bind_assoc.
    step_body Ho. rewrite Ha. done.
  - done.
Qed.

(** What [draw] does for a body that is not the rocket. *)
Lemma draw_passive h b me p rp hs sp win rocket_pos scale rnd :
  objects h !! b = Some me -> is_rocket me = false ->
  arrays h !! position me = Some p -> arrays h !! rocket_pos = Some rp ->
  mapM (fun l => arrays h !! l) (position_history me) = Some hs ->
  let on_screen := fun q : vec =>
    ((vsub q rp).1 * scale + IZR (win.1 / 2),
     IZR (win.2 / 2) - (vsub q rp).2 * scale) in
  let glow := BodyView.glow_surface me in
  BodyView.draw b sp win rocket_pos scale rnd h
  = Ok ((sp,
         [blit glow ((on_screen p).1 - 100, (on_screen p).2 - 100);
          draw (circle [219; 255; 254]%Z (on_screen p) (scale / 15))]
         ++ (if bool_decide (2 < length hs)%nat
             then [draw (lines [219; 255; 254]%Z false (map on_screen hs) 2)]
             else [])), h).
Proof.
  intros Ho Hrk Hp Hrp Hhs on_screen glow. unfold BodyView.draw.
  step_body Ho. step_read Hp. step_read Hrp. rewrite Hrk.
  cbn [negb andb]. rewrite andb_true_r, bind_ret. cbn [fst snd].
  rewrite (length_mapM _ _ _ Hhs).
  assert (Hc : BodyView.colour_of me = [219; 255; 254]%Z)
    by (unfold BodyView.colour_of; by rewrite Hrk).
  assert (Hw : IZR (get_width glow / 2) = 100)
    by (unfold glow, get_width, BodyView.glow_surface, BodyView.glow_size;
        cbn [size fst]; by change (200 / 2)%Z with 100%Z).
  assert (Hh : IZR (get_height glow / 2) = 100)
    by (unfold glow, get_height, BodyView.glow_surface, BodyView.glow_size;
        cbn [size snd]; by change (200 / 2)%Z with 100%Z).
  fold glow. rewrite Hc, Hw, Hh.
  destruct (bool_decide (2 < length hs)%nat).
  - step_with (collect_read_ok _ _ _ Hhs). done.
  - done.
Qed.

(** On a well-formed heap [draw] never raises, for any array [rocket_pos]
    that is on the heap; it leaves the heap as it is, and the sparks of the
    body are either as before or went through [draw_sparks] once. *)
Lemma draw_ok h bs b sp win rocket_pos rp scale rnd :
  wf h bs -> b ∈ bs -> arrays h !! rocket_pos = Some rp ->
  exists out, BodyView.draw b sp win rocket_pos scale rnd h = Ok (out, h) /\
    (out.1 = sp \/
     exists a x y z,
       out.1 = (BodyView.update_sparks
                  (sp ++ BodyView.new_sparks a x y z rnd) z).1).
Proof.
  intros Hwf Hb Hrp.
  destruct (wf_snapshot _ _ _ Hwf Hb) as [s Hs].
  destruct (snapshot_inv _ _ _ Hs) as (me & Ho & _ & Hp & _ & Hkind & Hhs).
  destruct (is_rocket me) eqn:Hrk.
  - unfold kind_of in Hkind. rewrite Hrk in Hkind.
    destruct (angle me) as [a|] eqn:Ha; [|done].
    eexists. split.
    { exact (draw_rocket h b me a _ rp sp win rocket_pos scale rnd
               Ho Hrk Ha Hp Hrp). }
    destruct (Rlt_dec 0 (thrust me)); [right | by left].
    by eexists _, _, _, _.
  - eexists. split.
    { exact (draw_passive h b me _ rp _ sp win rocket_pos scale rnd
               Ho Hrk Hp Hrp Hhs). }
    by left.
Qed.

(** ** Drawing all bodies *)

Lemma enumerate_from_lookup {A} n (l : list A) i x :
  l !! i = Some x -> (n + i, x)%nat ∈ enumerate_from n l.
Proof.
  revert n i. induction l as [|y l IH]; intros n [|i] Hi; try done.
  - injection Hi as ->. rewrite Nat.add_0_r. simpl. apply elem_of_cons. by left.
  - simpl. apply elem_of_cons. right.
    replace (n + S i)%nat with (S n + i)%nat by lia. by apply IH.
Qed.

Lemma enumerate_lookup {A} (l : list A) i x :
  l !! i = Some x -> (i, x) ∈ enumerate l.
Proof. apply (enumerate_from_lookup 0). Qed.

Section drawing_all.

Variables (h : heap) (bs : list ref) (rocket_pos : loc) (rp : vec).
Variables (zoom : R) (rnd : nat -> nat -> Draws) (P : list Spark -> Prop).
Hypothesis Hwf : wf h bs.
Hypothesis Hrp : arrays h !! rocket_pos = Some rp.
Hypothesis HP : forall i sp a x y z,
  P sp ->
  P (BodyView.update_sparks (sp ++ BodyView.new_sparks a x y z (rnd i)) z).1.

Lemma draw_bodies_ok (l : list (nat * ref)) :
  Forall (fun ib => ib.2 ∈ bs) l -> NoDup l.*2 ->
  forall store, (forall b, P (store b)) ->
  exists store' paints,
    draw_bodies l rocket_pos zoom rnd store h = Ok ((store', paints), h) /\
    (forall b, P (store' b)) /\
    (forall b, b ∉ l.*2 -> store' b = store b) /\
    (forall i b, (i, b) ∈ l ->
       exists out,
         BodyView.draw b (store b) WIN rocket_pos zoom (rnd i) h = Ok (out, h) /\
         store' b = out.1 /\
         forall q, q ∈ out.2 -> q ∈ paints).
Proof.
  induction l as [|[i b] l IH]; intros Hin Hnd store Hstore.
  - exists store, []. split_and!; try done. by intros i b ?%elem_of_nil.
  - apply Forall_cons in Hin as [Hb Hin]. cbn [fmap list_fmap snd] in Hnd.
    apply NoDup_cons in Hnd as [Hnb Hnd]. simpl in Hb.
    destruct (draw_ok h bs b (store b) WIN rocket_pos rp zoom (rnd i)
                Hwf Hb Hrp) as (out & Hout & Hsp).
    set (store1 := set_sparks store b out.1).
    assert (Hstore1 : forall b', P (store1 b')).
    { intros b'. unfold store1, set_sparks. destruct (decide (b' = b)); [|done].
      destruct Hsp as [->|(a & x & y & z & ->)]; [done | by apply HP]. }
    destruct (IH Hin Hnd store1 Hstore1)
      as (store' & paints & Hrun & HP' & Hother & Hall).
    exists store', (out.2 ++ paints). split_and!.
    + simpl. step_with Hout. fold store1. by step_with Hrun.
    + done.
    + intros b' Hb'. cbn [fmap list_fmap snd] in Hb'.
      apply not_elem_of_cons in Hb' as [Hne Hb'].
      rewrite (Hother b' Hb'). unfold store1, set_sparks.
      by rewrite decide_False.
    + intros i' b' [[= -> ->]|Hib]%elem_of_cons.
      * exists out. split_and!; [done | |].
        -- rewrite (Hother b Hnb). unfold store1, set_sparks.
           by rewrite decide_True.
        -- intros q Hq. apply elem_of_app. by left.
      * destruct (Hall i' b' Hib) as (out' & Hout' & Hs' & Hq').
        assert (Hne : b' ≠ b).
        { intros ->. apply Hnb.
          apply (list_elem_of_fmap_2 snd) in Hib. done. }
        unfold store1, set_sparks in Hout'.
        rewrite decide_False in Hout' by done.
        exists out'. split_and!; [done | done |].
        intros q Hq. apply elem_of_app. right. by apply Hq'.
Qed.

End drawing_all.

(** ** One iteration of the loop *)

Lemma pygame_iteration_ok system bs input v h (P : list Spark -> Prop) :
  bodies system = Some bs -> wf h bs -> (4 <= length bs)%nat ->
  (forall b, P (sparks v b)) ->
  (forall i sp a x y z,
     P sp ->
     P (BodyView.update_sparks
          (sp ++ BodyView.new_sparks a x y z (random input i)) z).1) ->
  exists v' h' rocket me rp,
    pygame_frame system (keys input) h = Ok (tt, h') /\
    wf h' bs /\
    bs !! 3%nat = Some rocket /\
    objects h' !! rocket = Some me /\
    arrays h' !! position me = Some rp /\
    pygame_iteration system input v h = Ok (v', h') /\
    running v' = (if QUIT input then false else running v) /\
    scale v' = zoomed input (scale v) /\
    (forall b, P (sparks v' b)) /\
    exists out,
      BodyView.draw rocket (sparks v rocket) WIN (position me)
                    (zoomed input (scale v)) (random input 3%nat) h'
      = Ok (out, h') /\
      sparks v' rocket = out.1 /\
      forall q, q ∈ out.2 -> q ∈ screen v'.
Proof.
  intros Hbs Hwf Hlen HPv HP.
  destruct (lookup_lt_is_Some_2 bs 3) as [rocket Hr]; [lia|].
  destruct (wf_snapshots _ _ Hwf) as [ss Hss].
  destruct (frame_refines system bs (mkFrame [(rocket, keys input)] 0.001) h ss
              Hbs Hwf Hss) as (h' & Hrun & Hwf' & _).
  { constructor; [|constructor]. by eapply list_elem_of_lookup_2. }
  rewrite <- (pygame_frame_is_frame system bs rocket (keys input) h Hbs Hr)
    in Hrun.
  assert (Hrin : rocket ∈ bs) by (by eapply list_elem_of_lookup_2).
  destruct (wf_snapshot _ _ _ Hwf' Hrin) as [s Hs].
  destruct (snapshot_inv _ _ _ Hs) as (me & Ho & _ & Hp & _).
  destruct (draw_bodies_ok h' bs (position me) (s_position s)
              (zoomed input (scale v)) (random input) P Hwf' Hp HP
              (enumerate bs)) with (store := sparks v)
    as (store' & paints & Hdraw & HP' & _ & Hall).
  { apply Forall_forall. intros [i b] Hib. simpl.
    apply (list_elem_of_fmap_2 snd) in Hib.
    unfold enumerate in Hib. by rewrite enumerate_from_snd in Hib. }
  { unfold enumerate. rewrite enumerate_from_snd. by apply (wf_NoDup h). }
  { done. }
  destruct (Hall 3%nat rocket (enumerate_lookup _ _ _ Hr))
    as (out & Hout & Hsp & Hq).
  eexists _, h', rocket, me, (s_position s).
  split; [done|]. split; [done|]. split; [done|]. split; [done|].
  split; [done|]. split.
  { unfold pygame_iteration. step_with Hrun.
    step_with (the_bodies_ok _ _ h' Hbs). step_with (index_ok _ _ _ h' Hr).
    step_body Ho. unfold zoomed in Hdraw. step_with Hdraw.
    step_read Hp. reflexivity. }
  cbn [running scale sparks screen fst snd].
  split; [done|]. split; [done|]. split; [done|].
  exists out. split_and!; [done | done |].
  intros q Hq'. apply elem_of_cons. right. apply elem_of_app. left.
  by apply Hq.
Qed.

(** ** The whole loop *)

Lemma pygame_while_stopped system inputs v h :
  running v = false -> pygame_while system inputs v h = Ok (v, h).
Proof. intros Hv. destruct inputs; simpl; [done|]. by rewrite Hv. Qed.

Lemma zooms_in_cons input inputs :
  zooms_in (input :: inputs)
  = ((if K_PLUS input || K_EQUALS input then 1 else 0) + zooms_in inputs)%nat.
Proof. unfold zooms_in. simpl. by destruct (K_PLUS input || K_EQUALS input). Qed.

Lemma zooms_out_cons input inputs :
  zooms_out (input :: inputs)
  = ((if K_MINUS input then 1 else 0) + zooms_out inputs)%nat.
Proof. unfold zooms_out. simpl. by destruct (K_MINUS input). Qed.

Lemma zoomed_powers input s n m :
  zoomed input s * 1.1 ^ n / 1.1 ^ m
  = s * 1.1 ^ ((if K_PLUS input || K_EQUALS input then 1 else 0) + n)
    / 1.1 ^ ((if K_MINUS input then 1 else 0) + m).
Proof.
  assert (Hn : 1.1 ^ m <> 0) by (apply pow_nonzero; lra).
  unfold zoomed.
  destruct (K_PLUS input || K_EQUALS input), (K_MINUS input); simpl;
    field; (split || idtac); (done || lra).
Qed.

Lemma pygame_while_ok system bs (P : list Spark -> Prop) inputs :
  bodies system = Some bs -> (4 <= length bs)%nat ->
  Forall (fun input => forall i sp a x y z,
            P sp ->
            P (BodyView.update_sparks
                 (sp ++ BodyView.new_sparks a x y z (random input i)) z).1)
         inputs ->
  forall v h, wf h bs -> running v = true -> (forall b, P (sparks v b)) ->
  exists v' h',
    pygame_while system inputs v h = Ok (v', h') /\
    wf h' bs /\
    pygame_loop system (map keys (played inputs)) h = Ok (tt, h') /\
    running v' = negb (existsb QUIT inputs) /\
    scale v' = scale v * 1.1 ^ zooms_in (played inputs)
               / 1.1 ^ zooms_out (played inputs) /\
    (forall b, P (sparks v' b)).
Proof.
  intros Hbs Hlen Hall.
  induction Hall as [|input inputs Hin _ IH]; intros v h Hwf Hv HP.
  - exists v, h. split_and!; try done. simpl. lra.
  - destruct (pygame_iteration_ok system bs input v h P Hbs Hwf Hlen HP Hin)
      as (v1 & h1 & _ & _ & _ & Hframe & Hwf1 & _ & _ & _ & Hit & Hrun1 & Hsc1
          & HP1 & _).
    cbn [pygame_while played existsb]. rewrite Hv. step_with Hit.
    destruct (QUIT input) eqn:Hq.
    + exists v1, h1. rewrite pygame_while_stopped by done.
      split_and!; try done.
      * unfold pygame_loop. simpl. by step_with Hframe.
      * rewrite Hsc1, zooms_in_cons, zooms_out_cons.
        rewrite <- (zoomed_powers input (scale v) (zooms_in []) (zooms_out [])).
        unfold zooms_in, zooms_out. simpl. field.
    + destruct (IH v1 h1 Hwf1) as (v' & h' & Hr & Hwf' & Hloop & Hrun' & Hsc'
                                   & HP'); [by rewrite Hrun1 | done |].
      exists v', h'. split_and!; try done.
      * unfold pygame_loop in *. simpl. by step_with Hframe.
      * rewrite Hsc', Hsc1, zooms_in_cons, zooms_out_cons.
        apply zoomed_powers.
Qed.

Lemma pygame_frame_rocket system bs rocket ks h s t a :
  bodies system = Some bs -> wf h bs -> bs !! 3%nat = Some rocket ->
  snapshot h rocket = Some s -> s_kind s = Controllable t a ->
  exists h' me,
    pygame_frame system ks h = Ok (tt, h') /\
    objects h' !! rocket = Some me /\
    is_rocket me = true /\
    angle me = Some (turned ks a) /\
    thrust me = (if Body.K_UP ks then 6 else 0).
Proof.
  intros Hbs Hwf Hr Hs Hk.
  destruct (wf_snapshots _ _ Hwf) as [ss Hss].
  destruct (frame_refines system bs (mkFrame [(rocket, ks)] 0.001) h ss
              Hbs Hwf Hss) as (h' & Hrun & Hwf' & Hss' & _).
  { constructor; [|constructor]. by eapply list_elem_of_lookup_2. }
  rewrite <- (pygame_frame_is_frame system bs rocket ks h Hbs Hr) in Hrun.
  destruct (snapshots_lookup _ _ _ _ _ Hss Hr) as (s0 & Hs0 & Hsb).
  assert (s0 = s) as -> by congruence.
  destruct (snapshots_lookup _ _ _ _ _ Hss' Hr) as (s' & Hs' & Hsb').
  unfold frame_step in Hs'. cbn [controls dt foldl] in Hs'.
  assert (Hc : apply_control bs (rocket, ks) ss !! 3%nat
               = Some (control_of ks s)).
  { unfold apply_control. rewrite lookup_zip_with, Hr, Hs0. simpl.
    by rewrite decide_True. }
  pose proof (verlet_step_keeps (G system) 0.001
                (apply_control bs (rocket, ks) ss)) as Hkeep.
  destruct (Forall2_lookup_l _ _ _ _ _ Hkeep Hc) as (s2 & Hs2 & _ & Hk2).
  assert (s2 = s') as -> by congruence.
  destruct (snapshot_inv _ _ _ Hsb') as (me & Ho & _ & _ & _ & Hkind & _).
  rewrite Hk2 in Hkind. unfold control_of in Hkind. rewrite Hk in Hkind.
  cbn [s_kind with_velocity with_kind] in Hkind.
  destruct (kind_controllable _ _ _ Hkind) as (Hrk & Ha & Ht).
  exists h', me. by split_and!.
Qed.

(** What an iteration does with the rocket. *)
Lemma iteration_rocket system bs rocket input v h s t a :
  bodies system = Some bs -> wf h bs -> bs !! 3%nat = Some rocket ->
  snapshot h rocket = Some s -> s_kind s = Controllable t a ->
  let a' := turned (keys input) a in
  let z := zoomed input (scale v) in
  let image := blit_rotozoom rocket_image a' (z / 10000) (500, 500) in
  exists v' h',
    pygame_iteration system input v h = Ok (v', h') /\
    image ∈ screen v' /\
    sparks v' rocket
    = (if Body.K_UP (keys input)
       then (BodyView.update_sparks
               (sparks v rocket
                ++ BodyView.new_sparks a'
                     (500 + 20 * sin (radians a') * z / 10000)
                     (500 + 20 * cos (radians a') * z / 10000)
                     (z / 10000) (random input 3%nat))
               (z / 10000)).1
       else sparks v rocket).
Proof.
  intros Hbs Hwf Hr Hs Hk a' z image.
  assert (Hlen : (4 <= length bs)%nat)
    by (apply lookup_lt_Some in Hr; lia).
  destruct (pygame_iteration_ok system bs input v h (fun _ => True)
              Hbs Hwf Hlen) as (v' & h' & rocket' & me & rp & Hframe & Hwf'
                                & Hr' & Ho & Hp & Hit & _ & _ & _ & out & Hout
                                & Hsp & Hq); [done..|].
  assert (rocket' = rocket) as -> by congruence.
  destruct (pygame_frame_rocket system bs rocket (keys input) h s t a
              Hbs Hwf Hr Hs Hk) as (h2 & me2 & Hframe2 & Ho2 & Hrk & Ha & Ht).
  assert (h2 = h') as -> by congruence.
  assert (me2 = me) as -> by congruence.
  rewrite (draw_rocket h' rocket me a' rp rp (sparks v rocket) WIN
             (position me) (zoomed input (scale v)) (random input 3%nat)
             Ho Hrk Ha Hp Hp) in Hout.
  fold z in Hout.
  assert (Hx : (vsub rp rp).1 * z + IZR (WIN.1 / 2) = 500).
  { change (WIN.1 / 2)%Z with 500%Z. unfold vsub. cbn [fst snd]. ring. }
  assert (Hy : IZR (WIN.2 / 2) - (vsub rp rp).2 * z = 500).
  { change (WIN.2 / 2)%Z with 500%Z. unfold vsub. cbn [fst snd]. ring. }
  rewrite Hx, Hy in Hout. fold rocket_image in Hout. fold image in Hout.
  exists v', h'. split; [done|]. rewrite Ht in Hout.
  destruct (Body.K_UP (keys input)).
  - destruct (Rlt_dec 0 6) as [_|Hn]; [|lra].
    injection Hout as <-. split; [|done].
    apply Hq. cbn [snd]. apply elem_of_app. right. apply elem_of_cons. by left.
  - destruct (Rlt_dec 0 0) as [Hn|_]; [lra|].
    injection Hout as <-. split; [|done].
    apply Hq. apply elem_of_cons. by left.
Qed.

(** ** Rendering only reads the heap *)

Lemma collect_read_heap ls h vs h' :
  collect ls read_arr h = Ok (vs, h') -> h' = h.
Proof.
  revert vs h'. induction ls as [|l ls IH]; intros vs h'; simpl.
  - by intros [= _ ->].
  - intros (v & h1 & (-> & _)%read_arr_inv & H)%bind_inv.
    apply bind_inv in H as (vs' & h2 & ->%IH & H). by injection H as _ ->.
Qed.

Lemma draw_sparks_heap b sp x y z rnd h out h' :
  BodyView.draw_sparks b sp x y z rnd h = Ok (out, h') -> h' = h.
Proof.
  unfold BodyView.draw_sparks.
  intros (me & h1 & (-> & _)%get_body_inv & H)%bind_inv.
  destruct (angle me); [|done]. by injection H as _ ->.
Qed.

Lemma draw_heap b sp win rocket_pos z rnd h out h' :
  BodyView.draw b sp win rocket_pos z rnd h = Ok (out, h') -> h' = h.
Proof.
  unfold BodyView.draw.
  intros (me & h1 & (-> & _)%get_body_inv & H)%bind_inv.
  apply bind_inv in H as (p & h1 & (-> & _)%read_arr_inv & H).
  apply bind_inv in H as (rp & h1 & (-> & _)%read_arr_inv & H).
  apply bind_inv in H as (body & h1 & Hbody & H).
  assert (h1 = h) as ->.
  { destruct (is_rocket me); [|by injection Hbody as _ ->].
    apply bind_inv in Hbody as (sparked & h2 & Hsp & Hbody).
    assert (h2 = h) as ->.
    { destruct (Rlt_dec 0 (thrust me)); [|by injection Hsp as _ ->].
      destruct (angle me); [|done]. by apply draw_sparks_heap in Hsp. }
    destruct (angle me); [|done]. by injection Hbody as _ ->. }
  destruct (_ && _).
  - apply bind_inv in H as (hist & h2 & ->%collect_read_heap & H).
    by injection H as _ ->.
  - by injection H as _ ->.
Qed.

Lemma draw_bodies_heap l rocket_pos z rnd store h out h' :
  draw_bodies l rocket_pos z rnd store h = Ok (out, h') -> h' = h.
Proof.
  revert store out h'. induction l as [|[i b] l IH]; intros store out h'; simpl.
  - by intros [= _ ->].
  - intros (o1 & h1 & ->%draw_heap & H)%bind_inv.
    apply bind_inv in H as (o2 & h2 & ->%IH & H). by injection H as _ ->.
Qed.

(** An iteration leaves the heap that its call of the control adapter and
    its [integrate] leave. *)
Lemma pygame_iteration_heap system input v h v' h' :
  pygame_iteration system input v h = Ok (v', h') ->
  pygame_frame system (keys input) h = Ok (tt, h').
Proof.
  unfold pygame_iteration.
  intros ([] & h1 & Hframe & H)%bind_inv. rewrite Hframe.
  apply bind_inv in H as (bs & h2 & Hbs & H).
  assert (h2 = h1) as ->.
  { unfold System.the_bodies in Hbs. destruct (bodies system); [|done].
    by injection Hbs as _ ->. }
  apply bind_inv in H as (rocket & h2 & (-> & _)%index_inv & H).
  apply bind_inv in H as (me & h2 & (-> & _)%get_body_inv & H).
  apply bind_inv in H as (out & h2 & ->%draw_bodies_heap & H).
  apply bind_inv in H as (rp & h2 & (-> & _)%read_arr_inv & H).
  by injection H as _ ->.
Qed.

Lemma pygame_iteration_running system input v h v' h' :
  pygame_iteration system input v h = Ok (v', h') ->
  running v' = (if QUIT input then false else running v).
Proof.
  unfold pygame_iteration.
  intros ([] & h1 & _ & H)%bind_inv.
  apply bind_inv in H as (bs & h2 & _ & H).
  apply bind_inv in H as (rocket & h3 & _ & H).
  apply bind_inv in H as (me & h4 & _ & H).
  apply bind_inv in H as (out & h5 & _ & H).
  apply bind_inv in H as (rp & h6 & _ & H).
  by injection H as <- _.
Qed.

Lemma pygame_while_heap system inputs : forall v h v' h',
  running v = true ->
  pygame_while system inputs v h = Ok (v', h') ->
  pygame_loop system (map keys (played inputs)) h = Ok (tt, h').
Proof.
  unfold pygame_loop.
  induction inputs as [|input inputs IH]; intros v h v' h' Hv; simpl.
  - by intros [= _ ->].
  - rewrite Hv. intros (v1 & h1 & Hit & Hrest)%bind_inv.
    pose proof (pygame_iteration_heap _ _ _ _ _ _ Hit) as Hframe.
    pose proof (pygame_iteration_running _ _ _ _ _ _ Hit) as Hr1.
    destruct (QUIT input).
    + rewrite pygame_while_stopped in Hrest by done.
      injection Hrest as _ <-. simpl. by step_with Hframe.
    + simpl. step_with Hframe. apply (IH v1 h1 v' h'); [|done].
      by rewrite Hr1.
Qed.

(** ** Properties of the loop of [pygame_run] *)

(** X13: rendering never changes the simulation.  Whenever [pygame_run]
    gets to the end of its loop, the heap is the one that the control adapter
    and [integrate] alone produce for the keys of the iterations up to the
    first QUIT event, whatever the zoom keys did and whatever [random]
    returned.  And of the code's own steps none raises on a well-formed
    system of at least four bodies: not [bodies[3]], not the reads of the
    arrays, not the arithmetic on the heading.  The calls on pygame are
    recorded here with their arguments and taken to return; whether pygame
    itself raises on one of them is not part of the model. *)
Theorem pygame_run_leaves_physics_alone system inputs h :
  (forall v' h',
     pygame_run system inputs h = Ok (v', h') ->
     pygame_loop system (map keys (played inputs)) h = Ok (tt, h')) /\
  (forall bs,
     bodies system = Some bs -> wf h bs -> (4 <= length bs)%nat ->
     exists v' h',
       pygame_run system inputs h = Ok (v', h') /\
       pygame_loop system (map keys (played inputs)) h = Ok (tt, h') /\
       wf h' bs /\
       running v' = negb (existsb QUIT inputs)).
Proof.
  split.
  - intros v' h' Hrun.
    exact (pygame_while_heap system inputs (mkView true 10000 (fun _ => []) [])
             h v' h' eq_refl Hrun).
  - intros bs Hbs Hwf Hlen.
    destruct (pygame_while_ok system bs (fun _ => True) inputs Hbs Hlen)
      with (v := mkView true 10000 (fun _ => []) []) (h := h)
      as (v' & h' & Hrun & Hwf' & Hloop & Hq & _); try done.
    { apply Forall_forall. done. }
    by exists v', h'.
Qed.

Lemma pygame_run_leaves_physics_alone_witness :
  exists v' h',
    pygame_run generate_system example_inputs generate_heap = Ok (v', h') /\
    pygame_loop generate_system (map keys (played example_inputs)) generate_heap
    = Ok (tt, h') /\
    wf h' [0; 1; 2; 3]%nat /\
    running v' = negb (existsb QUIT example_inputs).
Proof.
  apply (proj2 (pygame_run_leaves_physics_alone generate_system
                  example_inputs generate_heap)
               [0; 1; 2; 3]%nat eq_refl generate_wf).
  simpl. lia.
Defined.

(** X14: the zoom.  Every iteration with PLUS or EQUALS down multiplies
    [scale] by 1.1 and every iteration with MINUS down divides it by 1.1,
    so that zooming in and out in the same iteration cancels; after the loop
    [scale] is [10000 * 1.1^ins / 1.1^outs], and it is always positive. *)
Theorem zoom_keys_scale_by_powers system bs inputs h :
  bodies system = Some bs -> wf h bs -> (4 <= length bs)%nat ->
  exists v' h',
    pygame_run system inputs h = Ok (v', h') /\
    scale v' = 10000 * 1.1 ^ zooms_in (played inputs)
               / 1.1 ^ zooms_out (played inputs) /\
    0 < scale v'.
Proof.
  intros Hbs Hwf Hlen.
  destruct (pygame_while_ok system bs (fun _ => True) inputs Hbs Hlen)
    with (v := mkView true 10000 (fun _ => []) []) (h := h)
    as (v' & h' & Hrun & _ & _ & _ & Hsc & _); try done.
  { apply Forall_forall. done. }
  exists v', h'. split_and!; [done | done |].
  rewrite Hsc. cbn [scale].
  apply Rdiv_lt_0_compat; [apply Rmult_lt_0_compat; [lra|] |];
    apply pow_lt; lra.
Qed.

Lemma zoom_keys_scale_by_powers_witness :
  exists v' h',
    pygame_run generate_system example_inputs generate_heap = Ok (v', h') /\
    scale v' = 10000 * 1.1 ^ 2 / 1.1 ^ 1 /\
    0 < scale v'.
Proof.
  apply (zoom_keys_scale_by_powers generate_system [0; 1; 2; 3]%nat
           example_inputs generate_heap eq_refl generate_wf).
  simpl. lia.
Defined.

(** X15: sparks do not pile up.  When [random] keeps its promises (every
    draw is in its range), no body ever carries more than 95 sparks, and
    after an iteration every spark that is kept has between 1 and 19 units
    of life left. *)
Theorem sparks_stay_bounded system bs inputs h :
  bodies system = Some bs -> wf h bs -> (4 <= length bs)%nat ->
  Forall (fun input => forall i j, in_range (random input i j)) inputs ->
  exists v' h',
    pygame_run system inputs h = Ok (v', h') /\
    forall b, (length (sparks v' b) <= 95)%nat /\
              Forall (fun s => (1 <= spark_life s <= 19)%Z) (sparks v' b).
Proof.
  intros Hbs Hwf Hlen Hrnd.
  destruct (pygame_while_ok system bs sparks_ok inputs Hbs Hlen)
    with (v := mkView true 10000 (fun _ => []) []) (h := h)
    as (v' & h' & Hrun & _ & _ & _ & _ & Hok); try done.
  { eapply Forall_impl; [exact Hrnd|]. intros input Hin i sp a x y z Hsp.
    apply sparks_ok_step; [|done]. intros j.
    destruct (Hin i j) as (_ & _ & ?). lia. }
  { intros b. apply sparks_ok_nil. }
  exists v', h'. split; [done|]. intros b. by apply sparks_ok_bounds.
Qed.

Lemma sparks_stay_bounded_witness :
  exists v' h',
    pygame_run generate_system example_inputs generate_heap = Ok (v', h') /\
    forall b, (length (sparks v' b) <= 95)%nat /\
              Forall (fun s => (1 <= spark_life s <= 19)%Z) (sparks v' b).
Proof.
  apply (sparks_stay_bounded generate_system [0; 1; 2; 3]%nat
           example_inputs generate_heap eq_refl generate_wf).
  - simpl. lia.
  - repeat constructor; simpl; (lra || lia).
Defined.

(** ** The QUIT event *)

Lemma bind_ext_results {A B} (m : M A) (k k' : A -> M B) h :
  (forall a h1, m h = Ok (a, h1) -> k a h1 = k' a h1) ->
  bind m k h = bind m k' h.
Proof.
  intros Hk. unfold bind. destruct (m h) as [[a h1]|e] eqn:E; [|done].
  by apply Hk.
Qed.

Lemma bind_ret_r {A} (m : M A) h : bind m ret h = m h.
Proof. unfold bind, ret. by destruct (m h) as [[a h1]|e]. Qed.

(** X16: the iteration that finds the QUIT event is still run in full, with
    its call of the control adapter, its [integrate] and its drawing, and
    nothing after it is: what the later iterations would have been given is
    never looked at. *)
Theorem quit_ends_the_loop_after_the_iteration system pre q rest v h :
  QUIT q = true ->
  pygame_while system (pre ++ q :: rest) v h
  = pygame_while system (pre ++ [q]) v h /\
  (existsb QUIT pre = false -> running v = true ->
   pygame_while system (pre ++ [q]) v h
   = (let! v1 := pygame_while system pre v in pygame_iteration system q v1) h).
Proof.
  intros Hq. split.
  - revert v h. induction pre as [|input pre IH]; intros v h; simpl.
    + destruct (running v); [|done].
      apply bind_ext_results. intros v1 h1 Hit.
      apply pygame_iteration_running in Hit. rewrite Hq in Hit.
      by rewrite pygame_while_stopped.
    + destruct (running v); [|done].
      apply bind_ext_results. intros v1 h1 _. apply IH.
  - revert v h. induction pre as [|input pre IH]; intros v h Hpre Hv; simpl.
    + rewrite Hv. unfold bind at 2, ret at 2. apply bind_ret_r.
    + simpl in Hpre. apply orb_false_elim in Hpre as [Hin Hpre].
      rewrite Hv, bind_assoc.
      apply bind_ext_results. intros v1 h1 Hit.
      apply pygame_iteration_running in Hit. rewrite Hin, Hv in Hit.
      by apply IH.
Qed.

Lemma quit_ends_the_loop_after_the_iteration_witness :
  pygame_while generate_system
    (take 2 example_inputs ++ mkInput true no_keys false false true steady
       :: [mkInput false kill_key true false false steady])
    (mkView true 10000 (fun _ => []) []) generate_heap
  = pygame_while generate_system
      (take 2 example_inputs ++ [mkInput true no_keys false false true steady])
      (mkView true 10000 (fun _ => []) []) generate_heap /\
  pygame_while generate_system
    (take 2 example_inputs ++ [mkInput true no_keys false false true steady])
    (mkView true 10000 (fun _ => []) []) generate_heap
  = (let! v1 := pygame_while generate_system (take 2 example_inputs)
                  (mkView true 10000 (fun _ => []) []) in
     pygame_iteration generate_system
       (mkInput true no_keys false false true steady) v1) generate_heap.
Proof.
  destruct (quit_ends_the_loop_after_the_iteration generate_system
              (take 2 example_inputs)
              (mkInput true no_keys false false true steady)
              [mkInput false kill_key true false false steady]
              (mkView true 10000 (fun _ => []) []) generate_heap eq_refl)
    as [H1 H2].
  split; [exact H1 | exact (H2 eq_refl eq_refl)].
Defined.

(** ** The rocket on the screen *)

(** X17: the camera follows the rocket.  In every iteration the picture of
    the rocket, turned by its heading and zoomed by [scale / 10000], is
    blitted with its centre at (500, 500), the middle of the window, wherever
    the rocket is and whatever the zoom: [rocket_pos] is the rocket's own
    position array. *)
Theorem rocket_is_drawn_at_the_centre system bs rocket input v h s t a :
  bodies system = Some bs -> wf h bs -> bs !! 3%nat = Some rocket ->
  snapshot h rocket = Some s -> s_kind s = Controllable t a ->
  exists v' h',
    pygame_iteration system input v h = Ok (v', h') /\
    blit_rotozoom rocket_image (turned (keys input) a)
                  (zoomed input (scale v) / 10000) (500, 500)
    ∈ screen v'.
Proof.
  intros Hbs Hwf Hr Hs Hk.
  destruct (iteration_rocket system bs rocket input v h s t a
              Hbs Hwf Hr Hs Hk) as (v' & h' & Hit & Himg & _).
  by exists v', h'.
Qed.

Lemma rocket_is_drawn_at_the_centre_witness :
  exists v' h',
    pygame_iteration generate_system
      (mkInput false (Body.mkKeys true false true false) true false false steady)
      (mkView true 10000 (fun _ => []) []) generate_heap = Ok (v', h') /\
    blit_rotozoom rocket_image (0 + 5) (10000 * 1.1 / 10000) (500, 500)
    ∈ screen v'.
Proof.
  exact (rocket_is_drawn_at_the_centre generate_system [0; 1; 2; 3]%nat 3%nat
           (mkInput false (Body.mkKeys true false true false) true false false
                    steady)
           (mkView true 10000 (fun _ => []) []) generate_heap
           (mkSnapshot 0.0001 (0, 1.2) (0, 0) (Controllable 0.0001 0) [])
           0.0001 0 eq_refl generate_wf eq_refl eq_refl eq_refl).
Defined.

(** X18: sparks fly exactly while UP is held.  The control adapter runs
    before the drawing in every iteration, so [draw] finds a thrust of 6 or
    of 0: with UP down the rocket's sparks go through [draw_sparks] once,
    five new ones starting 20 zoomed pixels from the centre of the window,
    and without UP they are left as they are, neither moved nor aged. *)
Theorem sparks_fly_while_up_is_held system bs rocket input v h s t a :
  bodies system = Some bs -> wf h bs -> bs !! 3%nat = Some rocket ->
  snapshot h rocket = Some s -> s_kind s = Controllable t a ->
  let a' := turned (keys input) a in
  let z := zoomed input (scale v) in
  exists v' h',
    pygame_iteration system input v h = Ok (v', h') /\
    sparks v' rocket
    = (if Body.K_UP (keys input)
       then (BodyView.update_sparks
               (sparks v rocket
                ++ BodyView.new_sparks a'
                     (500 + 20 * sin (radians a') * z / 10000)
                     (500 + 20 * cos (radians a') * z / 10000)
                     (z / 10000) (random input 3%nat))
               (z / 10000)).1
       else sparks v rocket).
Proof.
  intros Hbs Hwf Hr Hs Hk a' z.
  destruct (iteration_rocket system bs rocket input v h s t a
              Hbs Hwf Hr Hs Hk) as (v' & h' & Hit & _ & Hsp).
  by exists v', h'.
Qed.

Lemma sparks_fly_while_up_is_held_witness :
  exists v' h',
    pygame_iteration generate_system
      (mkInput false no_keys false false false steady)
      (mkView true 10000 (fun _ => []) []) generate_heap = Ok (v', h') /\
    sparks v' 3%nat = [].
Proof.
  exact (sparks_fly_while_up_is_held generate_system [0; 1; 2; 3]%nat 3%nat
           (mkInput false no_keys false false false steady)
           (mkView true 10000 (fun _ => []) []) generate_heap
           (mkSnapshot 0.0001 (0, 1.2) (0, 0) (Controllable 0.0001 0) [])
           0.0001 0 eq_refl generate_wf eq_refl eq_refl eq_refl).
Defined.
